(** * kuhl-util: geometry objects, bounding boxes and skeletal animation

    A shallow embedding of the parts of [lib/kuhl-util.c] that own the
    per-mesh device resources ([kuhl_geometry_*]), reproject bounding
    boxes ([kuhl_bbox_transform]), import bone weights
    ([kuhl_private_load_model]) and evaluate keyframe animation
    ([kuhl_private_anim_matrix], [kuhl_private_node_matrix],
    [kuhl_update_model]), followed by the list operations
    ([kuhl_geometry_count], [kuhl_geometry_append]), the lookup and
    read-back of attributes ([kuhl_geometry_attrib_index],
    [kuhl_geometry_attrib_get]), the change of program
    ([kuhl_get_attribute], [kuhl_geometry_program]) and the import of
    the faces of a mesh.

    Conventions.
    - A finite C [float] or [double] value is a rational number ([Q]).
      Comparisons are exact.  The arithmetic that [kuhl-util.c] itself
      performs is the exact operation followed by the rounding of the
      type of the result ([Float.to_float], [Float.to_double]).  The
      primitives of [vecmat.h], whose source is not part of this file,
      are modelled without rounding.  Infinities and NaN are not
      modelled.
    - [unsigned int] counters and array indices are [nat]; object names
      handed out by the graphics device, enumerants and [int] values are
      [Z].
    - A C pointer to a [kuhl_geometry] is a key of the heap (a [gmap]);
      [NULL] is [None].
    - A library call is a function from the state of the program (the
      device, the heap of geometries, the text printed so far) to one of
      four outcomes: it returns, the process exits, the behaviour is
      undefined, or the call is still running when its budget of steps is
      used up.  Only the functions that recurse or loop along [next]
      pointers take such a budget ([fuel]). *)

From Stdlib Require Import ZArith QArith Qabs Lia Lqa.
From stdpp Require Import base option list gmap sets strings.

Local Open Scope Z_scope.

(** ** Linear algebra helpers *)

Module VecMat.

Local Open Scope Q_scope.

(** Modelled from the spec: the matrix and vector primitives of
    [vecmat.h] are an external collaborator whose source is not part of
    this library file.  Matrices are 16 floats in column-major order
    (element (row i, column j) lives at index [i + 4*j]), vectors are
    consecutive floats. *)
Definition mat4f_identity : list Q :=
  [1; 0; 0; 0;   0; 1; 0; 0;   0; 0; 1; 0;   0; 0; 0; 1].

Definition mat_get (m : list Q) (i : nat) : Q := nth i m 0.

(** Modelled from the spec: [mat4f_mult_vec4f_new(result, m, v)] computes
    the product of the 4x4 matrix [m] and the 4-vector [v]. *)
Definition mat4f_mult_vec4f_new (m v : list Q) : list Q :=
  map (fun i : nat =>
         mat_get m i * mat_get v 0 + mat_get m (i + 4)%nat * mat_get v 1
         + mat_get m (i + 8)%nat * mat_get v 2 + mat_get m (i + 12)%nat * mat_get v 3)
      [0; 1; 2; 3]%nat.

(** Modelled from the spec: [mat4f_mult_mat4f_new(result, a, b)] stores
    the matrix product [a * b]. *)
Definition mat4f_mult_mat4f_new (a b : list Q) : list Q :=
  flat_map (fun j : nat =>
              map (fun i : nat =>
                     mat_get a i * mat_get b (4 * j)%nat
                     + mat_get a (i + 4)%nat * mat_get b (4 * j + 1)%nat
                     + mat_get a (i + 8)%nat * mat_get b (4 * j + 2)%nat
                     + mat_get a (i + 12)%nat * mat_get b (4 * j + 3)%nat)
                  [0; 1; 2; 3]%nat)
           [0; 1; 2; 3]%nat.

(** Modelled from the spec: [mat4f_transpose] swaps rows and columns. *)
Definition mat4f_transpose (m : list Q) : list Q :=
  flat_map (fun j : nat => map (fun i : nat => mat_get m (j + 4 * i)%nat) [0; 1; 2; 3]%nat)
           [0; 1; 2; 3]%nat.

(** Modelled from the spec: translation and scale matrices built from a
    3-vector. *)
Definition mat4f_translateVec_new (v : list Q) : list Q :=
  [1; 0; 0; 0;   0; 1; 0; 0;   0; 0; 1; 0;   mat_get v 0; mat_get v 1; mat_get v 2; 1].

Definition mat4f_scaleVec_new (v : list Q) : list Q :=
  [mat_get v 0; 0; 0; 0;   0; mat_get v 1; 0; 0;   0; 0; mat_get v 2; 0;   0; 0; 0; 1].

(** Modelled from the spec: [vec3f_scalarMult(v, s)] scales a vector in
    place, [vec3f_add_new(result, a, b)] adds two 3-vectors. *)
Definition vec3f_scalarMult (v : list Q) (s : Q) : list Q := map (fun x => x * s) v.

Definition vec3f_add_new (a b : list Q) : list Q :=
  map (fun i : nat => mat_get a i + mat_get b i) [0; 1; 2]%nat.

(** The C comparison [a < b] on floats. *)
Definition Qltb (a b : Q) : bool :=
  match a ?= b with Lt => true | _ => false end.

(** [FLT_MAX] of [float.h]: (2 - 2^-23) * 2^127. *)
Definition FLT_MAX : Q := 340282346638528859811704183484516925440 # 1.

End VecMat.

(** ** Rounding *)

Module Float.

Local Open Scope Q_scope.

(** The integer nearest to [q]; of two nearest integers, the even
    one. *)
Definition round_half_even (q : Q) : Z :=
  let n := Qnum q in
  let d := Zpos (Qden q) in
  let f := (n / d)%Z in
  let r := (2 * (n mod d))%Z in
  if (r <? d)%Z then f
  else if (d <? r)%Z then (f + 1)%Z
  else if Z.even f then f else (f + 1)%Z.

(** For [q <> 0], the exponent [e] with [2^e <= |q| < 2^(e+1)]. *)
Definition ilog2 (q : Q) : Z :=
  let e := (Z.log2 (Z.abs (Qnum q)) - Z.log2 (Zpos (Qden q)))%Z in
  if Qle_bool (2 ^ e) (Qabs q) then e else (e - 1)%Z.

(** Rounding to the binary floating-point format with [prec] bits of
    precision whose smallest positive number is [2^emin]: to the nearest
    number of the format, and of two nearest ones to the one with an
    even significand (IEEE 754, the default rounding mode, with gradual
    underflow).  Where C produces an infinity, for a result beyond the
    largest finite number of the format, the rounded rational is kept:
    it is larger in magnitude than every finite number of the format,
    as the infinity is. *)
Definition round (prec emin : Z) (q : Q) : Q :=
  if (Qnum q =? 0)%Z then 0
  else
    let e := Z.max (ilog2 q - prec + 1) emin in
    Qred (inject_Z (round_half_even (q / 2 ^ e)) * 2 ^ e).

(** The result of an operation of type [double] (binary64) and of type
    [float] (binary32), and the conversions to these types. *)
Definition to_double (q : Q) : Q := round 53 (-1074) q.
Definition to_float (q : Q) : Q := round 24 (-149) q.

End Float.

(** ** Bounding boxes *)

Module BBox.

Import VecMat.
Local Open Scope Q_scope.

(** A box is the six floats [xmin, xmax, ymin, ymax, zmin, zmax]. *)
Definition xmin := 0%nat.
Definition xmax := 1%nat.
Definition ymin := 2%nat.
Definition ymax := 3%nat.
Definition zmin := 4%nat.
Definition zmax := 5%nat.

(** The initializer of [float coords[8][3]].  The source lists seven
    rows; the C rules for a partial initializer fill the remaining row
    with zeros. *)
Definition coords_init (bbox : list Q) : list Q :=
  let b := mat_get bbox in
  [ b xmin; b ymin; b zmin;
    b xmin; b ymin; b zmax;
    b xmin; b ymax; b zmin;
    b xmin; b ymax; b zmax;
    b xmax; b ymin; b zmax;
    b xmax; b ymax; b zmin;
    b xmax; b ymax; b zmax;
    0; 0; 0 ].

(** [mat4f_mult_vec4f_new(coords[i], mat, coords[i])]: the callee reads
    four consecutive floats starting at [coords[i]] and writes four
    floats back to the same place, so the fourth component is the first
    float of the following row. *)
Definition read4 (mem : list Q) (off : nat) : list Q :=
  [mat_get mem off; mat_get mem (off + 1)%nat; mat_get mem (off + 2)%nat;
   mat_get mem (off + 3)%nat].

Definition write4 (mem : list Q) (off : nat) (v : list Q) : list Q :=
  <[(off + 3)%nat := mat_get v 3]>
    (<[(off + 2)%nat := mat_get v 2]>
       (<[(off + 1)%nat := mat_get v 1]> (<[off := mat_get v 0]> mem))).

Definition transform_row (mat : list Q) (mem : list Q) (i : nat) : list Q :=
  write4 mem (3 * i)%nat (mat4f_mult_vec4f_new mat (read4 mem (3 * i)%nat)).

(** One round of the min/max loop for row [i] of [coords]. *)
Definition fold_corner (coords : list Q) (bbox : list Q) (i : nat) : list Q :=
  let c k := mat_get coords (3 * i + k)%nat in
  let b0 := if Qltb (c 0%nat) (mat_get bbox 0) then <[0%nat := c 0%nat]> bbox else bbox in
  let b1 := if Qltb (c 1%nat) (mat_get b0 2) then <[2%nat := c 1%nat]> b0 else b0 in
  let b2 := if Qltb (c 2%nat) (mat_get b1 4) then <[4%nat := c 2%nat]> b1 else b1 in
  let b3 := if Qltb (mat_get b2 1) (c 0%nat) then <[1%nat := c 0%nat]> b2 else b2 in
  let b4 := if Qltb (mat_get b3 3) (c 1%nat) then <[3%nat := c 1%nat]> b3 else b3 in
  if Qltb (mat_get b4 5) (c 2%nat) then <[5%nat := c 2%nat]> b4 else b4.

(** [kuhl_bbox_transform(bbox, mat)].  [past] is the float that lies in
    memory directly after the 24 floats of [coords]: the call for the
    last row reads it as the fourth component and writes it back.  The
    result is the new content of [bbox]. *)
Definition kuhl_bbox_transform (past : Q) (bbox : list Q) (mat : option (list Q)) : list Q :=
  match mat with
  | None => bbox
  | Some m =>
      let mem := fold_left (transform_row m) (seq 0 8) (coords_init bbox ++ [past]) in
      let start := [FLT_MAX; - FLT_MAX; FLT_MAX; - FLT_MAX; FLT_MAX; - FLT_MAX] in
      fold_left (fold_corner mem) (seq 0 8) start
  end.

(** Two boxes agree when their six floats are equal as numbers. *)
Definition box_eq (a b : list Q) : Prop := Forall2 Qeq a b.

Definition unit_box_at_one : list Q := [1; 2; 1; 2; 1; 2].

End BBox.

(** ** The scene parser's data (read-only input of this library) *)

Module Assimp.

(** Modelled from the spec: the structures of the scene parser's headers,
    which are not part of this library (section 6 of the specification
    lists what a scene exposes); only the fields that the modelled
    functions read are kept.
    A C array with its element count is a list. *)
Record aiVertexWeight := VertexWeight { mVertexId : nat; mWeight : Q }.

Record aiBone := Bone {
  bone_mName : string;
  mWeights : list aiVertexWeight;
  mOffsetMatrix : list Q }.

(** A key of a channel: [mTime] and [mValue] (x,y,z or x,y,z,w). *)
Record aiKey := Key { mTime : Q; mValue : list Q }.

Record aiNodeAnim := NodeAnim {
  mNodeName : string;
  mPositionKeys : list aiKey;
  mRotationKeys : list aiKey;
  mScalingKeys : list aiKey }.

Record aiAnimation := Animation {
  mDuration : Q;
  mTicksPerSecond : Q;
  mChannels : list aiNodeAnim }.

(** The node hierarchy is a tree.  A pointer to a node is the path of
    child positions that leads to it from the root; [mParent] of the node
    at a non-empty path is the node at the path without its last step,
    and the root's [mParent] is [NULL]. *)
#[warnings="-register-all"]
Inductive aiNode := Node {
  mName : string;
  mTransformation : list Q;
  mChildren : list aiNode }.

Record aiScene := Scene {
  mRootNode : aiNode;
  mAnimations : list aiAnimation }.

Definition mNumAnimations (sc : aiScene) : nat := length (mAnimations sc).

Definition node_ptr := list nat.

Fixpoint node_at (nd : aiNode) (path : node_ptr) : option aiNode :=
  match path with
  | [] => Some nd
  | i :: rest =>
      match mChildren nd !! i with
      | Some child => node_at child rest
      | None => None
      end
  end.

(** [node->mParent]: [None] is [NULL]. *)
Definition mParent (path : node_ptr) : option node_ptr :=
  match path with
  | [] => None
  | _ => Some (removelast path)
  end.

End Assimp.

(** ** The graphics device *)

Module Device.

(** Modelled from the spec: the device API is an external collaborator.
    Its state is the table of linked programs with their active
    attribute and uniform locations, the sets of names that are live
    buffers, vertex arrays and textures, the binding registers, and the
    list of data-transfer and draw commands issued so far.  Binding
    calls are plain register writes; error flags are not modelled, so
    [kuhl_errorcheck] has no counterpart. *)
Record program_info := ProgramInfo {
  active_attribs : gmap string Z;
  active_uniforms : gmap string Z }.

Inductive command :=
| EnableVertexAttribArray (loc : Z)
| VertexAttribPointer (vertex_array buffer : Z) (loc : Z) (components : nat)
| BufferDataFloats (buffer : Z) (data : list Q)
| BufferDataIndices (buffer : Z) (data : list nat)
| BindElementArrayBuffer (vertex_array buffer : Z)
| Uniform1i (loc : Z) (v : Z)
| UniformMatrix4fv (loc : Z) (count : nat) (data : list (list Q))
| UnmapBuffer (buffer : Z)
| DrawElements (mode : Z) (count : nat)
| DrawArrays (mode : Z) (first count : nat).

Record device := Dev {
  programs : gmap Z program_info;
  buffers : gset Z;
  mapped_buffers : gset Z;
  vertex_arrays : gset Z;
  texture_objects : gset Z;
  current_program : Z;
  active_texture : Z;
  texture_binding_2d : gmap Z Z;
  vertex_array_binding : Z;
  array_buffer_binding : Z;
  commands : list command }.

Definition GL_TEXTURE0 : Z := 33984.
Definition GL_POINTS : Z := 0.
Definition GL_LINES : Z := 1.
Definition GL_LINE_LOOP : Z := 2.
Definition GL_LINE_STRIP : Z := 3.
Definition GL_TRIANGLES : Z := 4.
Definition GL_TRIANGLE_STRIP : Z := 5.
Definition GL_TRIANGLE_FAN : Z := 6.

Definition set_buffers (f : gset Z -> gset Z) (d : device) : device :=
  Dev (programs d) (f (buffers d)) (mapped_buffers d) (vertex_arrays d)
      (texture_objects d) (current_program d) (active_texture d)
      (texture_binding_2d d) (vertex_array_binding d) (array_buffer_binding d)
      (commands d).

Definition set_mapped_buffers (f : gset Z -> gset Z) (d : device) : device :=
  Dev (programs d) (buffers d) (f (mapped_buffers d)) (vertex_arrays d)
      (texture_objects d) (current_program d) (active_texture d)
      (texture_binding_2d d) (vertex_array_binding d) (array_buffer_binding d)
      (commands d).

Definition set_vertex_arrays (f : gset Z -> gset Z) (d : device) : device :=
  Dev (programs d) (buffers d) (mapped_buffers d) (f (vertex_arrays d))
      (texture_objects d) (current_program d) (active_texture d)
      (texture_binding_2d d) (vertex_array_binding d) (array_buffer_binding d)
      (commands d).

Definition set_current_program (v : Z) (d : device) : device :=
  Dev (programs d) (buffers d) (mapped_buffers d) (vertex_arrays d)
      (texture_objects d) v (active_texture d)
      (texture_binding_2d d) (vertex_array_binding d) (array_buffer_binding d)
      (commands d).

Definition set_active_texture (v : Z) (d : device) : device :=
  Dev (programs d) (buffers d) (mapped_buffers d) (vertex_arrays d)
      (texture_objects d) (current_program d) v
      (texture_binding_2d d) (vertex_array_binding d) (array_buffer_binding d)
      (commands d).

Definition set_texture_binding_2d (f : gmap Z Z -> gmap Z Z) (d : device) : device :=
  Dev (programs d) (buffers d) (mapped_buffers d) (vertex_arrays d)
      (texture_objects d) (current_program d) (active_texture d)
      (f (texture_binding_2d d)) (vertex_array_binding d) (array_buffer_binding d)
      (commands d).

Definition set_vertex_array_binding (v : Z) (d : device) : device :=
  Dev (programs d) (buffers d) (mapped_buffers d) (vertex_arrays d)
      (texture_objects d) (current_program d) (active_texture d)
      (texture_binding_2d d) v (array_buffer_binding d)
      (commands d).

Definition set_array_buffer_binding (v : Z) (d : device) : device :=
  Dev (programs d) (buffers d) (mapped_buffers d) (vertex_arrays d)
      (texture_objects d) (current_program d) (active_texture d)
      (texture_binding_2d d) (vertex_array_binding d) v
      (commands d).

Definition issue (c : command) (d : device) : device :=
  Dev (programs d) (buffers d) (mapped_buffers d) (vertex_arrays d)
      (texture_objects d) (current_program d) (active_texture d)
      (texture_binding_2d d) (vertex_array_binding d) (array_buffer_binding d)
      (commands d ++ [c]).

(** Queries. *)
Definition glIsProgram (d : device) (p : Z) : bool := bool_decide (is_Some (programs d !! p)).
Definition glIsBuffer (d : device) (b : Z) : bool := bool_decide (b ∈ buffers d).
Definition glIsVertexArray (d : device) (v : Z) : bool := bool_decide (v ∈ vertex_arrays d).
Definition glIsTexture (d : device) (t : Z) : bool := bool_decide (t ∈ texture_objects d).

Definition glGetAttribLocation (d : device) (p : Z) (name : string) : Z :=
  match programs d !! p with
  | Some info => default (-1) (active_attribs info !! name)
  | None => -1
  end.

Definition glGetUniformLocation (d : device) (p : Z) (name : string) : Z :=
  match programs d !! p with
  | Some info => default (-1) (active_uniforms info !! name)
  | None => -1
  end.

(** [glGetIntegerv(GL_TEXTURE_BINDING_2D)]: the 2D texture bound to the
    active texture unit. *)
Definition get_texture_binding_2d (d : device) : Z :=
  default 0 (texture_binding_2d d !! active_texture d).

Definition is_mapped (d : device) (b : Z) : bool := bool_decide (b ∈ mapped_buffers d).

(** Object creation and deletion.  A generated name is non-zero and not
    in use. *)
Definition unused_name (used : gset Z) : Z := 1 + set_fold Z.max 0 used.

Definition glGenBuffers (d : device) : Z := unused_name (buffers d).
Definition glGenVertexArrays (d : device) : Z := unused_name (vertex_arrays d).

Definition glDeleteBuffers (b : Z) (d : device) : device :=
  set_mapped_buffers (fun s => s ∖ {[b]}) (set_buffers (fun s => s ∖ {[b]}) d).

Definition glDeleteVertexArrays (v : Z) (d : device) : device :=
  set_vertex_arrays (fun s => s ∖ {[v]}) d.

(** Binding calls.  Binding a generated name for the first time creates
    the object. *)
Definition glBindBuffer_array (b : Z) (d : device) : device :=
  set_array_buffer_binding b
    (if b =? 0 then d else set_buffers (fun s => {[b]} ∪ s) d).

Definition glBindBuffer_element_array (b : Z) (d : device) : device :=
  issue (BindElementArrayBuffer (vertex_array_binding d) b)
    (if b =? 0 then d else set_buffers (fun s => {[b]} ∪ s) d).

Definition glBindVertexArray (v : Z) (d : device) : device :=
  set_vertex_array_binding v
    (if v =? 0 then d else set_vertex_arrays (fun s => {[v]} ∪ s) d).

Definition glUseProgram (p : Z) (d : device) : device := set_current_program p d.
Definition glActiveTexture (unit : Z) (d : device) : device := set_active_texture unit d.

Definition glBindTexture_2d (t : Z) (d : device) : device :=
  set_texture_binding_2d (fun m => <[active_texture d := t]> m) d.

Definition glUnmapBuffer_array (d : device) : device :=
  issue (UnmapBuffer (array_buffer_binding d))
    (set_mapped_buffers (fun s => s ∖ {[array_buffer_binding d]}) d).

(** [glVertexAttribPointer(loc, components, GL_FLOAT, GL_FALSE, 0, 0)]
    points attribute [loc] of the bound vertex array at the start of the
    buffer that is bound to the array target at the time of the call. *)
Definition glVertexAttribPointer (loc : Z) (components : nat) (d : device) : device :=
  issue (VertexAttribPointer (vertex_array_binding d) (array_buffer_binding d) loc components) d.

End Device.

(** ** Geometry objects *)

Module Geometry.

Import Device.

(** Modelled from the spec: the structures of [kuhl-util.h], which is not
    among the sources, with the fields of the data model (attribute,
    texture binding, bone set, geometry node) under the names this file
    uses for them. *)
Record kuhl_attrib := Attrib {
  attrib_name : option string;
  bufferobject : Z }.

Record kuhl_texture := Texture {
  texture_name : option string;
  textureId : Z }.

Record kuhl_bonemat := BoneMat {
  count : nat;
  mesh : nat;
  boneList : list Assimp.aiBone;
  matrices : list (list Q) }.

(** [attribs] and [textures] are the fixed-size arrays of the structure;
    [attrib_count] and [texture_count] say how many leading slots are in
    use. *)
Record kuhl_geometry := Geom {
  vao : Z;
  program : Z;
  vertex_count : nat;
  primitive_type : Z;
  attribs : list kuhl_attrib;
  attrib_count : nat;
  textures : list kuhl_texture;
  texture_count : nat;
  indices : option (list nat);
  indices_len : nat;
  indices_bufferobject : Z;
  matrix : list Q;
  has_been_drawn : Z;
  assimp_node : option Assimp.node_ptr;
  assimp_scene : option Assimp.aiScene;
  bones : option kuhl_bonemat;
  next : option nat }.

Definition with_vao (v : Z) (g : kuhl_geometry) : kuhl_geometry :=
  Geom v (program g) (vertex_count g) (primitive_type g) (attribs g) (attrib_count g)
       (textures g) (texture_count g) (indices g) (indices_len g)
       (indices_bufferobject g) (matrix g) (has_been_drawn g) (assimp_node g)
       (assimp_scene g) (bones g) (next g).

Definition with_attribs (a : list kuhl_attrib) (g : kuhl_geometry) : kuhl_geometry :=
  Geom (vao g) (program g) (vertex_count g) (primitive_type g) a (attrib_count g)
       (textures g) (texture_count g) (indices g) (indices_len g)
       (indices_bufferobject g) (matrix g) (has_been_drawn g) (assimp_node g)
       (assimp_scene g) (bones g) (next g).

Definition with_attrib_count (n : nat) (g : kuhl_geometry) : kuhl_geometry :=
  Geom (vao g) (program g) (vertex_count g) (primitive_type g) (attribs g) n
       (textures g) (texture_count g) (indices g) (indices_len g)
       (indices_bufferobject g) (matrix g) (has_been_drawn g) (assimp_node g)
       (assimp_scene g) (bones g) (next g).

Definition with_textures (t : list kuhl_texture) (g : kuhl_geometry) : kuhl_geometry :=
  Geom (vao g) (program g) (vertex_count g) (primitive_type g) (attribs g) (attrib_count g)
       t (texture_count g) (indices g) (indices_len g)
       (indices_bufferobject g) (matrix g) (has_been_drawn g) (assimp_node g)
       (assimp_scene g) (bones g) (next g).

Definition with_texture_count (n : nat) (g : kuhl_geometry) : kuhl_geometry :=
  Geom (vao g) (program g) (vertex_count g) (primitive_type g) (attribs g) (attrib_count g)
       (textures g) n (indices g) (indices_len g)
       (indices_bufferobject g) (matrix g) (has_been_drawn g) (assimp_node g)
       (assimp_scene g) (bones g) (next g).

Definition with_indices (i : option (list nat)) (len : nat) (g : kuhl_geometry)
  : kuhl_geometry :=
  Geom (vao g) (program g) (vertex_count g) (primitive_type g) (attribs g) (attrib_count g)
       (textures g) (texture_count g) i len
       (indices_bufferobject g) (matrix g) (has_been_drawn g) (assimp_node g)
       (assimp_scene g) (bones g) (next g).

Definition with_indices_len (len : nat) (g : kuhl_geometry) : kuhl_geometry :=
  with_indices (indices g) len g.

Definition with_indices_bufferobject (b : Z) (g : kuhl_geometry) : kuhl_geometry :=
  Geom (vao g) (program g) (vertex_count g) (primitive_type g) (attribs g) (attrib_count g)
       (textures g) (texture_count g) (indices g) (indices_len g)
       b (matrix g) (has_been_drawn g) (assimp_node g)
       (assimp_scene g) (bones g) (next g).

Definition with_matrix (m : list Q) (g : kuhl_geometry) : kuhl_geometry :=
  Geom (vao g) (program g) (vertex_count g) (primitive_type g) (attribs g) (attrib_count g)
       (textures g) (texture_count g) (indices g) (indices_len g)
       (indices_bufferobject g) m (has_been_drawn g) (assimp_node g)
       (assimp_scene g) (bones g) (next g).

Definition with_has_been_drawn (v : Z) (g : kuhl_geometry) : kuhl_geometry :=
  Geom (vao g) (program g) (vertex_count g) (primitive_type g) (attribs g) (attrib_count g)
       (textures g) (texture_count g) (indices g) (indices_len g)
       (indices_bufferobject g) (matrix g) v (assimp_node g)
       (assimp_scene g) (bones g) (next g).

Definition with_bones (b : option kuhl_bonemat) (g : kuhl_geometry) : kuhl_geometry :=
  Geom (vao g) (program g) (vertex_count g) (primitive_type g) (attribs g) (attrib_count g)
       (textures g) (texture_count g) (indices g) (indices_len g)
       (indices_bufferobject g) (matrix g) (has_been_drawn g) (assimp_node g)
       (assimp_scene g) b (next g).

(** *** Program state and the monad of library calls *)

Inductive level := DEBUG | INFO | WARNING | ERROR | FATAL | STDOUT | STDERR.

(** One line of diagnostic output: where it went, which message of the
    source it is, and the numbers printed in it. *)
Record message := Msg { msg_level : level; msg_text : string; msg_args : list Z }.

Record world := World {
  dev : device;
  heap : gmap nat kuhl_geometry;
  output : list message }.

(** How a call ends: it returns; the process is gone after
    [exit(EXIT_FAILURE)], leaving only what was printed; the call has no
    defined behaviour (a dangling or null pointer is dereferenced, an
    array is accessed out of bounds); or the budget of steps given to a
    recursive call is used up. *)
Inductive result (A : Type) :=
| Done (a : A) (w : world)
| Exit (printed : list message)
| Undefined
| OutOfFuel.
Arguments Done {A} a w.
Arguments Exit {A} printed.
Arguments Undefined {A}.
Arguments OutOfFuel {A}.

Definition M (A : Type) : Type := world -> result A.

Definition ret {A} (a : A) : M A := fun w => Done a w.

Definition bind {A B} (m : M A) (k : A -> M B) : M B :=
  fun w => match m w with
           | Done a w' => k a w'
           | Exit o => Exit o
           | Undefined => Undefined
           | OutOfFuel => OutOfFuel
           end.

Notation "'do' x <- m ; k" := (bind m (fun x => k))
  (at level 10, x name, m at level 100, k at level 200).
Notation "m ;; k" := (bind m (fun _ => k))
  (at level 100, k at level 200, right associativity).

Definition exit_failure {A} : M A := fun w => Exit (output w).
Definition undefined {A} : M A := fun _ => Undefined.
Definition out_of_fuel {A} : M A := fun _ => OutOfFuel.

Definition msg (l : level) (text : string) (args : list Z) : M unit :=
  fun w => Done tt (World (dev w) (heap w) (output w ++ [Msg l text args])).

Definition gl {A} (q : device -> A) : M A := fun w => Done (q (dev w)) w.

Definition gl_do (f : device -> device) : M unit :=
  fun w => Done tt (World (f (dev w)) (heap w) (output w)).

Definition load (p : nat) : M kuhl_geometry :=
  fun w => match heap w !! p with
           | Some g => Done g w
           | None => Undefined
           end.

Definition store (p : nat) (g : kuhl_geometry) : M unit :=
  fun w => Done tt (World (dev w) (<[p := g]> (heap w)) (output w)).

Definition modify (p : nat) (f : kuhl_geometry -> kuhl_geometry) : M unit :=
  do g <- load p; store p (f g).

Definition when (b : bool) (m : M unit) : M unit := if b then m else ret tt.

(** A [for] loop whose body is run for each element of [l] in turn. *)
Fixpoint for_each {A} (l : list A) (body : A -> M unit) : M unit :=
  match l with
  | [] => ret tt
  | x :: rest => body x ;; for_each rest body
  end.

Definition is_set {A} (o : option A) : bool :=
  match o with Some _ => true | None => false end.

Section Functions.

(** Constants of [kuhl-util.h], which is not part of this file's
    source: the array capacities and the option bits. *)
Variables MAX_ATTRIBUTES MAX_TEXTURES MAX_BONES : nat.
Variables KG_WARN KG_FULL_LIST : Z.

(** The loop of [kuhl_geometry_attrib_index] over the first [n] slots,
    [i] being the index of the head of [slots].  [strcmp] on a slot
    whose name is [NULL], or a read past the array, is undefined
    ([None]). *)
Fixpoint attrib_scan (slots : list kuhl_attrib) (n i : nat) (name : string)
  : option Z :=
  match n with
  | O => Some (-1)
  | S n' =>
      match slots with
      | [] => None
      | a :: rest =>
          match attrib_name a with
          | None => None
          | Some s =>
              if String.eqb name s then Some (Z.of_nat i)
              else attrib_scan rest n' (S i) name
          end
      end
  end.

Definition kuhl_geometry_attrib_index (geom : option nat) (name : option string)
  : M Z :=
  match geom, name with
  | Some p, Some nm =>
      do g <- load p;
      match attrib_scan (attribs g) (attrib_count g) 0 nm with
      | Some r => ret r
      | None => undefined
      end
  | _, _ => ret (-1)
  end.

(** A write to [geom->attribs[i]]. *)
Definition set_attrib_slot (p i : nat) (f : kuhl_attrib -> kuhl_attrib) : M unit :=
  do g <- load p;
  match attribs g !! i with
  | Some a => store p (with_attribs (<[i := f a]> (attribs g)) g)
  | None => undefined
  end.

Definition set_texture_slot (p i : nat) (t : kuhl_texture) : M unit :=
  do g <- load p;
  match textures g !! i with
  | Some _ => store p (with_textures (<[i := t]> (textures g)) g)
  | None => undefined
  end.

(** [kuhl_geometry_attrib(geom, data, components, name,
    warnIfAttribMissing)].  The caller's [data] holds at least
    [vertex_count * components] floats.  The message for an invalid
    vertex array passes [geom->vao] to the conversion [%s] and [name]
    to [%d]: printing it is undefined. *)
Definition kuhl_geometry_attrib (geom : option nat) (data : option (list Q))
    (components : nat) (name : option string) (warnIfAttribMissing : Z) : M unit :=
  match name with
  | None => msg WARNING "Unable to add an attribute that is NULL or an empty string." []
  | Some nm =>
  if String.eqb nm EmptyString then
    msg WARNING "Unable to add an attribute that is NULL or an empty string." []
  else
  match geom with
  | None => msg WARNING "Unable to add attribute: geometry object set to NULL." []
  | Some p =>
  match data with
  | None => msg WARNING "Unable to add attribute: array set to NULL." []
  | Some floats =>
  if (components =? 0)%nat then
    msg WARNING "Unable to add attribute: this attribute has 0 components." []
  else
  do g <- load p;
  do valid <- gl (fun d => glIsVertexArray d (vao g));
  if negb valid then undefined
  else
  do attribLocation <- gl (fun d => glGetAttribLocation d (program g) nm);
  if attribLocation =? -1 then
    when (negb (warnIfAttribMissing =? 0))
         (msg WARNING "Unable to add attribute: missing or inactive in program"
              [program g])
  else
  do found <- kuhl_geometry_attrib_index (Some p) (Some nm);
  do destIndex <-
    (if found <? 0 then
       (* a new attribute for this geometry object *)
       modify p (with_attrib_count (S (attrib_count g))) ;;
       ret (attrib_count g)
     else
       (* overwriting: free the resources of the old attribute *)
       match attribs g !! Z.to_nat found with
       | None => undefined
       | Some old =>
           do live <- gl (fun d => glIsBuffer d (bufferobject old));
           when live (gl_do (glDeleteBuffers (bufferobject old))) ;;
           ret (Z.to_nat found)
       end);
  if (destIndex =? MAX_ATTRIBUTES)%nat then
    msg FATAL "You tried to add more than MAX_ATTRIBUTES attributes"
        [Z.of_nat MAX_ATTRIBUTES] ;;
    exit_failure
  else
  set_attrib_slot p destIndex (fun a => Attrib (Some nm) (bufferobject a)) ;;
  gl_do (glBindVertexArray (vao g)) ;;
  gl_do (issue (EnableVertexAttribArray attribLocation)) ;;
  do b <- gl glGenBuffers;
  set_attrib_slot p destIndex (fun a => Attrib (attrib_name a) b) ;;
  gl_do (glBindBuffer_array b) ;;
  gl_do (issue (BufferDataFloats b (take (vertex_count g * components) floats))) ;;
  gl_do (glVertexAttribPointer attribLocation components) ;;
  gl_do (glBindBuffer_array 0) ;;
  gl_do (glBindVertexArray 0)
  end end end.

(** [kuhl_geometry_sanity_check_attribute(bufferobject, attributeName,
    program)]. *)
Definition kuhl_geometry_sanity_check_attribute (bufferobject : Z)
    (attributeName : option string) (prog : Z) : M unit :=
  do attribLoc <-
    match attributeName with
    | Some nm => gl (fun d => glGetAttribLocation d prog nm)
    | None => ret (-1)
    end;
  if negb (attribLoc =? -1) then
    (* the attribute is in the GLSL program *)
    if is_set attributeName || negb (bufferobject =? 0) then
      if negb (is_set attributeName) || (bufferobject =? 0) then
        msg FATAL "Only part of the attribute was set" [bufferobject] ;;
        exit_failure
      else ret tt
    else ret tt
  else
    (* the attribute is not in the GLSL program *)
    do live <- gl (fun d => glIsBuffer d bufferobject);
    if live then
      msg ERROR "We created a buffer object for an attribute that is not in the program"
          [prog] ;;
      exit_failure
    else ret tt.

(** The search loop of [kuhl_geometry_texture]: every matching slot
    overwrites [destIndex], so the last match wins. *)
Fixpoint texture_scan (slots : list kuhl_texture) (n i : nat) (name : string)
    (destIndex : nat) : option nat :=
  match n with
  | O => Some destIndex
  | S n' =>
      match slots with
      | [] => None
      | t :: rest =>
          match texture_name t with
          | None => None
          | Some s =>
              texture_scan rest n' (S i) name
                           (if String.eqb name s then i else destIndex)
          end
      end
  end.

(** The part of [kuhl_geometry_texture] that follows the recursive
    call: record the pair (name, texture) in the geometry at [p]. *)
Definition texture_store (p : nat) (texture : Z) (nm : string) (kg_options : Z)
  : M unit :=
  do g <- load p;
  do valid <- gl (fun d => glIsVertexArray d (vao g));
  if negb valid then
    msg WARNING "This geometry object has an invalid vertex array object" [vao g]
  else
  do samplerLocation <- gl (fun d => glGetUniformLocation d (program g) nm);
  if samplerLocation =? -1 then
    when (negb (Z.land kg_options KG_WARN =? 0))
         (msg WARNING "Texture sampler was missing in GLSL program" [program g])
  else
  match texture_scan (textures g) (texture_count g) 0 nm (texture_count g) with
  | None => undefined
  | Some destIndex =>
      (* the old name is freed when overwriting; the texture is not *)
      when (destIndex =? texture_count g)%nat
           (modify p (with_texture_count (S (texture_count g)))) ;;
      if (destIndex =? MAX_TEXTURES)%nat then
        msg ERROR "You tried to add more than MAX_TEXTURES textures"
            [Z.of_nat MAX_TEXTURES] ;;
        exit_failure
      else
        set_texture_slot p destIndex (Texture (Some nm) texture)
  end.

(** [kuhl_geometry_texture(geom, texture, name, kg_options)]; [fuel]
    bounds the depth of the recursion along [next]. *)
Fixpoint kuhl_geometry_texture (fuel : nat) (geom : option nat) (texture : Z)
    (name : option string) (kg_options : Z) : M unit :=
  match fuel with
  | O => out_of_fuel
  | S fuel' =>
  match name with
  | None => msg WARNING "GLSL variable name was NULL or the empty string." []
  | Some nm =>
  if String.eqb nm EmptyString then
    msg WARNING "GLSL variable name was NULL or the empty string." []
  else
  match geom with
  | None => msg WARNING "Geometry struct is null while trying to set texture" []
  | Some p =>
  if texture =? 0 then
    msg WARNING "Texture was set to 0 while trying to set texture" []
  else
  do live <- gl (fun d => glIsTexture d texture);
  if negb live then
    msg WARNING "You tried to set the texture to an invalid texture" [texture]
  else
  do g0 <- load p;
  when (negb (Z.land kg_options KG_FULL_LIST =? 0) && is_set (next g0))
       (kuhl_geometry_texture fuel' (next g0) texture name kg_options) ;;
  texture_store p texture nm kg_options
  end end end.

(** [kuhl_geometry_new(geom, program, vertexCount, primitive_type)];
    [geom] points to memory the caller allocated. *)
Definition kuhl_geometry_new (geom : nat) (prog : Z) (vertexCount : nat)
    (primitive : Z) : M unit :=
  do v <- gl glGenVertexArrays;
  modify geom (with_vao v) ;;
  gl_do (glBindVertexArray v) ;;
  gl_do (glBindVertexArray 0) ;;
  do linked <- gl (fun d => glIsProgram d prog);
  if negb linked then
    do g <- load geom;
    msg ERROR "The program you specified is not a valid GLSL program." [program g] ;;
    exit_failure
  else
  when (vertexCount =? 0)%nat
       (msg WARNING "You are creating a geometry object with a vertexCount of 0." []) ;;
  modify geom (fun g =>
    Geom (vao g) prog vertexCount primitive (attribs g) 0 (textures g) 0
         None 0 0 VecMat.mat4f_identity 0 None None None None).

(** [kuhl_geometry_indices(geom, indices, indexCount)].  [geom] is
    dereferenced without a null check. *)
Definition kuhl_geometry_indices (geom : nat) (indices_arg : option (list nat))
    (indexCount : nat) : M unit :=
  match indices_arg with
  | None => msg STDOUT "WARNING: indexCount was zero or indices array was NULL" []
  | Some idx =>
  if (indexCount =? 0)%nat then
    msg STDOUT "WARNING: indexCount was zero or indices array was NULL" []
  else
  do g <- load geom;
  if (primitive_type g =? GL_TRIANGLES) && negb (indexCount mod 3 =? 0)%nat then
    msg STDOUT "ERROR: indexCount was not a multiple of 3" [Z.of_nat indexCount] ;;
    exit_failure
  else if (primitive_type g =? GL_LINES) && negb (indexCount mod 2 =? 0)%nat then
    msg STDOUT "ERROR: indexCount was not a multiple of 2" [Z.of_nat indexCount] ;;
    exit_failure
  else
  modify geom (with_indices (Some idx) indexCount) ;;
  for_each (seq 0 indexCount) (fun i =>
    match idx !! i with
    | None => undefined
    | Some v =>
        when (vertex_count g <=? v)%nat
             (msg STDERR "indices[i] is asking for a vertex that does not exist"
                  [Z.of_nat (vertex_count g); Z.of_nat i; Z.of_nat v])
    end) ;;
  gl_do (glBindVertexArray (vao g)) ;;
  do b <- gl glGenBuffers;
  modify geom (with_indices_bufferobject b) ;;
  gl_do (glBindBuffer_element_array b) ;;
  gl_do (issue (BufferDataIndices b (take indexCount idx))) ;;
  gl_do (glBindVertexArray 0)
  end.

(** The first loop of [kuhl_geometry_draw]: bind every usable texture
    to the texture unit of its slot.  Returns [hasTex]. *)
Fixpoint bind_textures (g : kuhl_geometry) (slots : list nat) (hasTex : Z) : M Z :=
  match slots with
  | [] => ret hasTex
  | i :: rest =>
      match textures g !! i with
      | None => undefined
      | Some tex =>
          do live <- gl (fun d => glIsTexture d (textureId tex));
          if negb live then bind_textures g rest hasTex
          else
            match texture_name tex with
            | None => undefined
            | Some nm =>
                do loc <- gl (fun d => glGetUniformLocation d (program g) nm);
                if loc =? -1 then bind_textures g rest hasTex
                else
                  gl_do (issue (Uniform1i loc (Z.of_nat i))) ;;
                  gl_do (glActiveTexture (GL_TEXTURE0 + Z.of_nat i)) ;;
                  gl_do (glBindTexture_2d (textureId tex)) ;;
                  bind_textures g rest (if String.eqb nm "tex" then 1 else hasTex)
            end
      end
  end.

(** The loop that unmaps attribute buffers left mapped by
    [kuhl_geometry_attrib_get]. *)
Definition unmap_attribs (g : kuhl_geometry) : M unit :=
  for_each (seq 0 (attrib_count g)) (fun i =>
    match attribs g !! i with
    | None => undefined
    | Some a =>
        gl_do (glBindBuffer_array (bufferobject a)) ;;
        do bufferIsMapped <- gl (fun d => is_mapped d (array_buffer_binding d));
        when bufferIsMapped (gl_do glUnmapBuffer_array) ;;
        gl_do (glBindBuffer_array 0)
    end).

(** The loop that unbinds the texture of every slot. *)
Definition unbind_textures (g : kuhl_geometry) : M unit :=
  for_each (seq 0 (texture_count g)) (fun i =>
    gl_do (glActiveTexture (GL_TEXTURE0 + Z.of_nat i)) ;;
    gl_do (glBindTexture_2d 0)).

(** [sum += fabsf(identity[i] - matrix[i])] over the 16 entries, in
    [float] arithmetic. *)
Definition distance_from_identity (m : list Q) : Q :=
  fold_left (fun (sum : Q) (i : nat) =>
               Float.to_float
                 (sum + Qabs (Float.to_float
                                (VecMat.mat_get VecMat.mat4f_identity i
                                 - VecMat.mat_get m i)))%Q)
            (seq 0 16) 0%Q.

(** The constant [0.00001], of type [double]: the number of binary64
    nearest to 1/100000. *)
Definition double_0_00001 : Q := 5902958103587057 # 590295810358705651712.

(** The body of [kuhl_geometry_draw] for a non-null [geom]; [draw_next]
    stands for the recursive call at its end. *)
Definition draw_body (draw_next : option nat -> M unit) (p : nat) : M unit :=
  (* record the state so that it can be restored *)
  do previouslyUsedProgram <- gl current_program;
  do previouslyBoundTexture <- gl get_texture_binding_2d;
  do previouslyActiveTexture <- gl active_texture;
  do previousVAO <- gl vertex_array_binding;
  do g <- load p;
  do validProgram <- gl (fun d => glIsProgram d (program g));
  do validVAO <- gl (fun d => glIsVertexArray d (vao g));
  if negb validProgram || negb validVAO then
    msg STDERR "Program or vertex array object were invalid" [program g; vao g]
  else
  gl_do (glUseProgram (program g)) ;;
  do hasTex <- bind_textures g (seq 0 (texture_count g)) 0;
  do loc <- gl (fun d => glGetUniformLocation d (program g) "HasTex");
  when (negb (loc =? -1)) (gl_do (issue (Uniform1i loc hasTex))) ;;
  do loc <- gl (fun d => glGetUniformLocation d (program g) "BoneMat");
  do numBones <-
    match bones g with
    | Some b =>
        if negb (loc =? -1) then
          gl_do (issue (UniformMatrix4fv loc MAX_BONES (matrices b))) ;;
          ret (Z.of_nat (count b))
        else ret 0
    | None => ret 0
    end;
  do loc <- gl (fun d => glGetUniformLocation d (program g) "NumBones");
  when (negb (loc =? -1)) (gl_do (issue (Uniform1i loc numBones))) ;;
  do loc <- gl (fun d => glGetUniformLocation d (program g) "GeomTransform");
  (if negb (loc =? -1) then
     gl_do (issue (UniformMatrix4fv loc 1 [matrix g]))
   else
     when (VecMat.Qltb double_0_00001 (distance_from_identity (matrix g))
           && (has_been_drawn g =? 0))
          (msg STDOUT "ERROR: You must include a uniform mat4 GeomTransform variable"
               [program g])) ;;
  gl_do (glBindVertexArray (vao g)) ;;
  unmap_attribs g ;;
  do indexed <- gl (fun d => glIsBuffer d (indices_bufferobject g));
  (if (0 <? indices_len g)%nat && indexed then
     gl_do (issue (DrawElements (primitive_type g) (indices_len g)))
   else
     gl_do (issue (DrawArrays (primitive_type g) 0 (vertex_count g)))) ;;
  unbind_textures g ;;
  modify p (with_has_been_drawn 1) ;;
  (* restore *)
  gl_do (glActiveTexture previouslyActiveTexture) ;;
  gl_do (glBindTexture_2d previouslyBoundTexture) ;;
  gl_do (glUseProgram previouslyUsedProgram) ;;
  gl_do (glBindVertexArray previousVAO) ;;
  draw_next (next g).

(** [kuhl_geometry_draw(geom)]; [fuel] bounds the recursion along
    [next]. *)
Fixpoint kuhl_geometry_draw (fuel : nat) (geom : option nat) : M unit :=
  match fuel with
  | O => out_of_fuel
  | S fuel' =>
      match geom with
      | None => ret tt
      | Some p => draw_body (kuhl_geometry_draw fuel') p
      end
  end.

(** One round of the loop of [kuhl_geometry_delete] over the
    attribute slots. *)
Definition release_attrib (geom : nat) (i : nat) : M unit :=
  do g <- load geom;
  match attribs g !! i with
  | None => undefined
  | Some a =>
      (* the name is freed and set to NULL *)
      do live <- gl (fun d => glIsBuffer d (bufferobject a));
      when live (gl_do (glDeleteBuffers (bufferobject a))) ;;
      store geom (with_attribs (<[i := Attrib None 0]> (attribs g)) g)
  end.

(** The body of [kuhl_geometry_delete] after its first loop: release
    what this node owns. *)
Definition release_node (geom : nat) : M unit :=
  do g <- load geom;
  for_each (seq 0 (attrib_count g)) (release_attrib geom) ;;
  modify geom (with_attrib_count 0) ;;
  do live <- gl (fun d => glIsBuffer d (indices_bufferobject g));
  when live (gl_do (glDeleteBuffers (indices_bufferobject g))) ;;
  modify geom (with_indices_bufferobject 0) ;;
  modify geom (with_indices_len 0) ;;
  do live <- gl (fun d => glIsVertexArray d (vao g));
  when live (gl_do (glDeleteVertexArrays (vao g))) ;;
  modify geom (with_vao 0) ;;
  modify geom (with_has_been_drawn 0).

(** [kuhl_geometry_delete(geom)].  [delete_while] is the loop
    [while(geom->next != NULL) kuhl_geometry_delete(geom->next);] at
    the head of the function: each round tests [geom->next] afresh.
    One unit of [fuel] is spent per call and per round of the loop. *)
Fixpoint kuhl_geometry_delete (fuel : nat) (geom : nat) : M unit :=
  match fuel with
  | O => out_of_fuel
  | S fuel' => delete_while fuel' geom ;; release_node geom
  end
with delete_while (fuel : nat) (geom : nat) : M unit :=
  match fuel with
  | O => out_of_fuel
  | S fuel' =>
      do g <- load geom;
      match next g with
      | Some n => kuhl_geometry_delete fuel' n ;; delete_while fuel' geom
      | None => ret tt
      end
  end.

End Functions.

(** *** Vocabulary for the statements about geometry objects *)

(** The world after one more line of output. *)
Definition say (m : message) (w : world) : world :=
  World (dev w) (heap w) (output w ++ [m]).

Definition index_warning : message :=
  Msg STDOUT "WARNING: indexCount was zero or indices array was NULL" [].

(** The lines that [kuhl_geometry_indices] prints for the indices
    [l], the first of which has position [i]: one per index that is not
    below [vertexCount]. *)
Fixpoint index_reports (vertexCount : nat) (i : nat) (l : list nat) : list message :=
  match l with
  | [] => []
  | v :: rest =>
      (if (vertexCount <=? v)%nat
       then [Msg STDERR "indices[i] is asking for a vertex that does not exist"
                 [Z.of_nat vertexCount; Z.of_nat i; Z.of_nat v]]
       else [])
      ++ index_reports vertexCount (S i) rest
  end.

(** [first] heads a null-terminated list whose nodes are [ps], in
    order. *)
Fixpoint chain (h : gmap nat kuhl_geometry) (first : option nat) (ps : list nat) : Prop :=
  match ps with
  | [] => first = None
  | p :: rest => first = Some p /\ exists g, h !! p = Some g /\ chain h (next g) rest
  end.

(** The geometry left at [p] by a successful [kuhl_geometry_attrib]:
    slot [k] holds the name and the new buffer [b], and [n] slots are in
    use. *)
Definition attrib_written (g : kuhl_geometry) (k : nat) (nm : string) (b : Z) (n : nat)
  : kuhl_geometry :=
  with_attribs (<[k := Attrib (Some nm) b]> (attribs g)) (with_attrib_count n g).

Definition texture_written (g : kuhl_geometry) (k : nat) (nm : string) (t : Z) (n : nat)
  : kuhl_geometry :=
  with_textures (<[k := Texture (Some nm) t]> (textures g)) (with_texture_count n g).

(** Every geometry of the heap uses no more slots than the arrays
    have. *)
Definition within_capacity (max_attributes max_textures : nat) (w : world) : Prop :=
  forall q g, heap w !! q = Some g ->
              (attrib_count g <= max_attributes)%nat
              /\ (texture_count g <= max_textures)%nat.

Definition has_texture_name (g : kuhl_geometry) (nm : string) : Prop :=
  exists k t, (k < texture_count g)%nat /\ textures g !! k = Some t
              /\ texture_name t = Some nm.

(** Every attribute slot in use has both a name and a buffer. *)
Definition slots_paired (g : kuhl_geometry) : Prop :=
  forall k a, (k < attrib_count g)%nat -> attribs g !! k = Some a ->
              is_set (attrib_name a) = true /\ bufferobject a <> 0.

(** The name is set and is an active attribute of the program. *)
Definition attrib_active (d : device) (prog : Z) (name : option string) : bool :=
  match name with
  | Some nm => negb (glGetAttribLocation d prog nm =? -1)
  | None => false
  end.

(** The four binding registers that [kuhl_geometry_draw] saves. *)
Definition saved_bindings (d : device) : Z * Z * Z * Z :=
  (current_program d, active_texture d, get_texture_binding_2d d, vertex_array_binding d).

(** The slots in use lie inside the arrays and every texture slot in
    use has a name. *)
Definition drawable (g : kuhl_geometry) : Prop :=
  (texture_count g <= length (textures g))%nat
  /\ (attrib_count g <= length (attribs g))%nat
  /\ forall i t, (i < texture_count g)%nat -> textures g !! i = Some t ->
                 is_set (texture_name t) = true.

(** The texture slots in use lie inside the array of [max_textures]
    slots and every one of them has a name. *)
Definition texture_slots_ok (max_textures : nat) (g : kuhl_geometry) : Prop :=
  (texture_count g <= max_textures)%nat
  /\ (max_textures <= length (textures g))%nat
  /\ forall i t, (i < texture_count g)%nat -> textures g !! i = Some t ->
                 is_set (texture_name t) = true.

(** The condition under which [kuhl_update_model] skips a geometry. *)
Definition not_animated (g : kuhl_geometry) : Prop :=
  assimp_scene g = None
  \/ (exists sc, assimp_scene g = Some sc /\ Assimp.mNumAnimations sc = 0%nat)
  \/ assimp_node g = None.

(** What the loop of [kuhl_geometry_delete] over the attribute slots
    leaves unchanged in the node. *)
Record same_links (g g' : kuhl_geometry) : Prop := SameLinks {
  sl_next : next g' = next g;
  sl_count : attrib_count g' = attrib_count g;
  sl_ibo : indices_bufferobject g' = indices_bufferobject g;
  sl_vao : vao g' = vao g;
  sl_textures : textures g' = textures g;
  sl_texture_count : texture_count g' = texture_count g;
  sl_program : program g' = program g;
  sl_length : length (attribs g') = length (attribs g) }.

(** How a geometry may change during [kuhl_geometry_texture] for the
    name [nm]: the number of attributes stays, the number of textures
    stays within the capacity, and stays the same when the name was
    already there. *)
Definition node_step (max_textures : nat) (nm : string) (g g' : kuhl_geometry) : Prop :=
  attrib_count g' = attrib_count g
  /\ ((texture_count g <= max_textures)%nat -> (texture_count g' <= max_textures)%nat)
  /\ (has_texture_name g nm ->
      texture_count g' = texture_count g /\ has_texture_name g' nm).

Definition heap_step (max_textures : nat) (nm : string) (h h' : gmap nat kuhl_geometry)
  : Prop :=
  forall q, option_Forall2 (node_step max_textures nm) (h !! q) (h' !! q).

(** A computation that always returns and leaves the heap alone. *)
Definition keeps_heap {A} (m : M A) : Prop :=
  forall w, exists a w', m w = Done a w' /\ heap w' = heap w.

(** Every binding register of the device: the four that
    [kuhl_geometry_draw] saves, the 2D texture bound to each texture
    unit, and the buffer bound to the array target. *)
Definition all_bindings (d : device) : Z * Z * Z * gmap Z Z * Z :=
  (current_program d, active_texture d, vertex_array_binding d, texture_binding_2d d,
   array_buffer_binding d).

End Geometry.

(** ** Skeletal animation *)

Module Animation.

Import VecMat Assimp Geometry.

(** [mat4f_from_aiMatrix4x4]: copy the 16 floats of the parser's
    row-major matrix and transpose them. *)
Definition mat4f_from_aiMatrix4x4 (src : list Q) : list Q := mat4f_transpose src.

(** The loop [for(j=0; j<n-1; j++) if(ticks < keys[j+1].mTime)
    { start = j; break; }] over [later], the keys after the first one;
    [j] is the index of the key before the head of [later].  When no key
    passes the test the variable keeps its initial value 0. *)
Fixpoint search_keys (later : list aiKey) (ticks : Q) (j : nat) : nat :=
  match later with
  | [] => 0
  | k :: rest => if Qltb ticks (mTime k) then j else search_keys rest ticks (S j)
  end.

(** With no key at all the unsigned bound [n-1] wraps around and the
    loop reads past the array ([None]). *)
Definition start_key (keys : list aiKey) (ticks : Q) : option nat :=
  match keys with
  | [] => None
  | _ :: later => Some (search_keys later ticks 0)
  end.

Definition end_key (keys : list aiKey) (start : nat) : nat :=
  if (length keys <=? start + 1)%nat then start else (start + 1)%nat.

(** [float deltaTime = keys[end].mTime - keys[start].mTime;] followed by
    [factor = (ticks - keys[start].mTime)/deltaTime] or [factor = 0].
    The key times and [ticks] are of type [double], so both expressions
    are computed in [double] and converted to [float]. *)
Definition key_factor (ks ke : aiKey) (ticks : Q) : Q :=
  let deltaTime := Float.to_float (Float.to_double (mTime ke - mTime ks)) in
  if negb (Qeq_bool deltaTime 0) then
    Float.to_float (Float.to_double (Float.to_double (ticks - mTime ks) / deltaTime))
  else 0%Q.

(** The pair of keys and the factor used for one of the three tracks. *)
Record bracket := Bracket {
  startKey : nat;
  endKey : nat;
  factor : Q;
  valStart : list Q;
  valEnd : list Q }.

Definition bracket_keys (keys : list aiKey) (ticks : Q) : option bracket :=
  match start_key keys ticks with
  | None => None
  | Some start =>
      let stop := end_key keys start in
      match keys !! start, keys !! stop with
      | Some ks, Some ke =>
          Some (Bracket start stop (key_factor ks ke ticks) (mValue ks) (mValue ke))
      | _, _ => None
      end
  end.

(** [start*(1-factor) + end*factor], with [1-factor] computed in
    [float]. *)
Definition lerp3 (b : bracket) : list Q :=
  vec3f_add_new (vec3f_scalarMult (valStart b) (Float.to_float (1 - factor b)))
                (vec3f_scalarMult (valEnd b) (factor b)).

Section Interpolation.

(** Modelled from the spec: spherical interpolation of two quaternions
    and the rotation matrix of a quaternion belong to the external
    linear-algebra library; they are parameters here. *)
Variable quatf_slerp_new : list Q -> list Q -> Q -> list Q.
Variable mat4f_rotateQuatVec_new : list Q -> list Q.

(** [kuhl_private_anim_matrix(transformResult, na, ticks)] *)
Definition kuhl_private_anim_matrix (na : aiNodeAnim) (ticks : Q) : option (list Q) :=
  match bracket_keys (mPositionKeys na) ticks,
        bracket_keys (mRotationKeys na) ticks,
        bracket_keys (mScalingKeys na) ticks with
  | Some bp, Some br, Some bs =>
      let positionMatrix := mat4f_translateVec_new (lerp3 bp) in
      let rotationMatrix :=
        mat4f_rotateQuatVec_new (quatf_slerp_new (valStart br) (valEnd br) (factor br)) in
      let scalingMatrix := mat4f_scaleVec_new (lerp3 bs) in
      Some (mat4f_mult_mat4f_new (mat4f_mult_mat4f_new positionMatrix rotationMatrix)
                                 scalingMatrix)
  | _, _, _ => None
  end.

(** [kuhl_private_node_matrix(transformResult, scene, node,
    animationNum, t)]: the matrix written to [transformResult] and the
    returned [int]. *)
Definition kuhl_private_node_matrix (scene : aiScene) (node : aiNode)
    (animationNum : nat) (t : Q) : option (list Q * Z) :=
  let transformResult := mat4f_from_aiMatrix4x4 (mTransformation node) in
  if (mNumAnimations scene <=? animationNum)%nat || Qltb t 0 then
    Some (transformResult, 0)
  else
    match mAnimations scene !! animationNum with
    | None => None
    | Some anim =>
        let currentTick := Float.to_double (t * mTicksPerSecond anim) in
        if Qltb (mDuration anim) currentTick then Some (transformResult, 0)
        else
          match List.find (fun na => String.eqb (mNodeName na) (mName node))
                          (mChannels anim) with
          | Some na =>
              match kuhl_private_anim_matrix na currentTick with
              | Some m => Some (m, 1)
              | None => None
              end
          | None => Some (transformResult, 0)
          end
    end.

(** [kuhl_assimp_find_node(nodeName, node)]: the path from [node] to
    the first match in depth-first order. *)
Fixpoint kuhl_assimp_find_node (nodeName : string) (node : aiNode) : option node_ptr :=
  if String.eqb (mName node) nodeName then Some []
  else
    (fix children (l : list aiNode) (i : nat) : option node_ptr :=
       match l with
       | [] => None
       | child :: rest =>
           match kuhl_assimp_find_node nodeName child with
           | Some found => Some (i :: found)
           | None => children rest (S i)
           end
       end) (mChildren node) 0%nat.

(** The loop [do { ... node = node->mParent; } while(node != NULL);]
    that multiplies the matrices of a node and of all its ancestors
    onto [acc].  [steps] bounds the number of further rounds; the
    length of the path is always enough. *)
Fixpoint walk_up (steps : nat) (scene : aiScene) (node : node_ptr)
    (animationNum : nat) (t : Q) (acc : list Q) : option (list Q) :=
  match node_at (mRootNode scene) node with
  | None => None
  | Some nd =>
      match kuhl_private_node_matrix scene nd animationNum t with
      | None => None
      | Some (transform, _) =>
          let acc' := mat4f_mult_mat4f_new transform acc in
          match mParent node, steps with
          | None, _ => Some acc'
          | Some parent, S steps' => walk_up steps' scene parent animationNum t acc'
          | Some _, O => None
          end
      end
  end.

(** One round of the loop over the bones of a geometry. *)
Definition update_bone (p : nat) (scene : aiScene) (animationNum : nat) (t : Q)
    (b : nat) : M unit :=
  do g <- load p;
  match bones g with
  | None => undefined
  | Some bm =>
      match boneList bm !! b with
      | None => undefined
      | Some bone =>
          match kuhl_assimp_find_node (bone_mName bone) (mRootNode scene) with
          | None =>
              msg ERROR "Failed to find node that corresponded to bone" [] ;;
              exit_failure
          | Some node =>
              match walk_up (length node) scene node animationNum t mat4f_identity,
                    matrices bm !! b with
              | Some m, Some _ =>
                  let offset := mat4f_from_aiMatrix4x4 (mOffsetMatrix bone) in
                  store p (with_bones
                             (Some (BoneMat (count bm) (mesh bm) (boneList bm)
                                      (<[b := mat4f_mult_mat4f_new m offset]>
                                         (matrices bm))))
                             g)
              | _, _ => undefined
              end
          end
      end
  end.

(** The body of the loop of [kuhl_update_model] for the geometry at
    [p]. *)
Definition update_geometry (p : nat) (animationNum : nat) (t : Q) : M unit :=
  do g <- load p;
  match assimp_scene g with
  | None => ret tt
  | Some scene =>
      if (mNumAnimations scene =? 0)%nat then ret tt
      else
        match assimp_node g with
        | None => ret tt
        | Some node =>
            match bones g with
            | None =>
                match walk_up (length node) scene node animationNum t mat4f_identity with
                | Some m => store p (with_matrix m g)
                | None => undefined
                end
            | Some bm =>
                for_each (seq 0 (count bm))
                         (update_bone p scene animationNum t)
            end
        end
  end.

(** [kuhl_update_model(first_geom, animationNum, time)]; [fuel] bounds
    the number of geometries visited. *)
Fixpoint kuhl_update_model (fuel : nat) (first_geom : option nat)
    (animationNum : nat) (time : Q) : M unit :=
  match fuel with
  | O => out_of_fuel
  | S fuel' =>
      match first_geom with
      | None => ret tt
      | Some p =>
          update_geometry p animationNum time ;;
          do g <- load p;
          kuhl_update_model fuel' (next g) animationNum time
      end
  end.

End Interpolation.

End Animation.

(** ** Import of bone weights *)

Module Loader.

Import Assimp Geometry.

(** A store into a heap array of floats; [None] when the index lies
    outside the allocation. *)
Definition write_cell (arr : list Q) (i : nat) (v : Q) : option (list Q) :=
  if (i <? length arr)%nat then Some (<[i := v]> arr) else None.

(** [(float) j] for the number [j] of a bone. *)
Definition bone_index (j : nat) : Q := Float.to_float (inject_Z (Z.of_nat j)).

(** The arrays [indices] and [weights] and the counter [count]. *)
Definition fill_state : Type := list Q * list Q * nat.

(** The innermost body: weight entry [vw] of bone [j], while vertex [i]
    is processed. *)
Definition scan_weight (i j : nat) (st : option fill_state) (vw : aiVertexWeight)
  : option fill_state :=
  match st with
  | None => None
  | Some (ind, wts, count) =>
      if (mVertexId vw =? i)%nat then
        match write_cell ind (i * 4 + count) (bone_index j),
              write_cell wts (i * 4 + count) (mWeight vw) with
        | Some ind', Some wts' => Some (ind', wts', S count)
        | _, _ => None
        end
      else st
  end.

Definition scan_bone (i : nat) (st : option fill_state) (jb : nat * aiBone)
  : option fill_state :=
  fold_left (scan_weight i (fst jb)) (mWeights (snd jb)) st.

(** [for(int j=0; j<4; j++) { indices[i*4+j] = 0; weights[i*4+j] = 0; }] *)
Definition zero_vertex (i : nat) (arr : option (list Q)) : option (list Q) :=
  fold_left (fun a j => match a with
                        | Some l => write_cell l (i * 4 + j) 0%Q
                        | None => None
                        end)
            (seq 0 4) arr.

(** The body of the loop over the vertices. *)
Definition fill_vertex (mBones : list aiBone) (st : option (list Q * list Q)) (i : nat)
  : option (list Q * list Q) :=
  match st with
  | None => None
  | Some (ind, wts) =>
      match zero_vertex i (Some ind), zero_vertex i (Some wts) with
      | Some ind0, Some wts0 =>
          match fold_left (scan_bone i) (imap pair mBones) (Some (ind0, wts0, 0%nat)) with
          | Some (ind', wts', _) => Some (ind', wts')
          | None => None
          end
      | _, _ => None
      end
  end.

(** Both arrays hold [4 * mNumVertices] floats.  Whatever the fresh
    allocations contain is overwritten before it is read, so they start
    here as zeros. *)
Definition fill_bone_arrays (mNumVertices : nat) (mBones : list aiBone)
  : option (list Q * list Q) :=
  fold_left (fill_vertex mBones) (seq 0 mNumVertices)
            (Some (replicate (mNumVertices * 4) 0%Q, replicate (mNumVertices * 4) 0%Q)).



Section BoneWeights.

Variables MAX_ATTRIBUTES MAX_BONES : nat.

(** The block "Fill in bone information" of [kuhl_private_load_model]
    for a mesh with [mNumVertices] vertices and bone array [mBones]
    ([None] is a null [mBones]); [geom] is the geometry being built. *)
Definition kuhl_private_load_model_bones (geom : nat) (mNumVertices : nat)
    (mBones : option (list aiBone)) : M unit :=
  match mBones with
  | None => ret tt
  | Some bones_ =>
      if (0 <? length bones_)%nat then
        if (MAX_BONES <? length bones_)%nat then
          msg STDOUT "This mesh has more bones than we support"
              [Z.of_nat (length bones_); Z.of_nat MAX_BONES] ;;
          exit_failure
        else
          match fill_bone_arrays mNumVertices bones_ with
          | None => undefined
          | Some (indices_, weights) =>
              for_each (seq 0 mNumVertices) (fun i =>
                when (Qeq_bool (VecMat.mat_get weights (i * 4)) 0)
                     (msg STDERR "ERROR Every vertex should have at least one weight"
                          [Z.of_nat i] ;;
                      exit_failure)) ;;
              kuhl_geometry_attrib MAX_ATTRIBUTES (Some geom) (Some indices_) 4
                                   (Some "in_BoneIndex") 0 ;;
              kuhl_geometry_attrib MAX_ATTRIBUTES (Some geom) (Some weights) 4
                                   (Some "in_BoneWeight") 0
          end
      else ret tt
  end.

End BoneWeights.

End Loader.

(** ** Concrete inputs used in the statements below *)

Module Examples.

Import Assimp Device Geometry.

(** A program with one attribute and one sampler, and a device on which
    it is linked; vertex arrays 1 and 2 and texture 9 exist. *)
Definition shader : program_info :=
  ProgramInfo {[ "in_Position" := 0 ]} {[ "tex" := 3 ]}.

Definition plain_device : device :=
  Dev {[ 7 := shader ]} ∅ ∅ {[ 1; 2 ]} {[ 9 ]} 0 GL_TEXTURE0 ∅ 0 0 [].

Definition empty_attrib : kuhl_attrib := Attrib None 0.
Definition empty_texture : kuhl_texture := Texture None 0.

(** A freshly created triangle geometry with room for two attributes
    and two textures. *)
Definition fresh_geometry (v : Z) (nxt : option nat) : kuhl_geometry :=
  Geom v 7 3 GL_TRIANGLES (replicate 2 empty_attrib) 0 (replicate 2 empty_texture) 0
       None 0 0 VecMat.mat4f_identity 0 None None None nxt.

Definition one_node : world :=
  World plain_device {[ 0%nat := fresh_geometry 1 None ]} [].

(** A list of two geometries: node 0, then node 1. *)
Definition two_nodes : world :=
  World plain_device
        {[ 0%nat := fresh_geometry 1 (Some 1%nat); 1%nat := fresh_geometry 2 None ]} [].

(** A geometry whose two attribute slots are both taken. *)
Definition full_geometry : kuhl_geometry :=
  Geom 1 7 3 GL_TRIANGLES [Attrib (Some "in_Normal") 4; Attrib (Some "in_Color") 5] 2
       [Texture (Some "a") 9; Texture (Some "b") 9] 2
       None 0 0 VecMat.mat4f_identity 0 None None None None.

Definition full_node : world :=
  World plain_device {[ 0%nat := full_geometry ]} [].

(** A geometry with one attribute (buffer 6) and the texture 9 bound to
    the sampler "tex", on a device where buffer 5 is bound to the array
    target, texture unit 1 is active and texture 8 is bound to unit 0. *)
Definition textured_geometry : kuhl_geometry :=
  Geom 1 7 3 GL_TRIANGLES [Attrib (Some "in_Position") 6; empty_attrib] 1
       [Texture (Some "tex") 9; empty_texture] 1
       None 0 0 VecMat.mat4f_identity 0 None None None None.

Definition busy_device : device :=
  Dev {[ 7 := shader ]} {[ 5; 6 ]} ∅ {[ 1 ]} {[ 8; 9 ]}
      0 (GL_TEXTURE0 + 1) {[ GL_TEXTURE0 := 8 ]} 0 5 [].

Definition busy_world : world :=
  World busy_device {[ 0%nat := textured_geometry ]} [].

(** Three position keys: the node moves during the first tick and rests
    during the second. *)
Definition keys_move_then_rest : list aiKey :=
  [ Key 0 [0; 0; 0]%Q; Key 1 [10; 0; 0]%Q; Key 2 [10; 0; 0]%Q ].

(** Five bones that each influence vertex 0 with weight 1/5. *)
Definition five_bones : list aiBone :=
  map (fun _ : nat => Bone "joint" [VertexWeight 0 (1 # 5)] VecMat.mat4f_identity)
      (seq 0 5).


(** The same five bones, the first of which also influences vertex 1. *)
Definition five_bones_two_vertices : list aiBone :=
  Bone "joint" [VertexWeight 0 (1 # 5); VertexWeight 1 1] VecMat.mat4f_identity
  :: map (fun _ : nat => Bone "joint" [VertexWeight 0 (1 # 5)] VecMat.mat4f_identity)
         (seq 0 4).

Definition first_of (a b : list Q) (f : Q) : list Q := a.
Definition no_rotation (q : list Q) : list Q := VecMat.mat4f_identity.

Definition still_node : aiNode := Node "root" VecMat.mat4f_identity [].

Definition one_animation : aiScene :=
  Scene still_node
        [Animation 2 1 [NodeAnim "root" keys_move_then_rest
                                 [Key 0 [0; 0; 0; 1]%Q] [Key 0 [1; 1; 1]%Q]]].

(** An animation of one tick that runs at 0.1 ticks per second, the
    number of binary64 nearest to 1/10. *)
Definition slow_animation : aiScene :=
  Scene still_node
        [Animation 1 (3602879701896397 # 36028797018963968)
                   [NodeAnim "root" keys_move_then_rest
                             [Key 0 [0; 0; 0; 1]%Q] [Key 0 [1; 1; 1]%Q]]].

(** A geometry imported from a scene without animations. *)
Definition static_geometry : kuhl_geometry :=
  Geom 1 7 3 GL_TRIANGLES (replicate 2 empty_attrib) 0 (replicate 2 empty_texture) 0
       None 0 0 VecMat.mat4f_identity 0 (Some []) (Some (Scene still_node [])) None None.

Definition static_world : world :=
  World plain_device {[ 0%nat := static_geometry ]} [].

(** A geometry of the animated scene, attached to its root node and
    followed in the list by the static geometry. *)
Definition animated_geometry : kuhl_geometry :=
  Geom 2 7 3 GL_TRIANGLES (replicate 2 empty_attrib) 0 (replicate 2 empty_texture) 0
       None 0 0 VecMat.mat4f_identity 0 (Some []) (Some one_animation) None (Some 1%nat).

Definition mixed_world : world :=
  World plain_device {[ 0%nat := animated_geometry; 1%nat := static_geometry ]} [].

End Examples.

(** ** Lists of geometries *)

Module GeometryList.

Import Device Geometry.

Definition with_next (n : option nat) (g : kuhl_geometry) : kuhl_geometry :=
  Geom (vao g) (program g) (vertex_count g) (primitive_type g) (attribs g) (attrib_count g)
       (textures g) (texture_count g) (indices g) (indices_len g)
       (indices_bufferobject g) (matrix g) (has_been_drawn g) (assimp_node g)
       (assimp_scene g) (bones g) n.

(** [count++] on an [unsigned int]. *)
Definition UINT_MAX : Z := 4294967295.

Definition incr (count : Z) : Z := (count + 1) mod (UINT_MAX + 1).

(** The loop [while(g->next != NULL) { count++; g = g->next; }] of
    [kuhl_geometry_count]; one unit of [fuel] is spent per test of the
    loop condition. *)
Fixpoint count_loop (fuel : nat) (g : nat) (count : Z) : M Z :=
  match fuel with
  | O => out_of_fuel
  | S fuel' =>
      do node <- load g;
      match next node with
      | Some n => count_loop fuel' n (incr count)
      | None => ret count
      end
  end.

(** [kuhl_geometry_count(geom)] *)
Definition kuhl_geometry_count (fuel : nat) (geom : option nat) : M Z :=
  match geom with
  | None => ret 0
  | Some g => count_loop fuel g 1
  end.

(** The loop [while(a->next != NULL) a = a->next;] of
    [kuhl_geometry_append]: the last node of the list that starts at
    [a]. *)
Fixpoint last_node (fuel : nat) (a : nat) : M nat :=
  match fuel with
  | O => out_of_fuel
  | S fuel' =>
      do node <- load a;
      match next node with
      | Some n => last_node fuel' n
      | None => ret a
      end
  end.

(** [kuhl_geometry_append(a, b)] *)
Definition kuhl_geometry_append (fuel : nat) (a b : option nat) : M (option nat) :=
  match a, b with
  | None, None => ret None
  | None, Some _ => ret b
  | Some _, None => ret a
  | Some origA, Some _ =>
      do l <- last_node fuel origA;
      modify l (with_next b) ;;
      ret (Some origA)
  end.

(** The pointer to the first node of a list of nodes. *)
Definition head_ptr (ps : list nat) : option nat :=
  match ps with
  | [] => None
  | p :: _ => Some p
  end.

End GeometryList.

(** ** Further device calls *)

Module DeviceData.

Import Device.

(** Modelled from the spec: two more calls of the external device API.
    [glGetBufferParameteriv(GL_ARRAY_BUFFER, GL_BUFFER_SIZE)] reports the
    size of the data store of the buffer bound to the array target, which
    is what the last [glBufferData] for that buffer uploaded;
    [buffer_floats] is that size divided by [sizeof(GLfloat)]. *)
Definition buffer_floats (d : device) (b : Z) : nat :=
  fold_left (fun (n : nat) (c : command) =>
               match c with
               | BufferDataFloats b' data => if b' =? b then length data else n
               | _ => n
               end)
            (commands d) 0%nat.

(** [glMapBuffer(GL_ARRAY_BUFFER, GL_READ_WRITE)] maps the data store of
    the buffer bound to the array target; with no buffer bound it fails
    and maps nothing. *)
Definition glMapBuffer_array (d : device) : device :=
  if array_buffer_binding d =? 0 then d
  else set_mapped_buffers (fun s => {[array_buffer_binding d]} ∪ s) d.

(** [glGetBufferPointerv(GL_ARRAY_BUFFER, GL_BUFFER_MAP_POINTER)] and the
    value returned by [glMapBuffer]: a pointer to the mapped data store
    of the bound buffer, named here by that buffer; [None] is [NULL]. *)
Definition map_pointer (d : device) : option Z :=
  if is_mapped d (array_buffer_binding d) then Some (array_buffer_binding d) else None.

(** The device calls at the end of [kuhl_geometry_attrib], which upload
    [data] into the new buffer [b] for the attribute at location [loc]
    of the vertex array [v]. *)
Definition attrib_upload (v loc b : Z) (data : list Q) (components : nat) (d : device)
  : device :=
  glBindVertexArray 0
    (glBindBuffer_array 0
       (glVertexAttribPointer loc components
          (issue (BufferDataFloats b data)
             (glBindBuffer_array b
                (issue (EnableVertexAttribArray loc) (glBindVertexArray v d)))))).

End DeviceData.

(** ** Reading attribute data back *)

Module AttribData.

Import Device DeviceData Geometry.

(** [kuhl_geometry_attrib_get(geom, name, size)].  [size] says whether
    the pointer [size] is non-null.  The result is the returned pointer,
    named by the buffer whose data store it points into ([None] is
    [NULL]), and the value left in [*size]. *)
Definition kuhl_geometry_attrib_get (geom : option nat) (name : option string)
    (size : bool) : M (option Z * Z) :=
  match geom, name, size with
  | Some p, Some nm, true =>
      do index <- kuhl_geometry_attrib_index (Some p) (Some nm);
      if index <? 0 then ret (None, 0)
      else
        do g <- load p;
        match attribs g !! Z.to_nat index with
        | None => undefined
        | Some attrib =>
            do isBuffer <- gl (fun d => glIsBuffer d (bufferobject attrib));
            do isVertexArray <- gl (fun d => glIsVertexArray d (vao g));
            if negb isBuffer || negb isVertexArray then ret (None, 0)
            else
              (* bind the VAO and the buffer we are interested in *)
              gl_do (glBindVertexArray (vao g)) ;;
              gl_do (glBindBuffer_array (bufferobject attrib)) ;;
              do bufferNumFloats <- gl (fun d => buffer_floats d (array_buffer_binding d));
              do mapped <- gl map_pointer;
              when (negb (is_set mapped)) (gl_do glMapBuffer_array) ;;
              do ret_ <- gl map_pointer;
              match ret_ with
              | None => ret (None, 0)
              | Some ptr =>
                  (* unbind *)
                  gl_do (glBindBuffer_array 0) ;;
                  gl_do (glBindVertexArray 0) ;;
                  ret (Some ptr, Z.of_nat bufferNumFloats)
              end
        end
  | _, _, _ => ret (None, 0)
  end.

(** A computation that maps no buffer: whenever it returns, the buffers
    that are mapped were mapped before. *)
Definition maps_nothing {A} (m : M A) : Prop :=
  forall w a w', m w = Done a w' -> mapped_buffers (dev w') ⊆ mapped_buffers (dev w).

End AttribData.

(** ** Changing the program of a geometry *)

Module Programs.

Import Device DeviceData Geometry.

Definition with_program (prog : Z) (g : kuhl_geometry) : kuhl_geometry :=
  Geom (vao g) prog (vertex_count g) (primitive_type g) (attribs g) (attrib_count g)
       (textures g) (texture_count g) (indices g) (indices_len g)
       (indices_bufferobject g) (matrix g) (has_been_drawn g) (assimp_node g)
       (assimp_scene g) (bones g) (next g).

Section Program.

(** The option bit of [kuhl-util.h]. *)
Variable KG_FULL_LIST : Z.

(** Modelled from the spec: [glGetProgramiv(program, GL_LINK_STATUS)] of
    the external device API; the table of programs does not record it,
    so the query is a parameter. *)
Variable link_status : device -> Z -> bool.

(** [kuhl_get_attribute(program, attributeName)].  With a null name the
    function prints its first message and goes on to pass the null
    pointer to a [%s] conversion or to [glGetAttribLocation], neither of
    which is defined. *)
Definition kuhl_get_attribute (prog : Z) (attributeName : option string) : M Z :=
  match attributeName with
  | None =>
      msg ERROR "You asked for the location of an attribute name, but your name was an empty string or a NULL pointer."
          [prog] ;;
      undefined
  | Some nm =>
      when (String.eqb nm EmptyString)
           (msg ERROR "You asked for the location of an attribute name, but your name was an empty string or a NULL pointer."
                [prog]) ;;
      do valid <- gl (fun d => glIsProgram d prog);
      if negb valid then
        msg FATAL "Cannot get attribute because the program is not a valid GLSL program."
            [prog] ;;
        exit_failure
      else
        do linkStatus <- gl (fun d => link_status d prog);
        when (negb linkStatus)
             (msg ERROR "Cannot get attribute because the program is not linked." [prog]) ;;
        do loc <- gl (fun d => glGetAttribLocation d prog nm);
        when (loc =? -1)
             (msg ERROR "Cannot get attribute because it is missing or inactive." [prog]) ;;
        ret loc
  end.

(** One round of the loop of [kuhl_geometry_program] over the attribute
    slots of [g].  [bufferNumFloats / geom->vertex_count] is a division
    by zero for a geometry without vertices. *)
Definition program_attrib (g : kuhl_geometry) (i : nat) : M unit :=
  match attribs g !! i with
  | None => undefined
  | Some attrib =>
      gl_do (glBindBuffer_array (bufferobject attrib)) ;;
      do attribLocation <- kuhl_get_attribute (program g) (attrib_name attrib);
      gl_do (issue (EnableVertexAttribArray attribLocation)) ;;
      do bufferNumFloats <- gl (fun d => buffer_floats d (array_buffer_binding d));
      if (vertex_count g =? 0)%nat then undefined
      else
        (* connect this vertex attribute with the (possibly different)
           attribute location *)
        gl_do (glVertexAttribPointer attribLocation (bufferNumFloats / vertex_count g))
  end.

(** [kuhl_geometry_program(geom, program, kg_options)]; [fuel] bounds
    the depth of the recursion along [next]. *)
Fixpoint kuhl_geometry_program (fuel : nat) (geom : option nat) (prog : Z)
    (kg_options : Z) : M unit :=
  match fuel with
  | O => out_of_fuel
  | S fuel' =>
      match geom with
      | None => ret tt
      | Some p =>
          (if negb (Z.land kg_options KG_FULL_LIST =? 0) then
             do g0 <- load p;
             kuhl_geometry_program fuel' (next g0) prog kg_options
           else ret tt) ;;
          do valid <- gl (fun d => glIsProgram d prog);
          when (negb valid) (msg WARNING "GLSL program is not a valid program." [prog]) ;;
          modify p (with_program prog) ;;
          do g <- load p;
          gl_do (glBindVertexArray (vao g)) ;;
          for_each (seq 0 (attrib_count g)) (program_attrib g) ;;
          gl_do (glBindBuffer_array 0) ;;
          gl_do (glBindVertexArray 0)
      end
  end.

End Program.

(** The slots in use lie inside the array and carry a name, and the
    geometry has a vertex unless it has no attribute. *)
Definition attribs_named (g : kuhl_geometry) : Prop :=
  (attrib_count g <= length (attribs g))%nat
  /\ (forall k a, (k < attrib_count g)%nat -> attribs g !! k = Some a ->
                  is_set (attrib_name a) = true)
  /\ (vertex_count g = 0%nat -> attrib_count g = 0%nat).

(** The two commands that one round of the loop of
    [kuhl_geometry_program] issues for the slot [a] of [g] on the device
    [d]: the attribute of the name of [a] is enabled and pointed, in the
    vertex array of [g], at the buffer of [a]. *)
Definition rebind_commands (d : device) (g : kuhl_geometry) (a : kuhl_attrib)
  : list command :=
  match attrib_name a with
  | Some nm =>
      [EnableVertexAttribArray (glGetAttribLocation d (program g) nm);
       VertexAttribPointer (vao g) (bufferobject a)
                           (glGetAttribLocation d (program g) nm)
                           (buffer_floats d (bufferobject a) / vertex_count g)]
  | None => []
  end.

End Programs.

(** ** The draw commands of a list of geometries *)

Module DrawCalls.

Import Device Geometry.

Definition is_draw (c : command) : bool :=
  match c with
  | DrawElements _ _ | DrawArrays _ _ _ => true
  | _ => false
  end.

(** The draw commands issued so far, in order. *)
Definition draw_calls (d : device) : list command := List.filter is_draw (commands d).

(** The draw command for a geometry: indexed when indices are
    attached, over all vertices otherwise. *)
Definition draw_call_of (g : kuhl_geometry) : command :=
  if (0 <? indices_len g)%nat then DrawElements (primitive_type g) (indices_len g)
  else DrawArrays (primitive_type g) 0 (vertex_count g).

(** From [d] to [d'] no program changed, no vertex array and no buffer
    was deleted, and nothing was drawn. *)
Definition quiet_step (d d' : device) : Prop :=
  programs d' = programs d
  /\ vertex_arrays d ⊆ vertex_arrays d'
  /\ buffers d ⊆ buffers d'
  /\ draw_calls d' = draw_calls d.

Definition quiet {A} (m : M A) : Prop :=
  forall w a w', m w = Done a w' -> quiet_step (dev w) (dev w').

(** A geometry that [kuhl_geometry_draw] can draw on the device [d]:
    its slots are well formed, its program and vertex array are valid,
    and the index buffer is live when indices are attached. *)
Definition ready (d : device) (g : kuhl_geometry) : Prop :=
  drawable g
  /\ glIsProgram d (program g) = true
  /\ glIsVertexArray d (vao g) = true
  /\ (indices_len g = 0%nat \/ glIsBuffer d (indices_bufferobject g) = true).

(** The world [w1] at a point of [kuhl_geometry_draw] that started on
    the device [d0]: the heap is [h], no program changed, no vertex
    array and no buffer was deleted, and the draw commands issued so
    far are [cs]. *)
Definition drawing (h : gmap nat kuhl_geometry) (d0 : device) (cs : list command)
    (w1 : world) : Prop :=
  heap w1 = h
  /\ programs (dev w1) = programs d0
  /\ vertex_arrays d0 ⊆ vertex_arrays (dev w1)
  /\ buffers d0 ⊆ buffers (dev w1)
  /\ draw_calls (dev w1) = cs.

End DrawCalls.

(** ** Import of the primitive type and of the faces of a mesh *)

Module MeshImport.

Import Assimp Device Geometry.

(** An [unsigned int] result: the value modulo 2^32. *)
Definition u32 (n : nat) : nat := Z.to_nat (Z.of_nat n mod 4294967296).

Section Primitive.

(** Modelled from the spec: the bits of [aiPrimitiveType] belong to the
    scene parser's headers; they are parameters here. *)
Variables aiPrimitiveType_POINT aiPrimitiveType_LINE : Z.
Variables aiPrimitiveType_TRIANGLE aiPrimitiveType_POLYGON : Z.

(** The checks of [kuhl_private_load_model] on [mesh->mPrimitiveTypes]:
    [None] stands for [continue] (the mesh is skipped), otherwise the
    result is the pair of [meshPrimitiveType] and
    [meshPrimitiveTypeGL]. *)
Definition mesh_primitive (mPrimitiveTypes : Z) : M (option (nat * Z)) :=
  if mPrimitiveTypes =? 0 then
    msg STDOUT "ERROR: Primitive type not set by ASSIMP in mesh." [] ;;
    ret None
  else if negb (Z.land mPrimitiveTypes (mPrimitiveTypes - 1) =? 0) then
    (* more than one bit (i.e., primitive type) is in this mesh *)
    msg STDOUT "ERROR: This mesh has more than one primitive type in it." [] ;;
    ret None
  else if negb (Z.land mPrimitiveTypes aiPrimitiveType_POINT =? 0) then
    ret (Some (1%nat, GL_POINTS))
  else if negb (Z.land mPrimitiveTypes aiPrimitiveType_LINE =? 0) then
    ret (Some (2%nat, GL_LINES))
  else if negb (Z.land mPrimitiveTypes aiPrimitiveType_TRIANGLE =? 0) then
    ret (Some (3%nat, GL_TRIANGLES))
  else if negb (Z.land mPrimitiveTypes aiPrimitiveType_POLYGON =? 0) then
    msg WARNING "We only support drawing triangle, line, or point meshes." [] ;;
    ret None
  else
    msg ERROR "Unknown primitive type in mesh." [] ;;
    ret None.

End Primitive.

(** A store into the heap array [indices]; [None] when the index lies
    outside the allocation. *)
Definition write_index (arr : list nat) (i : nat) (v : nat) : option (list nat) :=
  if (i <? length arr)%nat then Some (<[i := v]> arr) else None.

(** The inner loop [for(x = 0; x < meshPrimitiveType; x++)
    indices[t*meshPrimitiveType+x] = face->mIndices[x];] for face [t]
    with index array [mIndices]; reading past the indices of the face
    is undefined. *)
Definition fill_face (meshPrimitiveType : nat) (st : option (list nat))
    (tf : nat * list nat) : option (list nat) :=
  fold_left (fun (st : option (list nat)) (x : nat) =>
               match st with
               | None => None
               | Some arr =>
                   match snd tf !! x with
                   | None => None
                   | Some v => write_index arr (u32 (fst tf * meshPrimitiveType + x)) v
                   end
               end)
            (seq 0 meshPrimitiveType) st.

(** The block "Get indices to draw with" of [kuhl_private_load_model]
    for the faces [mFaces] of a mesh, each given by its array of
    indices; [geom] is the geometry being built.  The fresh allocation
    is overwritten before it is read, so it starts here as zeros. *)
Definition kuhl_private_load_model_indices (geom : nat) (mFaces : list (list nat))
    (meshPrimitiveType : nat) : M unit :=
  if (0 <? length mFaces)%nat then
    let numIndices := u32 (length mFaces * meshPrimitiveType) in
    match fold_left (fill_face meshPrimitiveType) (imap pair mFaces)
                    (Some (replicate numIndices 0%nat)) with
    | None => undefined
    | Some indices_ => kuhl_geometry_indices geom (Some indices_) numIndices
    end
  else ret tt.

End MeshImport.

(** ** Further concrete inputs *)

Module MoreExamples.

Import Assimp Device Geometry Examples.

(** Two geometries that are each a list of their own. *)
Definition two_lists : world :=
  World plain_device
        {[ 0%nat := fresh_geometry 1 None; 1%nat := fresh_geometry 2 None ]} [].

(** The list of node 0 and node 1, and node 2 on its own. *)
Definition three_nodes : world :=
  World plain_device
        {[ 0%nat := fresh_geometry 1 (Some 1%nat); 1%nat := fresh_geometry 2 None;
           2%nat := fresh_geometry 2 None ]} [].

(** The coordinates of three vertices. *)
Definition nine_floats : list Q := [0; 0; 0;  1; 0; 0;  1; 1; 0]%Q.

(** The geometry of [textured_geometry], whose position attribute
    lives in buffer 6, on a device where buffers 5 and 6 exist. *)
Definition positioned_device : device :=
  Dev {[ 7 := shader ]} {[ 5; 6 ]} ∅ {[ 1 ]} {[ 8; 9 ]} 0 GL_TEXTURE0 ∅ 0 0
      [BufferDataFloats 6 nine_floats].

Definition positioned_node : world :=
  World positioned_device {[ 0%nat := textured_geometry ]} [].

(** The same geometry while its position buffer is mapped. *)
Definition mapped_device : device :=
  Dev {[ 7 := shader ]} {[ 5; 6 ]} {[ 6 ]} {[ 1 ]} {[ 8; 9 ]} 0 GL_TEXTURE0 ∅ 0 0
      [BufferDataFloats 6 nine_floats].

Definition mapped_node : world :=
  World mapped_device {[ 0%nat := textured_geometry ]} [].

(** The list of [two_nodes] on a device that has a second program. *)
Definition two_programs : world :=
  World (Dev {[ 7 := shader; 8 := shader ]} ∅ ∅ {[ 1; 2 ]} {[ 9 ]} 0 GL_TEXTURE0 ∅ 0 0 [])
        {[ 0%nat := fresh_geometry 1 (Some 1%nat); 1%nat := fresh_geometry 2 None ]} [].

(** The list of [two_nodes] after the program of its first geometry
    was replaced by the unknown program 8. *)
Definition stale_program : world :=
  World plain_device
        {[ 0%nat := Programs.with_program 8 (fresh_geometry 1 (Some 1%nat));
           1%nat := fresh_geometry 2 None ]} [].

End MoreExamples.

(** * Proofs *)

Import VecMat Assimp Device Geometry.

#[local] Set Warnings "-clear-no-such-hyp".

(** ** Running the monad symbolically *)

Ltac run :=
  repeat (progress (unfold modify, when, bind, gl_do, gl, load, store, ret, msg,
                      exit_failure, undefined, out_of_fuel in * ));
  repeat (progress (cbn [dev heap output negb andb orb] in *;
                    rewrite ?lookup_insert_eq in * )).

Lemma bind_Done_inv {A B} (m : M A) (k : A -> M B) (w : world) (b : B) (w' : world) :
  bind m k w = Done b w' -> exists a w1, m w = Done a w1 /\ k a w1 = Done b w'.
Proof.
  unfold bind. destruct (m w) as [a w1| | |]; try discriminate. eauto.
Qed.

Lemma bind_Done {A B} (m : M A) (k : A -> M B) (w : world) (a : A) (w1 : world) :
  m w = Done a w1 -> bind m k w = k a w1.
Proof. unfold bind. intros ->. reflexivity. Qed.

Lemma glIsBuffer_true (d : device) (b : Z) : glIsBuffer d b = true <-> b ∈ buffers d.
Proof. unfold glIsBuffer. apply bool_decide_eq_true. Qed.

Lemma glIsBuffer_false (d : device) (b : Z) : glIsBuffer d b = false <-> b ∉ buffers d.
Proof. unfold glIsBuffer. apply bool_decide_eq_false. Qed.

Lemma glIsVertexArray_true (d : device) (v : Z) :
  glIsVertexArray d v = true <-> v ∈ vertex_arrays d.
Proof. unfold glIsVertexArray. apply bool_decide_eq_true. Qed.

Lemma glIsVertexArray_false (d : device) (v : Z) :
  glIsVertexArray d v = false <-> v ∉ vertex_arrays d.
Proof. unfold glIsVertexArray. apply bool_decide_eq_false. Qed.

Ltac set_facts :=
  repeat match goal with
         | H : glIsBuffer _ _ = true |- _ => apply glIsBuffer_true in H
         | H : glIsBuffer _ _ = false |- _ => apply glIsBuffer_false in H
         | H : glIsVertexArray _ _ = true |- _ => apply glIsVertexArray_true in H
         | H : glIsVertexArray _ _ = false |- _ => apply glIsVertexArray_false in H
         end.

Lemma unused_name_pos (used : gset Z) : 0 < unused_name used.
Proof.
  unfold unused_name.
  assert (0 <= set_fold Z.max 0 used); [|lia].
  apply (set_fold_ind_L (fun r _ => 0 <= r)); [done|]. intros; lia.
Qed.

Lemma Qltb_lt (a b : Q) : Qltb a b = true <-> (a < b)%Q.
Proof.
  unfold Qltb. rewrite Qlt_alt. destruct (a ?= b)%Q; split; congruence.
Qed.

(** ** Destroying geometry *)

Lemma release_loop (geom : nat) : forall (n i : nat) (w : world) (g : kuhl_geometry),
  heap w !! geom = Some g ->
  (i + n <= length (attribs g))%nat ->
  exists w' g',
    for_each (seq i n) (release_attrib geom) w = Done tt w'
    /\ heap w' = <[geom := g']> (heap w)
    /\ output w' = output w
    /\ same_links g g'
    /\ (programs (dev w') = programs (dev w)
        /\ texture_objects (dev w') = texture_objects (dev w)
        /\ vertex_arrays (dev w') = vertex_arrays (dev w)
        /\ buffers (dev w') ⊆ buffers (dev w))
    /\ (forall k a, (i <= k < i + n)%nat -> attribs g !! k = Some a ->
                    bufferobject a ∉ buffers (dev w')).
Proof.
  induction n as [|n IH]; intros i w g Hg Hlen.
  - exists w, g. simpl. unfold ret. rewrite insert_id by done.
    destruct w; repeat split; try done. intros; lia.
  - simpl. unfold bind at 1. unfold release_attrib at 1.
    unfold bind at 1. unfold load at 1. rewrite Hg.
    destruct (lookup_lt_is_Some_2 (attribs g) i ltac:(lia)) as [a Ha].
    rewrite Ha.
    set (g1 := with_attribs (<[i := Attrib None 0]> (attribs g)) g).
    set (d1 := if glIsBuffer (dev w) (bufferobject a)
               then glDeleteBuffers (bufferobject a) (dev w) else dev w).
    assert (Hd1 : (programs d1 = programs (dev w)
                   /\ texture_objects d1 = texture_objects (dev w)
                   /\ vertex_arrays d1 = vertex_arrays (dev w)
                   /\ buffers d1 ⊆ buffers (dev w))
                  /\ bufferobject a ∉ buffers d1).
    { subst d1. destruct (glIsBuffer (dev w) (bufferobject a)) eqn:E.
      - cbn. repeat split; set_solver.
      - apply glIsBuffer_false in E. repeat split; set_solver. }
    destruct Hd1 as [(Hp & Ht & Hv & Hb) Hgone].
    edestruct (IH (S i) (World d1 (<[geom := g1]> (heap w)) (output w)) g1)
      as (w' & g' & Hrun & Hheap & Hout & Hlinks & (Hp' & Ht' & Hv' & Hb') & Hrel).
    { cbn. apply lookup_insert_eq. }
    { subst g1. cbn. rewrite length_insert. lia. }
    exists w', g'.
    assert (Hstep : bind (gl (fun d => glIsBuffer d (bufferobject a)))
                      (fun live => bind (when live (gl_do (glDeleteBuffers (bufferobject a))))
                                        (fun _ => store geom g1)) w
                    = Done tt (World d1 (<[geom := g1]> (heap w)) (output w))).
    { subst d1. run. destruct (glIsBuffer (dev w) (bufferobject a)); reflexivity. }
    rewrite Hstep. split; [exact Hrun|].
    cbn in Hheap, Hout, Hp', Ht', Hv', Hb'. rewrite insert_insert_eq in Hheap.
    split; [done|]. split; [done|].
    split.
    { destruct Hlinks. subst g1. cbn in *. rewrite length_insert in *.
      constructor; done. }
    split.
    { repeat split; try congruence. set_solver. }
    intros k b Hk Hkb.
    destruct (decide (k = i)) as [->|Hne].
    + assert (b = a) by congruence. subst b. set_solver.
    + apply (Hrel k b); [lia|]. subst g1. cbn.
      rewrite list_lookup_insert_ne by done. done.
Qed.

(** On a node whose attribute slots in use lie inside the array,
    [release_node] returns: the attribute buffers, the index buffer and the
    vertex array of the node are no longer live, and no texture and no
    program has been released. *)
Lemma release_node_Done (geom : nat) (w : world) (g : kuhl_geometry) :
  heap w !! geom = Some g ->
  (attrib_count g <= length (attribs g))%nat ->
  exists w' g',
    release_node geom w = Done tt w'
    /\ heap w' = <[geom := g']> (heap w)
    /\ output w' = output w
    /\ next g' = next g
    /\ attrib_count g' = 0%nat
    /\ textures g' = textures g /\ texture_count g' = texture_count g
    /\ program g' = program g
    /\ programs (dev w') = programs (dev w)
    /\ texture_objects (dev w') = texture_objects (dev w)
    /\ (forall k a, (k < attrib_count g)%nat -> attribs g !! k = Some a ->
                    bufferobject a ∉ buffers (dev w'))
    /\ (indices_bufferobject g ∉ buffers (dev w'))
    /\ (vao g ∉ vertex_arrays (dev w')).
Proof.
  intros Hg Hlen. unfold release_node. unfold bind at 1. unfold load at 1. rewrite Hg.
  destruct (release_loop geom (attrib_count g) 0 w g Hg ltac:(lia))
    as (w1 & g1 & Hrun & Hheap & Hout & Hlinks & (Hp & Ht & Hv & Hb) & Hrel).
  unfold bind at 1. rewrite Hrun. destruct Hlinks.
  destruct w1 as [d1 h1 o1]. cbn in Hheap, Hout, Hp, Ht, Hv, Hb, Hrel. subst h1 o1.
  run.
  destruct (glIsBuffer d1 (indices_bufferobject g)) eqn:E1; run;
    match goal with |- context [glIsVertexArray ?d ?v] =>
      destruct (glIsVertexArray d v) eqn:E2 end; run;
    rewrite !insert_insert_eq;
    (eexists _, _; split; [reflexivity|]); cbn;
    set_facts; cbn in E2.
  all: repeat split; try done.
  all: try (intros k a Hk Ha; specialize (Hrel k a ltac:(lia) Ha)).
  all: clear - Hrel E1 E2; set_solver.
Qed.

(** A single node is destroyed in two steps of fuel. *)
Lemma kuhl_geometry_delete_single (geom : nat) (w : world) (g : kuhl_geometry) :
  heap w !! geom = Some g -> next g = None ->
  (attrib_count g <= length (attribs g))%nat ->
  forall fuel, kuhl_geometry_delete (S (S fuel)) geom w = release_node geom w.
Proof.
  intros Hg Hnext Hlen fuel. cbn [kuhl_geometry_delete delete_while].
  unfold bind at 1. unfold bind at 1. unfold load at 1. rewrite Hg, Hnext.
  reflexivity.
Qed.

Lemma delete_leaf (fuel n : nat) (w : world) (gn : kuhl_geometry) :
  heap w !! n = Some gn -> next gn = None ->
  (attrib_count gn <= length (attribs gn))%nat ->
  kuhl_geometry_delete fuel n w = OutOfFuel
  \/ exists w' gn', kuhl_geometry_delete fuel n w = Done tt w'
                    /\ heap w' = <[n := gn']> (heap w)
                    /\ next gn' = None
                    /\ (attrib_count gn' <= length (attribs gn'))%nat.
Proof.
  intros Hn Hnext Hlen.
  destruct fuel as [|[|fuel]]; [left; reflexivity | left; reflexivity |].
  right. rewrite (kuhl_geometry_delete_single n w gn) by done.
  destruct (release_node_Done n w gn Hn Hlen)
    as (w' & g' & Hrun & Hheap & _ & Hnx & Hcount & _).
  exists w', g'. rewrite Hrun. repeat split; try done; try congruence. lia.
Qed.

(** The loop at the head of [kuhl_geometry_delete] never ends when
    [geom->next] is a node: the call on that node returns with
    [geom->next] still set, so the test succeeds again. *)
Lemma delete_while_diverges (p n : nat) : p <> n ->
  forall (fuel : nat) (w : world) (gp gn : kuhl_geometry),
    heap w !! p = Some gp -> next gp = Some n ->
    heap w !! n = Some gn -> next gn = None ->
    (attrib_count gn <= length (attribs gn))%nat ->
    delete_while fuel p w = OutOfFuel.
Proof.
  intros Hne. induction fuel as [|fuel IH]; intros w gp gn Hp Hpn Hn Hnn Hlen.
  - reflexivity.
  - cbn [delete_while]. unfold bind at 1. unfold load at 1. rewrite Hp, Hpn.
    unfold bind at 1.
    destruct (delete_leaf fuel n w gn Hn Hnn Hlen)
      as [-> | (w' & gn' & -> & Hheap & Hnn' & Hlen')]; [reflexivity|].
    apply (IH w' gp gn'); try done.
    + rewrite Hheap. rewrite lookup_insert_ne by done. done.
    + rewrite Hheap. apply lookup_insert_eq.
Qed.

Lemma kuhl_geometry_delete_diverges (p n : nat) (w : world) (gp gn : kuhl_geometry)
    (fuel : nat) :
  p <> n ->
  heap w !! p = Some gp -> next gp = Some n ->
  heap w !! n = Some gn -> next gn = None ->
  (attrib_count gn <= length (attribs gn))%nat ->
  kuhl_geometry_delete fuel p w = OutOfFuel.
Proof.
  intros Hne Hp Hpn Hn Hnn Hlen. destruct fuel as [|fuel]; [reflexivity|].
  cbn [kuhl_geometry_delete]. unfold bind.
  rewrite (delete_while_diverges p n Hne fuel w gp gn); done.
Qed.

(** C1.  On a list of two geometries [kuhl_geometry_delete] does not
    terminate: whatever number of steps it is given, it is still running
    when they are used up.  (A single geometry is destroyed as specified,
    see [release_node_Done].) *)
Theorem kuhl_geometry_delete_two_nodes_diverges :
  forall fuel : nat, kuhl_geometry_delete fuel 0 Examples.two_nodes = OutOfFuel.
Proof.
  intros fuel.
  apply (kuhl_geometry_delete_diverges 0 1 Examples.two_nodes
           (Examples.fresh_geometry 1 (Some 1%nat)) (Examples.fresh_geometry 2 None)).
  - lia.
  - reflexivity.
  - reflexivity.
  - reflexivity.
  - reflexivity.
  - simpl. lia.
Qed.

(** ** Bounding boxes *)

(** C2.  On the box [1,2]x[1,2]x[1,2] and the identity matrix
    [kuhl_bbox_transform] does not return the box it was given: the row of
    [coords] that the initializer leaves at zero drags every minimum down
    to 0, whatever lies in memory after [coords]. *)
Theorem kuhl_bbox_transform_identity_grows :
  forall past : Q,
    BBox.box_eq
      (BBox.kuhl_bbox_transform past BBox.unit_box_at_one (Some mat4f_identity))
      [0; 2; 0; 2; 0; 2]%Q
    /\ ~ BBox.box_eq
        (BBox.kuhl_bbox_transform past BBox.unit_box_at_one (Some mat4f_identity))
        BBox.unit_box_at_one.
Proof.
  intros [n d]. split.
  - vm_compute. repeat constructor.
  - vm_compute. intros H. inversion H as [|x y l l' Hxy _]; subst.
    vm_compute in Hxy. discriminate Hxy.
Qed.

(** A null matrix leaves the box alone. *)
Lemma kuhl_bbox_transform_null (past : Q) (bbox : list Q) :
  BBox.kuhl_bbox_transform past bbox None = bbox.
Proof. reflexivity. Qed.

(** ** Bone weights *)

(** With two vertices, the fifth influence on vertex 0 is stored in the
    first cell of vertex 1 and wiped when vertex 1 is processed: vertex 0
    keeps its first four influences unchanged. *)
Lemma fill_bone_arrays_fifth_dropped :
  Loader.fill_bone_arrays 2 Examples.five_bones_two_vertices
  = Some ([0; 1; 2; 3; 0; 0; 0; 0]%Q,
          [1 # 5; 1 # 5; 1 # 5; 1 # 5; 1; 0; 0; 0]%Q).
Proof. vm_compute. reflexivity. Qed.

(** For a mesh with one vertex and five bones that all influence it,
    the import neither drops the fifth influence nor stops with an error:
    the fifth pair is written past the end of the two arrays of four
    floats.  (Only when the mesh has more bones than [MAX_BONES] does the
    import exit first.) *)
Lemma load_bone_weights_fifth_influence_overflows :
  forall (MAX_ATTRIBUTES MAX_BONES geom : nat) (w : world),
    Loader.fill_bone_arrays 1 Examples.five_bones = None
    /\ Loader.kuhl_private_load_model_bones MAX_ATTRIBUTES MAX_BONES geom 1
                                (Some Examples.five_bones) w
       = if (MAX_BONES <? 5)%nat
         then Exit (output w ++ [Msg STDOUT "This mesh has more bones than we support"
                                     [5; Z.of_nat MAX_BONES]])
         else Undefined.
Proof.
  intros MAX_ATTRIBUTES MAX_BONES geom w. split; [vm_compute; reflexivity|].
  unfold Loader.kuhl_private_load_model_bones.
  change (length Examples.five_bones) with 5%nat.
  change (0 <? 5)%nat with true. cbv iota.
  destruct (MAX_BONES <? 5)%nat; [reflexivity|].
  change (Loader.fill_bone_arrays 1 Examples.five_bones) with (@None (list Q * list Q)).
  reflexivity.
Qed.

Section BoneArrays.

Import Loader.











End BoneArrays.



(** ** Keyframes *)

Import Animation.

(** When some later key lies after [ticks], the search stops at the first
    such key: the pair it selects ends at that key, and no earlier later
    key lies after [ticks]. *)
Lemma search_keys_first (ticks : Q) : forall (later : list aiKey) (j : nat),
  (exists k, k ∈ later /\ (ticks < mTime k)%Q) ->
  exists i k,
    search_keys later ticks j = (j + i)%nat
    /\ later !! i = Some k
    /\ (ticks < mTime k)%Q
    /\ forall i' k', (i' < i)%nat -> later !! i' = Some k' -> ~ (ticks < mTime k')%Q.
Proof.
  induction later as [|k later IH]; intros j (k0 & Hin & Hlt).
  - by apply elem_of_nil in Hin.
  - simpl. destruct (Qltb ticks (mTime k)) eqn:E.
    + apply Qltb_lt in E. exists 0%nat, k. split_and!; try done; try lia.
    + assert (Hk : ~ (ticks < mTime k)%Q).
      { intros Hc. apply Qltb_lt in Hc. congruence. }
      apply elem_of_cons in Hin as [-> | Hin]; [done|].
      destruct (IH (S j) (ex_intro _ k0 (conj Hin Hlt))) as (i & k1 & Hs & Hi & Hlt1 & Hmin).
      exists (S i), k1. split_and!; try done; try lia.
      intros [|i'] k' Hi' Hk'; simpl in Hk'.
      * injection Hk' as <-. done.
      * apply (Hmin i'); [lia|done].
Qed.

(** When no later key lies after [ticks], the search leaves the start at
    its initial value 0, however many keys there are. *)
Lemma search_keys_none (ticks : Q) : forall (later : list aiKey) (j : nat),
  (forall k, k ∈ later -> ~ (ticks < mTime k)%Q) ->
  search_keys later ticks j = 0%nat.
Proof.
  induction later as [|k later IH]; intros j Hall; [done|].
  simpl. destruct (Qltb ticks (mTime k)) eqn:E.
  - apply Qltb_lt in E. exfalso. apply (Hall k); [left|done].
  - apply IH. intros k' Hk'. apply Hall. by right.
Qed.

(** Rounding at work: the [float] nearest to 1/6 lies above it; halfway
    between two floats the one with the even significand is taken, also
    among the subnormal numbers; and ten times the [double] nearest to
    1/10 is 1 in [double] arithmetic. *)
Lemma round_examples :
  Float.to_float (1 # 6) = (11184811 # 67108864)%Q
  /\ Float.to_float (1 + (1 # 16777216)) = 1%Q
  /\ Float.to_float (1 + (3 # 16777216)) = (4194305 # 4194304)%Q
  /\ Float.to_float (1 + (1 # 1073741824)) = 1%Q
  /\ Float.to_float (3 * (1 # 2) ^ 150) = ((1 # 2) ^ 148)%Q
  /\ Float.to_float ((1 # 2) ^ 150) = 0%Q
  /\ Float.to_double (1 # 10) = (3602879701896397 # 36028797018963968)%Q
  /\ Float.to_double (10 * Float.to_double (1 # 10)) = 1%Q
  /\ Float.to_double (1 # 100000) = (5902958103587057 # 590295810358705651712)%Q.
Proof. vm_compute. repeat split. Qed.

(** Rounding keeps zero. *)
Lemma round_zero (prec emin : Z) (q : Q) : (q == 0)%Q -> Float.round prec emin q = 0%Q.
Proof.
  intros H. unfold Float.round.
  assert (Hn : Qnum q = 0%Z).
  { unfold Qeq in H. cbn in H. lia. }
  by rewrite Hn.
Qed.

(** Two keys with equal times give the factor 0, without dividing. *)
Lemma key_factor_equal_times (ks ke : aiKey) (ticks : Q) :
  (mTime ke == mTime ks)%Q -> key_factor ks ke ticks = 0%Q.
Proof.
  intros H. unfold key_factor, Float.to_double.
  rewrite (round_zero 53 _ (mTime ke - mTime ks)) by (rewrite H; ring).
  reflexivity.
Qed.

(** Otherwise the factor is the quotient, computed in [double] with the
    difference of the key times stored as a [float], and stored as a
    [float]; the difference of two distinct times can still round to
    0. *)
Lemma key_factor_distinct_times (ks ke : aiKey) (ticks : Q) :
  ~ (Float.to_float (Float.to_double (mTime ke - mTime ks)) == 0)%Q ->
  key_factor ks ke ticks
  = Float.to_float
      (Float.to_double (Float.to_double (ticks - mTime ks)
                        / Float.to_float (Float.to_double (mTime ke - mTime ks)))).
Proof.
  intros H. unfold key_factor.
  destruct (Qeq_bool (Float.to_float (Float.to_double (mTime ke - mTime ks))) 0) eqn:E;
    [|reflexivity].
  apply Qeq_bool_iff in E. contradiction.
Qed.

(** C4.  With keys at ticks 0, 1 and 2 and [ticks = 2], the time of the
    last key, the interpolator does not use the last key: it keeps the
    start at 0, pairs the keys 0 and 1, and extrapolates with factor 2 to
    the position (20,0,0), while the last key holds (10,0,0). *)
Theorem bracket_keys_at_last_key_extrapolates :
  exists b : bracket,
    bracket_keys Examples.keys_move_then_rest 2 = Some b
    /\ startKey b = 0%nat
    /\ endKey b = 1%nat
    /\ (factor b == 2)%Q
    /\ Forall2 Qeq (lerp3 b) [20; 0; 0]%Q
    /\ ~ Forall2 Qeq (lerp3 b) [10; 0; 0]%Q.
Proof.
  eexists. split; [vm_compute; reflexivity|]. cbn [startKey endKey factor].
  split; [reflexivity|]. split; [reflexivity|]. split; [vm_compute; reflexivity|].
  split.
  - match goal with
    | |- Forall2 Qeq ?l ?r => let l' := eval vm_compute in l in change (Forall2 Qeq l' r)
    end.
    repeat (constructor; [vm_compute; reflexivity|]). constructor.
  - match goal with
    | |- ~ Forall2 Qeq ?l ?r => let l' := eval vm_compute in l in change (~ Forall2 Qeq l' r)
    end.
    intros H. apply Forall2_cons_1 in H as [Hxy _].
    vm_compute in Hxy. discriminate Hxy.
Qed.

(** The same defect seen through [kuhl_private_node_matrix]: at the end of
    a two-tick animation the translation column holds 20. *)
Lemma kuhl_private_node_matrix_at_duration :
  exists m : list Q,
    kuhl_private_node_matrix Examples.first_of Examples.no_rotation
                             Examples.one_animation Examples.still_node 0 2
    = Some (m, 1)
    /\ (mat_get m 12 == 20)%Q.
Proof.
  eexists. split; [vm_compute; reflexivity|]. vm_compute. reflexivity.
Qed.

(** The matrix that [mat4f_from_aiMatrix4x4] writes holds, in row [i]
    and column [j] of this library's column-major layout, the entry of
    row [i] and column [j] of the parser's row-major matrix. *)
Lemma mat4f_from_aiMatrix4x4_entries (src : list Q) :
  length (mat4f_from_aiMatrix4x4 src) = 16%nat
  /\ forall i j : nat, (i < 4)%nat -> (j < 4)%nat ->
       mat_get (mat4f_from_aiMatrix4x4 src) (i + 4 * j) = mat_get src (4 * i + j).
Proof.
  split; [reflexivity|]. intros i j Hi Hj.
  destruct i as [|[|[|[|i]]]]; [| | | |lia];
    (destruct j as [|[|[|[|j]]]]; [| | | |lia]); reflexivity.
Qed.

(** C5.  [kuhl_private_node_matrix] returns the matrix stored in the
    node, entry by entry, together with 0 when the animation number is
    out of range, when the time is negative, and when the time in ticks,
    the [double] product of the time and the ticks per second, exceeds
    the duration of the animation; the keyframes play no part. *)
Theorem kuhl_private_node_matrix_fallback :
  forall (slerp : list Q -> list Q -> Q -> list Q) (rot : list Q -> list Q)
         (scene : aiScene) (node : aiNode) (animationNum : nat) (t : Q),
    ((mNumAnimations scene <= animationNum)%nat
     \/ (t < 0)%Q
     \/ exists anim, mAnimations scene !! animationNum = Some anim
                     /\ (mDuration anim < Float.to_double (t * mTicksPerSecond anim))%Q) ->
    exists m : list Q,
      kuhl_private_node_matrix slerp rot scene node animationNum t = Some (m, 0)
      /\ length m = 16%nat
      /\ forall i j : nat, (i < 4)%nat -> (j < 4)%nat ->
           mat_get m (i + 4 * j) = mat_get (mTransformation node) (4 * i + j).
Proof.
  intros slerp rot scene node animationNum t H.
  exists (mat4f_from_aiMatrix4x4 (mTransformation node)).
  split; [|apply mat4f_from_aiMatrix4x4_entries].
  unfold kuhl_private_node_matrix.
  destruct ((mNumAnimations scene <=? animationNum)%nat || Qltb t 0) eqn:E; [done|].
  apply orb_false_iff in E as [E1 E2].
  destruct H as [H | [H | (anim & Ha & Hd)]].
  - apply Nat.leb_le in H. congruence.
  - apply Qltb_lt in H. congruence.
  - rewrite Ha. apply Qltb_lt in Hd. rewrite Hd. done.
Qed.

(** The theorem at 3 seconds, past the two ticks of animation 0, for a
    node that has keyframes in that animation. *)
Lemma kuhl_private_node_matrix_fallback_witness :
  exists m : list Q,
    kuhl_private_node_matrix Examples.first_of Examples.no_rotation
                             Examples.one_animation Examples.still_node 0 3
    = Some (m, 0)
    /\ length m = 16%nat
    /\ forall i j : nat, (i < 4)%nat -> (j < 4)%nat ->
         mat_get m (i + 4 * j) = mat_get (mTransformation Examples.still_node) (4 * i + j).
Proof.
  apply kuhl_private_node_matrix_fallback. right. right.
  eexists. split; [reflexivity|]. vm_compute. reflexivity.
Defined.

(** The comparison with the duration is made on the rounded product:
    at 10 seconds and 0.1 ticks per second the exact product of the two
    [double] values lies above the duration 1, the product in [double]
    arithmetic is 1, and the animation is applied. *)
Lemma kuhl_private_node_matrix_rounded_ticks :
  (1 < 10 * (3602879701896397 # 36028797018963968))%Q
  /\ exists m : list Q,
       kuhl_private_node_matrix Examples.first_of Examples.no_rotation
                                Examples.slow_animation Examples.still_node 0 10
       = Some (m, 1)
       /\ (mat_get m 12 == 10)%Q.
Proof.
  split; [reflexivity|]. eexists. split; [vm_compute; reflexivity|].
  vm_compute. reflexivity.
Qed.
(** ** Null-terminated lists of geometries *)

Lemma chain_functional (h : gmap nat kuhl_geometry) :
  forall (ps qs : list nat) (first : option nat),
    chain h first ps -> chain h first qs -> ps = qs.
Proof.
  induction ps as [|p ps IH]; intros [|q qs] first Hp Hq; simpl in *.
  - reflexivity.
  - destruct Hq as (Hq & _). congruence.
  - destruct Hp as (Hp & _). congruence.
  - destruct Hp as (-> & g & Hg & Hp), Hq as (Heq & g' & Hg' & Hq).
    injection Heq as <-. rewrite Hg in Hg'. injection Hg' as <-.
    f_equal. by apply (IH _ (next g)).
Qed.

Lemma chain_suffix (h : gmap nat kuhl_geometry) :
  forall (ps qs : list nat) (first : option nat),
    chain h first (ps ++ qs) -> chain h (GeometryList.head_ptr qs) qs.
Proof.
  induction ps as [|p ps IH]; intros qs first H; simpl in H.
  - destruct qs as [|q qs]; [done|]. destruct H as (_ & H). split; [done|exact H].
  - destruct H as (_ & g & _ & H). by apply (IH _ (next g)).
Qed.

(** A null-terminated list visits no node twice. *)
Lemma chain_NoDup (h : gmap nat kuhl_geometry) :
  forall (ps : list nat) (first : option nat), chain h first ps -> NoDup ps.
Proof.
  induction ps as [|p ps IH]; intros first H; [constructor|].
  assert (Hall := H). destruct H as (-> & g & Hg & Hrest).
  constructor; [|by apply (IH (next g))].
  intros Hin. apply list_elem_of_split in Hin as (l1 & l2 & ->).
  apply chain_suffix in Hrest. cbn [GeometryList.head_ptr] in Hrest.
  pose proof (chain_functional h _ (p :: l2) _ Hall Hrest) as Heq.
  apply (f_equal length) in Heq. simpl in Heq. rewrite length_app in Heq. simpl in Heq. lia.
Qed.

Lemma chain_insert_fresh (h : gmap nat kuhl_geometry) (p : nat) (g' : kuhl_geometry) :
  forall (ps : list nat) (first : option nat),
    p ∉ ps -> chain h first ps -> chain (<[p := g']> h) first ps.
Proof.
  induction ps as [|q ps IH]; intros first Hp Hc; [done|].
  destruct Hc as (-> & g & Hg & Hrest). split; [done|].
  exists g. rewrite lookup_insert_ne by set_solver. split; [done|].
  apply IH; [set_solver|done].
Qed.

(** ** Attributes and textures *)

Lemma attrib_scan_found (slots : list kuhl_attrib) (nm : string) :
  forall (n i : nat) (r : Z),
  attrib_scan slots n i nm = Some r ->
  (r = -1 /\ forall k a, (k < n)%nat -> slots !! k = Some a -> attrib_name a <> Some nm)
  \/ exists k a, r = Z.of_nat (i + k) /\ (k < n)%nat /\ slots !! k = Some a
                 /\ attrib_name a = Some nm.
Proof.
  induction slots as [|s slots IH]; intros n i r H.
  - destruct n; simpl in H; [|discriminate]. left. split; [congruence|]. intros; lia.
  - destruct n as [|n]; simpl in H.
    + left. split; [congruence|]. intros; lia.
    + destruct (attrib_name s) as [sn|] eqn:Es; [|discriminate].
      destruct (String.eqb nm sn) eqn:E.
      * apply String.eqb_eq in E. subst sn. right. exists 0%nat, s.
        repeat split; try done; [|lia]. injection H as <-. f_equal. lia.
      * apply String.eqb_neq in E.
        destruct (IH _ _ _ H) as [[-> Hno] | (k & a & -> & Hk & Ha & Hnm)].
        -- left. split; [done|]. intros [|k] a Hk Ha; simpl in Ha.
           ++ injection Ha as <-. congruence.
           ++ apply (Hno k); [lia|done].
        -- right. exists (S k), a. repeat split; try done; [f_equal|]; lia.
Qed.

Lemma texture_scan_found (slots : list kuhl_texture) (nm : string) :
  forall (n i d0 d : nat),
  texture_scan slots n i nm d0 = Some d ->
  (d = d0 /\ forall k t, (k < n)%nat -> slots !! k = Some t -> texture_name t <> Some nm)
  \/ exists k t, d = (i + k)%nat /\ (k < n)%nat /\ slots !! k = Some t
                 /\ texture_name t = Some nm.
Proof.
  induction slots as [|s slots IH]; intros n i d0 d H.
  - destruct n; simpl in H; [|discriminate]. left. split; [congruence|]. intros; lia.
  - destruct n as [|n]; simpl in H.
    + left. split; [congruence|]. intros; lia.
    + destruct (texture_name s) as [sn|] eqn:Es; [|discriminate].
      destruct (IH _ _ _ _ H) as [[-> Hno] | (k & t & -> & Hk & Ht & Hnm)].
      * destruct (String.eqb nm sn) eqn:E.
        -- apply String.eqb_eq in E. subst sn. right. exists 0%nat, s.
           repeat split; try done; lia.
        -- apply String.eqb_neq in E. left. split; [done|].
           intros [|k] t Hk Ht; simpl in Ht.
           ++ injection Ht as <-. congruence.
           ++ apply (Hno k); [lia|done].
      * right. exists (S k), t. repeat split; try done; lia.
Qed.

Section Registry.

Variables MAX_ATTRIBUTES MAX_TEXTURES : nat.
Variables KG_WARN KG_FULL_LIST : Z.

(** A call of [kuhl_geometry_attrib] that returns either changed
    neither the device nor the heap, or wrote one slot of the geometry:
    a fresh slot at the end when the name is new, the slot of that name
    otherwise. *)
Lemma kuhl_geometry_attrib_Done_inv (geom : option nat) (data : option (list Q))
    (comps : nat) (name : option string) (warn : Z) (w w' : world) :
  kuhl_geometry_attrib MAX_ATTRIBUTES geom data comps name warn w = Done tt w' ->
  (heap w' = heap w /\ dev w' = dev w)
  \/ exists p g nm k b,
      geom = Some p /\ name = Some nm /\ heap w !! p = Some g
      /\ glGetAttribLocation (dev w) (program g) nm <> -1
      /\ k <> MAX_ATTRIBUTES /\ (k < length (attribs g))%nat /\ b <> 0
      /\ ((attrib_scan (attribs g) (attrib_count g) 0 nm = Some (-1)
           /\ k = attrib_count g
           /\ heap w' = <[p := attrib_written g k nm b (S k)]> (heap w))
          \/ (attrib_scan (attribs g) (attrib_count g) 0 nm = Some (Z.of_nat k)
              /\ (k < attrib_count g)%nat
              /\ heap w' = <[p := attrib_written g k nm b (attrib_count g)]> (heap w))).
Proof.
  unfold kuhl_geometry_attrib. intros H.
  destruct name as [nm|]; [|run; left; injection H as <-; done].
  destruct (String.eqb nm EmptyString); [run; left; injection H as <-; done|].
  destruct geom as [p|]; [|run; left; injection H as <-; done].
  destruct data as [floats|]; [|run; left; injection H as <-; done].
  destruct (comps =? 0)%nat; [run; left; injection H as <-; done|].
  run. destruct (heap w !! p) as [g|] eqn:Hg; [|discriminate].
  run. destruct (glIsVertexArray (dev w) (vao g)); run; [|discriminate].
  destruct (glGetAttribLocation (dev w) (program g) nm =? -1) eqn:Eloc.
  { left. destruct (negb (warn =? 0)); run; injection H as <-; done. }
  apply Z.eqb_neq in Eloc.
  unfold kuhl_geometry_attrib_index in H. run. rewrite Hg in H. run.
  destruct (attrib_scan (attribs g) (attrib_count g) 0 nm) as [found|] eqn:Escan;
    [|discriminate].
  destruct (attrib_scan_found _ _ _ _ _ Escan)
    as [[-> Hno] | (k & a & -> & Hk & Ha & Hnm)].
  - change (-1 <? 0) with true in H. run. rewrite Hg in H. run.
    destruct (attrib_count g =? MAX_ATTRIBUTES)%nat eqn:Emax; [discriminate|].
    apply Nat.eqb_neq in Emax.
    unfold set_attrib_slot in H. run.
    cbn [attribs attrib_count with_attribs with_attrib_count] in H.
    destruct (attribs g !! attrib_count g) as [slot|] eqn:Eslot; [|discriminate].
    run. cbn [attribs attrib_count with_attribs with_attrib_count] in H.
    apply lookup_lt_Some in Eslot as Hlt.
    rewrite list_lookup_insert_eq in H by done. run.
    injection H as <-. right.
    eexists p, g, nm, (attrib_count g), _.
    split_and!; try done.
    2:{ left. split_and!; try done.
        cbn [heap]. rewrite insert_insert_eq, insert_insert_eq.
        f_equal. unfold attrib_written.
        cbn [attribs attrib_count with_attribs with_attrib_count attrib_name bufferobject].
        rewrite list_insert_insert_eq. reflexivity. }
    match goal with |- glGenBuffers ?d <> 0 =>
      pose proof (unused_name_pos (buffers d)); unfold glGenBuffers; lia end.
  - cbn [Nat.add] in H.
    assert (Hge : (Z.of_nat k <? 0) = false) by (apply Z.ltb_ge; lia).
    rewrite Hge, Nat2Z.id, Ha in H.
    apply lookup_lt_Some in Ha as Hlt.
    destruct (glIsBuffer (dev w) (bufferobject a)); run;
      (destruct (k =? MAX_ATTRIBUTES)%nat eqn:Emax; [discriminate|]);
      apply Nat.eqb_neq in Emax;
      unfold set_attrib_slot in H; run; rewrite Hg in H; run;
      rewrite Ha in H; run;
      cbn [attribs attrib_count with_attribs with_attrib_count] in H;
      rewrite list_lookup_insert_eq in H by done; run;
      injection H as <-; right;
      eexists p, g, nm, k, _; (split_and!; try done).
    all: try (right; split_and!; try done;
        cbn [heap]; rewrite insert_insert_eq;
        f_equal; unfold attrib_written;
        cbn [attribs attrib_count with_attribs with_attrib_count attrib_name bufferobject];
        rewrite list_insert_insert_eq; destruct g; reflexivity).
    all: match goal with |- glGenBuffers ?d <> 0 =>
           pose proof (unused_name_pos (buffers d)); unfold glGenBuffers; lia end.
Qed.

(** A name that is not an active attribute of the program, on a
    geometry with a valid vertex array: nothing but the output
    changes. *)
Lemma kuhl_geometry_attrib_inactive (p : nat) (g : kuhl_geometry)
    (data : option (list Q)) (comps : nat) (nm : string) (warn : Z) (w : world) :
  heap w !! p = Some g ->
  glIsVertexArray (dev w) (vao g) = true ->
  glGetAttribLocation (dev w) (program g) nm = -1 ->
  exists printed,
    kuhl_geometry_attrib MAX_ATTRIBUTES (Some p) data comps (Some nm) warn w
    = Done tt (World (dev w) (heap w) printed).
Proof.
  intros Hg Hv Hloc. unfold kuhl_geometry_attrib.
  destruct (String.eqb nm EmptyString); [run; eauto|].
  destruct data as [floats|]; [|run; eauto].
  destruct (comps =? 0)%nat; [run; eauto|].
  run. rewrite Hg. run. rewrite Hv. run.
  rewrite Hloc. change (-1 =? -1) with true. cbv iota.
  destruct (negb (warn =? 0)); run; [eauto|]. destruct w; eauto.
Qed.

(** A new name on a geometry whose attribute array is full. *)
Lemma kuhl_geometry_attrib_full (p : nat) (g : kuhl_geometry) (floats : list Q)
    (comps : nat) (nm : string) (warn : Z) (w : world) :
  heap w !! p = Some g ->
  nm <> EmptyString -> comps <> 0%nat ->
  glIsVertexArray (dev w) (vao g) = true ->
  glGetAttribLocation (dev w) (program g) nm <> -1 ->
  attrib_scan (attribs g) (attrib_count g) 0 nm = Some (-1) ->
  attrib_count g = MAX_ATTRIBUTES ->
  kuhl_geometry_attrib MAX_ATTRIBUTES (Some p) (Some floats) comps (Some nm) warn w
  = Exit (output w ++ [Msg FATAL "You tried to add more than MAX_ATTRIBUTES attributes"
                           [Z.of_nat MAX_ATTRIBUTES]]).
Proof.
  intros Hg Hnm Hc Hv Hloc Hscan Hfull. unfold kuhl_geometry_attrib.
  apply String.eqb_neq in Hnm. rewrite Hnm.
  apply Nat.eqb_neq in Hc. rewrite Hc.
  run. rewrite Hg. run. rewrite Hv. run.
  apply Z.eqb_neq in Hloc. rewrite Hloc.
  unfold kuhl_geometry_attrib_index. run. rewrite Hg. run. rewrite Hscan.
  change (-1 <? 0) with true. run. rewrite Hg. run.
  rewrite Hfull, Nat.eqb_refl. reflexivity.
Qed.

(** A call of [texture_store] that returns leaves the device alone and
    either leaves the heap alone or wrote one texture slot. *)
Lemma texture_store_Done_inv (p : nat) (texture : Z) (nm : string) (opts : Z)
    (w w' : world) :
  texture_store MAX_TEXTURES KG_WARN p texture nm opts w = Done tt w' ->
  dev w' = dev w
  /\ (heap w' = heap w
      \/ exists g k,
          heap w !! p = Some g
          /\ k <> MAX_TEXTURES /\ (k < length (textures g))%nat
          /\ ((k = texture_count g
               /\ (forall j t, (j < texture_count g)%nat -> textures g !! j = Some t ->
                               texture_name t <> Some nm)
               /\ heap w' = <[p := texture_written g k nm texture (S k)]> (heap w))
              \/ ((k < texture_count g)%nat
                  /\ heap w' = <[p := texture_written g k nm texture (texture_count g)]>
                                 (heap w)))).
Proof.
  unfold texture_store. intros H. run.
  destruct (heap w !! p) as [g|] eqn:Hg; [|discriminate]. run.
  destruct (glIsVertexArray (dev w) (vao g)); run;
    [|injection H as <-; split; [done|left; done]].
  destruct (glGetUniformLocation (dev w) (program g) nm =? -1).
  { destruct (negb (Z.land opts KG_WARN =? 0)); run; injection H as <-;
      (split; [done|left; done]). }
  destruct (texture_scan (textures g) (texture_count g) 0 nm (texture_count g))
    as [d|] eqn:Escan; [|discriminate].
  destruct (texture_scan_found _ _ _ _ _ _ Escan)
    as [[-> Hno] | (k & t & -> & Hk & Ht & Hnm)].
  - rewrite Nat.eqb_refl in H. run. rewrite Hg in H. run.
    destruct (texture_count g =? MAX_TEXTURES)%nat eqn:Emax; [discriminate|].
    apply Nat.eqb_neq in Emax.
    unfold set_texture_slot in H. run.
    cbn [textures texture_count with_textures with_texture_count] in H.
    destruct (textures g !! texture_count g) as [slot|] eqn:Eslot; [|discriminate].
    run. injection H as <-. split; [done|]. right.
    exists g, (texture_count g). apply lookup_lt_Some in Eslot.
    split_and!; try done. left. split_and!; try done.
    cbn [heap]. rewrite insert_insert_eq. reflexivity.
  - cbn [Nat.add] in H.
    assert (Hneq : (k =? texture_count g)%nat = false) by (apply Nat.eqb_neq; lia).
    rewrite Hneq in H. run.
    destruct (k =? MAX_TEXTURES)%nat eqn:Emax; [discriminate|].
    apply Nat.eqb_neq in Emax.
    unfold set_texture_slot in H. run. rewrite Hg in H. run. rewrite Ht in H. run.
    injection H as <-. split; [done|]. right.
    exists g, k. apply lookup_lt_Some in Ht.
    split_and!; try done. right. split; [done|].
    cbn [heap]. unfold texture_written. destruct g; reflexivity.
Qed.

(** A new name on a geometry whose texture array is full, when the call
    does not first recurse along the list. *)
Lemma kuhl_geometry_texture_full (fuel p : nat) (g : kuhl_geometry) (texture : Z)
    (nm : string) (opts : Z) (w : world) :
  heap w !! p = Some g ->
  nm <> EmptyString -> texture <> 0 ->
  glIsTexture (dev w) texture = true ->
  (Z.land opts KG_FULL_LIST = 0 \/ next g = None) ->
  glIsVertexArray (dev w) (vao g) = true ->
  glGetUniformLocation (dev w) (program g) nm <> -1 ->
  texture_scan (textures g) (texture_count g) 0 nm (texture_count g)
  = Some (texture_count g) ->
  texture_count g = MAX_TEXTURES ->
  kuhl_geometry_texture MAX_TEXTURES KG_WARN KG_FULL_LIST (S fuel) (Some p) texture
                        (Some nm) opts w
  = Exit (output w ++ [Msg ERROR "You tried to add more than MAX_TEXTURES textures"
                           [Z.of_nat MAX_TEXTURES]]).
Proof.
  intros Hg Hnm Ht Hlive Hrec Hv Hloc Hscan Hfull.
  cbn [kuhl_geometry_texture].
  apply String.eqb_neq in Hnm. rewrite Hnm.
  apply Z.eqb_neq in Ht. rewrite Ht.
  run. rewrite Hlive. run. rewrite Hg. run.
  assert (Hno : negb (Z.land opts KG_FULL_LIST =? 0) && is_set (next g) = false).
  { destruct Hrec as [-> | ->]; [reflexivity|]. apply andb_false_r. }
  rewrite Hno. unfold texture_store. run. rewrite Hg. run. rewrite Hv. run.
  apply Z.eqb_neq in Hloc. rewrite Hloc. rewrite Hscan.
  rewrite Nat.eqb_refl. run. rewrite Hg. run.
  rewrite Hfull, Nat.eqb_refl. reflexivity.
Qed.

End Registry.

(** ** Capacity of the attribute and texture arrays *)

Lemma node_step_refl (mt : nat) (nm : string) (g : kuhl_geometry) : node_step mt nm g g.
Proof. unfold node_step. naive_solver. Qed.

Lemma heap_step_refl (mt : nat) (nm : string) (h : gmap nat kuhl_geometry) :
  heap_step mt nm h h.
Proof.
  intros q. destruct (h !! q); constructor. apply node_step_refl.
Qed.

Lemma heap_step_trans (mt : nat) (nm : string) (h1 h2 h3 : gmap nat kuhl_geometry) :
  heap_step mt nm h1 h2 -> heap_step mt nm h2 h3 -> heap_step mt nm h1 h3.
Proof.
  intros H12 H23 q. specialize (H12 q). specialize (H23 q).
  destruct H12 as [g1 g2 Ha|]; inversion H23 as [g2' g3 Hb|]; subst; constructor.
  unfold node_step in *. destruct Ha as (Ha1 & Ha2 & Ha3), Hb as (Hb1 & Hb2 & Hb3).
  split_and!; [congruence|auto|].
  intros Hn. destruct (Ha3 Hn) as [Hc Hn2]. destruct (Hb3 Hn2) as [Hc' Hn3].
  split; [congruence|done].
Qed.

Lemma heap_step_insert (mt : nat) (nm : string) (h : gmap nat kuhl_geometry) (p : nat)
    (g g' : kuhl_geometry) :
  h !! p = Some g -> node_step mt nm g g' -> heap_step mt nm h (<[p := g']> h).
Proof.
  intros Hp Hs q. destruct (decide (q = p)) as [->|Hne].
  - rewrite Hp, lookup_insert_eq. by constructor.
  - rewrite lookup_insert_ne by done. destruct (h !! q); constructor.
    apply node_step_refl.
Qed.

Section Capacity.

Variables MAX_ATTRIBUTES MAX_TEXTURES : nat.
Variables KG_WARN KG_FULL_LIST : Z.

Lemma texture_store_step (p : nat) (texture : Z) (nm : string) (opts : Z)
    (w w' : world) :
  texture_store MAX_TEXTURES KG_WARN p texture nm opts w = Done tt w' ->
  heap_step MAX_TEXTURES nm (heap w) (heap w').
Proof.
  intros H. apply texture_store_Done_inv in H as [_ [-> | (g & k & Hg & Hmax & Hlen & Hc)]].
  { apply heap_step_refl. }
  destruct Hc as [(-> & Hno & ->) | (Hk & ->)].
  - apply (heap_step_insert _ _ _ _ g); [done|].
    unfold node_step, texture_written; cbn. split_and!; [done|lia|].
    intros (j & t & Hj & Ht & Hnm). exfalso. by apply (Hno j t).
  - apply (heap_step_insert _ _ _ _ g); [done|].
    unfold node_step, texture_written; cbn. split_and!; [done|lia|].
    intros _. split; [done|].
    exists k, (Texture (Some nm) texture). cbn.
    split_and!; [done| |done]. by apply list_lookup_insert_eq.
Qed.

(** Along the whole list, a call of [kuhl_geometry_texture] that returns
    changes every geometry by a [node_step]. *)
Lemma kuhl_geometry_texture_step : forall (fuel : nat) (geom : option nat) (texture : Z)
    (name : option string) (opts : Z) (w w' : world),
  kuhl_geometry_texture MAX_TEXTURES KG_WARN KG_FULL_LIST fuel geom texture name opts w
  = Done tt w' ->
  heap_step MAX_TEXTURES (default EmptyString name) (heap w) (heap w').
Proof.
  induction fuel as [|fuel IH]; intros geom texture name opts w w' H; [discriminate|].
  cbn [kuhl_geometry_texture] in H.
  destruct name as [nm|]; [|run; injection H as <-; apply heap_step_refl].
  destruct (String.eqb nm EmptyString); [run; injection H as <-; apply heap_step_refl|].
  destruct geom as [p|]; [|run; injection H as <-; apply heap_step_refl].
  destruct (texture =? 0); [run; injection H as <-; apply heap_step_refl|].
  apply bind_Done_inv in H as (live & w1 & Hlive & H).
  unfold gl in Hlive. injection Hlive as <- <-.
  destruct (negb (glIsTexture (dev w) texture));
    [run; injection H as <-; apply heap_step_refl|].
  apply bind_Done_inv in H as (g0 & w1 & Hload & H).
  unfold load in Hload. destruct (heap w !! p) as [g|] eqn:Hg; [|discriminate].
  injection Hload as <- <-.
  apply bind_Done_inv in H as ([] & w1 & Hrec & H).
  apply texture_store_step in H. cbn [default].
  apply (heap_step_trans _ _ _ (heap w1)); [|done].
  destruct (negb (Z.land opts KG_FULL_LIST =? 0) && is_set (next g)).
  - cbn [when] in Hrec. apply IH in Hrec. exact Hrec.
  - cbn [when] in Hrec. unfold ret in Hrec. injection Hrec as <-.
    apply heap_step_refl.
Qed.

Lemma kuhl_geometry_attrib_within_capacity (geom : option nat) (data : option (list Q))
    (comps : nat) (name : option string) (warn : Z) (w w' : world) :
  within_capacity MAX_ATTRIBUTES MAX_TEXTURES w ->
  kuhl_geometry_attrib MAX_ATTRIBUTES geom data comps name warn w = Done tt w' ->
  within_capacity MAX_ATTRIBUTES MAX_TEXTURES w'.
Proof.
  intros Hcap H q gq Hq.
  apply kuhl_geometry_attrib_Done_inv in H
    as [[Hh _] | (p & g & nm & k & b & _ & _ & Hg & _ & Hmax & _ & _ & Hc)].
  { rewrite Hh in Hq. by apply (Hcap q). }
  destruct (Hcap p g Hg) as [Ha Ht].
  destruct Hc as [(_ & -> & Hh) | (_ & Hk & Hh)]; rewrite Hh in Hq;
    (destruct (decide (q = p)) as [->|Hne];
     [rewrite lookup_insert_eq in Hq; injection Hq as <-; cbn; lia
     |rewrite lookup_insert_ne in Hq by done; by apply (Hcap q)]).
Qed.

Lemma kuhl_geometry_texture_within_capacity (fuel : nat) (geom : option nat)
    (texture : Z) (name : option string) (opts : Z) (w w' : world) :
  within_capacity MAX_ATTRIBUTES MAX_TEXTURES w ->
  kuhl_geometry_texture MAX_TEXTURES KG_WARN KG_FULL_LIST fuel geom texture name opts w
  = Done tt w' ->
  within_capacity MAX_ATTRIBUTES MAX_TEXTURES w'.
Proof.
  intros Hcap H q gq' Hq. apply kuhl_geometry_texture_step in H.
  specialize (H q). rewrite Hq in H. inversion H as [gq gq0 Hs Heq Heq0|]; subst.
  symmetry in Heq. destruct (Hcap q gq Heq) as [Ha Ht].
  destruct Hs as (Hs1 & Hs2 & _). split; [lia|auto].
Qed.

Lemma kuhl_geometry_attrib_overwrite (p : nat) (g : kuhl_geometry)
    (data : option (list Q)) (comps : nat) (nm : string) (warn : Z) (k : nat)
    (w w' : world) :
  heap w !! p = Some g ->
  attrib_scan (attribs g) (attrib_count g) 0 nm = Some (Z.of_nat k) ->
  kuhl_geometry_attrib MAX_ATTRIBUTES (Some p) data comps (Some nm) warn w = Done tt w' ->
  exists g', heap w' !! p = Some g' /\ attrib_count g' = attrib_count g.
Proof.
  intros Hg Hscan H.
  apply kuhl_geometry_attrib_Done_inv in H
    as [[Hh _] | (p' & g' & nm' & k' & b & Hp & Hn & Hg' & _ & _ & _ & _ & Hc)].
  { exists g. by rewrite Hh. }
  injection Hp as <-. injection Hn as <-. assert (g' = g) by congruence. subst g'.
  destruct Hc as [(Hs & _) | (_ & _ & Hh)].
  - rewrite Hs in Hscan. injection Hscan as Hk. lia.
  - eexists. rewrite Hh, lookup_insert_eq. split; reflexivity.
Qed.

Lemma kuhl_geometry_texture_overwrite (fuel : nat) (geom : option nat) (texture : Z)
    (nm : string) (opts : Z) (w w' : world) (q : nat) (g : kuhl_geometry) :
  heap w !! q = Some g ->
  has_texture_name g nm ->
  kuhl_geometry_texture MAX_TEXTURES KG_WARN KG_FULL_LIST fuel geom texture (Some nm)
                        opts w = Done tt w' ->
  exists g', heap w' !! q = Some g' /\ texture_count g' = texture_count g.
Proof.
  intros Hq Hn H. apply kuhl_geometry_texture_step in H.
  specialize (H q). rewrite Hq in H. inversion H as [g0 g' Hs Heq0 Heq|]; subst.
  exists g'. split; [done|]. destruct Hs as (_ & _ & Hs). by apply Hs.
Qed.

(** The search loop of [kuhl_geometry_texture] stays inside the array
    when the slots in use do. *)
Lemma texture_scan_Some (slots : list kuhl_texture) (nm : string) :
  forall (n i d0 : nat),
    (n <= length slots)%nat ->
    (forall k t, (k < n)%nat -> slots !! k = Some t -> is_set (texture_name t) = true) ->
    exists d, texture_scan slots n i nm d0 = Some d.
Proof.
  induction slots as [|s slots IH]; intros n i d0 Hn Hnames.
  - destruct n; [by eexists|simpl in Hn; lia].
  - destruct n as [|n]; [by eexists|]. simpl.
    pose proof (Hnames 0%nat s ltac:(lia) eq_refl) as Hs.
    destruct (texture_name s) as [sn|]; [|discriminate].
    apply IH; [simpl in Hn; lia|]. intros k t Hk Ht. apply (Hnames (S k)); [lia|done].
Qed.

(** On a geometry with well-formed texture slots [texture_store]
    returns or ends the process. *)
Lemma texture_store_outcome (p : nat) (g : kuhl_geometry) (texture : Z) (nm : string)
    (opts : Z) (w : world) :
  heap w !! p = Some g -> texture_slots_ok MAX_TEXTURES g ->
  (exists w', texture_store MAX_TEXTURES KG_WARN p texture nm opts w = Done tt w')
  \/ (exists printed, texture_store MAX_TEXTURES KG_WARN p texture nm opts w = Exit printed).
Proof.
  intros Hg (Hcount & Hlen & Hnames). unfold texture_store. run. rewrite Hg. run.
  destruct (glIsVertexArray (dev w) (vao g)); run; [|left; eauto].
  destruct (glGetUniformLocation (dev w) (program g) nm =? -1).
  { destruct (negb (Z.land opts KG_WARN =? 0)); run; left; eauto. }
  destruct (texture_scan_Some (textures g) nm (texture_count g) 0 (texture_count g)
              ltac:(lia) Hnames) as [d Hd].
  rewrite Hd.
  destruct (texture_scan_found _ _ _ _ _ _ Hd) as [[-> Hno] | (k & t & -> & Hk & Ht & Hnm)].
  - rewrite Nat.eqb_refl. run. rewrite Hg. run.
    destruct (texture_count g =? MAX_TEXTURES)%nat eqn:E; [right; eauto|].
    apply Nat.eqb_neq in E. unfold set_texture_slot. run.
    cbn [textures texture_count with_textures with_texture_count].
    destruct (lookup_lt_is_Some_2 (textures g) (texture_count g) ltac:(lia)) as [slot ->].
    run. left. eauto.
  - cbn [Nat.add].
    assert (Hneq : (k =? texture_count g)%nat = false) by (apply Nat.eqb_neq; lia).
    rewrite Hneq. run.
    destruct (k =? MAX_TEXTURES)%nat; [right; eauto|].
    unfold set_texture_slot. run. rewrite Hg. run. rewrite Ht. run. left. eauto.
Qed.

(** A new name on a geometry whose texture array is full ends the
    process in [texture_store]. *)
Lemma texture_store_full (p : nat) (g : kuhl_geometry) (texture : Z) (nm : string)
    (opts : Z) (w : world) :
  heap w !! p = Some g ->
  glIsVertexArray (dev w) (vao g) = true ->
  glGetUniformLocation (dev w) (program g) nm <> -1 ->
  texture_scan (textures g) (texture_count g) 0 nm (texture_count g)
  = Some (texture_count g) ->
  texture_count g = MAX_TEXTURES ->
  texture_store MAX_TEXTURES KG_WARN p texture nm opts w
  = Exit (output w ++ [Msg ERROR "You tried to add more than MAX_TEXTURES textures"
                           [Z.of_nat MAX_TEXTURES]]).
Proof.
  intros Hg Hv Hloc Hscan Hfull. unfold texture_store. run. rewrite Hg. run.
  rewrite Hv. run. apply Z.eqb_neq in Hloc. rewrite Hloc, Hscan.
  rewrite Nat.eqb_refl. run. rewrite Hg. run.
  rewrite Hfull, Nat.eqb_refl. reflexivity.
Qed.

Lemma kuhl_geometry_texture_S (fuel : nat) (geom : option nat) (texture : Z)
    (name : option string) (opts : Z) :
  kuhl_geometry_texture MAX_TEXTURES KG_WARN KG_FULL_LIST (S fuel) geom texture name opts
  = match name with
    | None => msg WARNING "GLSL variable name was NULL or the empty string." []
    | Some nm =>
        if String.eqb nm EmptyString then
          msg WARNING "GLSL variable name was NULL or the empty string." []
        else
          match geom with
          | None => msg WARNING "Geometry struct is null while trying to set texture" []
          | Some p =>
              if texture =? 0 then
                msg WARNING "Texture was set to 0 while trying to set texture" []
              else
                do live <- gl (fun d => glIsTexture d texture);
                if negb live then
                  msg WARNING "You tried to set the texture to an invalid texture" [texture]
                else
                  do g0 <- load p;
                  when (negb (Z.land opts KG_FULL_LIST =? 0) && is_set (next g0))
                       (kuhl_geometry_texture MAX_TEXTURES KG_WARN KG_FULL_LIST fuel
                                              (next g0) texture name opts) ;;
                  texture_store MAX_TEXTURES KG_WARN p texture nm opts
          end
    end.
Proof. reflexivity. Qed.

(** On a null-terminated list of geometries with well-formed texture
    slots [kuhl_geometry_texture] returns, having left the device and
    every geometry outside the list alone, or ends the process. *)
Lemma kuhl_geometry_texture_outcome (texture : Z) (name : option string) (opts : Z) :
  forall (ps : list nat) (first : option nat) (w : world),
    chain (heap w) first ps ->
    (forall q gq, q ∈ ps -> heap w !! q = Some gq -> texture_slots_ok MAX_TEXTURES gq) ->
    (exists w',
        kuhl_geometry_texture MAX_TEXTURES KG_WARN KG_FULL_LIST (S (length ps)) first
                              texture name opts w = Done tt w'
        /\ dev w' = dev w
        /\ forall x, x ∉ ps -> heap w' !! x = heap w !! x)
    \/ (exists printed,
          kuhl_geometry_texture MAX_TEXTURES KG_WARN KG_FULL_LIST (S (length ps)) first
                                texture name opts w = Exit printed).
Proof.
  induction ps as [|p rest IH]; intros first w Hc Hok.
  - simpl in Hc. subst first. rewrite kuhl_geometry_texture_S.
    destruct name as [nm|]; [|left; run; eauto].
    destruct (String.eqb nm EmptyString); left; run; eauto.
  - pose proof (chain_NoDup _ _ _ Hc) as Hnd. apply NoDup_cons in Hnd as [Hnotin _].
    destruct Hc as (-> & g & Hg & Hrest). cbn [length]. rewrite kuhl_geometry_texture_S.
    destruct name as [nm|]; [|left; run; eauto].
    destruct (String.eqb nm EmptyString); [left; run; eauto|].
    destruct (texture =? 0); [left; run; eauto|].
    unfold bind, gl, load.
    destruct (negb (glIsTexture (dev w) texture)); [left; run; eauto|].
    rewrite Hg.
    assert (Hstore : forall w1, dev w1 = dev w ->
              (forall x, x ∉ rest -> heap w1 !! x = heap w !! x) ->
              (exists w',
                  texture_store MAX_TEXTURES KG_WARN p texture nm opts w1 = Done tt w'
                  /\ dev w' = dev w
                  /\ forall x, x ∉ p :: rest -> heap w' !! x = heap w !! x)
              \/ (exists printed,
                    texture_store MAX_TEXTURES KG_WARN p texture nm opts w1 = Exit printed)).
    { intros w1 Hdev Hheap.
      assert (Hg1 : heap w1 !! p = Some g) by (by rewrite Hheap).
      destruct (texture_store_outcome p g texture nm opts w1 Hg1) as [[w2 H2] | [pr H2]].
      { apply (Hok p); [left|done]. }
      - left. exists w2. split; [done|].
        apply texture_store_Done_inv in H2 as (Hd2 & Hh2). split; [congruence|].
        intros x Hx. apply not_elem_of_cons in Hx as [Hxp Hxr].
        destruct Hh2 as [-> | (g0 & k & _ & _ & _ & [(_ & _ & ->) | (_ & ->)])];
          rewrite ?lookup_insert_ne by done; by apply Hheap.
      - right. eauto. }
    destruct (negb (Z.land opts KG_FULL_LIST =? 0) && is_set (next g)); cbn [when].
    + destruct (IH (next g) w Hrest) as [(w1 & Hrun & Hdev & Hheap) | (printed & Hrun)].
      { intros q gq Hq. apply Hok. by right. }
      * rewrite Hrun. by apply Hstore.
      * rewrite Hrun. right. eauto.
    + unfold ret. by apply Hstore.
Qed.

(** A new name on a geometry whose texture array is full, at the head
    of a null-terminated list whose other geometries have well-formed
    texture slots: whether or not the call first recurses along the
    list, the process ends. *)
Lemma kuhl_geometry_texture_full_list (ps : list nat) (p : nat) (g : kuhl_geometry)
    (texture : Z) (nm : string) (opts : Z) (w : world) :
  chain (heap w) (Some p) (p :: ps) ->
  heap w !! p = Some g ->
  (forall q gq, q ∈ ps -> heap w !! q = Some gq -> texture_slots_ok MAX_TEXTURES gq) ->
  nm <> EmptyString -> texture <> 0 ->
  glIsTexture (dev w) texture = true ->
  glIsVertexArray (dev w) (vao g) = true ->
  glGetUniformLocation (dev w) (program g) nm <> -1 ->
  texture_scan (textures g) (texture_count g) 0 nm (texture_count g)
  = Some (texture_count g) ->
  texture_count g = MAX_TEXTURES ->
  exists printed,
    kuhl_geometry_texture MAX_TEXTURES KG_WARN KG_FULL_LIST (S (S (length ps))) (Some p)
                          texture (Some nm) opts w
    = Exit printed.
Proof.
  intros Hc Hg Hok Hnm Ht Hlive Hv Hloc Hscan Hfull.
  pose proof (chain_NoDup _ _ _ Hc) as Hnd. apply NoDup_cons in Hnd as [Hnotin _].
  destruct Hc as (_ & g' & Hg' & Hrest).
  assert (g' = g) by congruence. subst g'.
  rewrite kuhl_geometry_texture_S.
  apply String.eqb_neq in Hnm. rewrite Hnm.
  apply Z.eqb_neq in Ht. rewrite Ht.
  unfold bind at 1, gl at 1. rewrite Hlive. cbn [negb].
  unfold bind at 1, load at 1. rewrite Hg. unfold bind at 1.
  destruct (negb (Z.land opts KG_FULL_LIST =? 0) && is_set (next g)); cbn [when].
  - destruct (kuhl_geometry_texture_outcome texture (Some nm) opts ps (next g) w Hrest Hok)
      as [(w1 & Hrun & Hdev & Hheap) | (printed & Hrun)]; rewrite Hrun; [|eauto].
    eexists. apply (texture_store_full p g).
    + by rewrite Hheap.
    + by rewrite Hdev.
    + by rewrite Hdev.
    + done.
    + done.
  - unfold ret. eexists. by apply (texture_store_full p g).
Qed.

End Capacity.

(** C7.  No call of [kuhl_geometry_attrib] or [kuhl_geometry_texture] that
    returns leaves a geometry with more attributes or textures in use than
    the arrays hold; a new name on a full array ends the process, also
    when [kuhl_geometry_texture] first recurses along a null-terminated
    list of geometries with well-formed texture slots; and a name that
    is already present is overwritten without changing the count. *)
Theorem counts_never_exceed_capacity :
  forall (MAX_ATTRIBUTES MAX_TEXTURES : nat) (KG_WARN KG_FULL_LIST : Z),
    (forall geom data comps name warn w w',
        within_capacity MAX_ATTRIBUTES MAX_TEXTURES w ->
        kuhl_geometry_attrib MAX_ATTRIBUTES geom data comps name warn w = Done tt w' ->
        within_capacity MAX_ATTRIBUTES MAX_TEXTURES w')
    /\ (forall fuel geom texture name opts w w',
        within_capacity MAX_ATTRIBUTES MAX_TEXTURES w ->
        kuhl_geometry_texture MAX_TEXTURES KG_WARN KG_FULL_LIST fuel geom texture name
                              opts w = Done tt w' ->
        within_capacity MAX_ATTRIBUTES MAX_TEXTURES w')
    /\ (forall p g floats comps nm warn w,
        heap w !! p = Some g ->
        nm <> EmptyString -> comps <> 0%nat ->
        glIsVertexArray (dev w) (vao g) = true ->
        glGetAttribLocation (dev w) (program g) nm <> -1 ->
        attrib_scan (attribs g) (attrib_count g) 0 nm = Some (-1) ->
        attrib_count g = MAX_ATTRIBUTES ->
        exists printed,
          kuhl_geometry_attrib MAX_ATTRIBUTES (Some p) (Some floats) comps (Some nm) warn w
          = Exit printed)
    /\ (forall fuel p g texture nm opts w,
        heap w !! p = Some g ->
        nm <> EmptyString -> texture <> 0 ->
        glIsTexture (dev w) texture = true ->
        (Z.land opts KG_FULL_LIST = 0 \/ next g = None) ->
        glIsVertexArray (dev w) (vao g) = true ->
        glGetUniformLocation (dev w) (program g) nm <> -1 ->
        texture_scan (textures g) (texture_count g) 0 nm (texture_count g)
        = Some (texture_count g) ->
        texture_count g = MAX_TEXTURES ->
        exists printed,
          kuhl_geometry_texture MAX_TEXTURES KG_WARN KG_FULL_LIST (S fuel) (Some p)
                                texture (Some nm) opts w
          = Exit printed)
    /\ (forall p g data comps nm warn k w w',
        heap w !! p = Some g ->
        attrib_scan (attribs g) (attrib_count g) 0 nm = Some (Z.of_nat k) ->
        kuhl_geometry_attrib MAX_ATTRIBUTES (Some p) data comps (Some nm) warn w
        = Done tt w' ->
        exists g', heap w' !! p = Some g' /\ attrib_count g' = attrib_count g)
    /\ (forall fuel geom texture nm opts w w' q g,
        heap w !! q = Some g ->
        has_texture_name g nm ->
        kuhl_geometry_texture MAX_TEXTURES KG_WARN KG_FULL_LIST fuel geom texture
                              (Some nm) opts w = Done tt w' ->
        exists g', heap w' !! q = Some g' /\ texture_count g' = texture_count g)
    /\ (forall ps p g texture nm opts w,
        chain (heap w) (Some p) (p :: ps) ->
        heap w !! p = Some g ->
        (forall q gq, q ∈ ps -> heap w !! q = Some gq ->
                      texture_slots_ok MAX_TEXTURES gq) ->
        nm <> EmptyString -> texture <> 0 ->
        glIsTexture (dev w) texture = true ->
        glIsVertexArray (dev w) (vao g) = true ->
        glGetUniformLocation (dev w) (program g) nm <> -1 ->
        texture_scan (textures g) (texture_count g) 0 nm (texture_count g)
        = Some (texture_count g) ->
        texture_count g = MAX_TEXTURES ->
        exists printed,
          kuhl_geometry_texture MAX_TEXTURES KG_WARN KG_FULL_LIST (S (S (length ps)))
                                (Some p) texture (Some nm) opts w
          = Exit printed).
Proof.
  intros MA MT KW KF. split_and!.
  - apply kuhl_geometry_attrib_within_capacity.
  - apply kuhl_geometry_texture_within_capacity.
  - intros p g floats comps nm warn w **. eexists.
    by apply (kuhl_geometry_attrib_full MA p g).
  - intros fuel p g texture nm opts w **. eexists.
    by apply (kuhl_geometry_texture_full MT KW KF fuel p g).
  - apply kuhl_geometry_attrib_overwrite.
  - apply kuhl_geometry_texture_overwrite.
  - apply kuhl_geometry_texture_full_list.
Qed.

(** The theorem at a geometry whose two attribute slots are taken: a third
    attribute, active in the program, ends the process; and at a fresh
    geometry, where the same attribute is stored and the counts stay
    within the capacity. *)
Lemma counts_never_exceed_capacity_witness :
  ((Examples.full_node.(heap) !! 0%nat = Some Examples.full_geometry
    /\ attrib_count Examples.full_geometry = 2%nat)
   /\ exists printed,
       kuhl_geometry_attrib 2 (Some 0%nat) (Some [0; 0; 0; 0; 0; 0; 0; 0; 0]%Q) 3
                            (Some "in_Position") 0 Examples.full_node
       = Exit printed)
  /\ exists w',
      kuhl_geometry_attrib 2 (Some 0%nat) (Some [0; 0; 0; 0; 0; 0; 0; 0; 0]%Q) 3
                           (Some "in_Position") 0 Examples.one_node
      = Done tt w'
      /\ (exists g', heap w' !! 0%nat = Some g' /\ attrib_count g' = 1%nat)
      /\ within_capacity 2 2 w'.
Proof.
  split.
  - split.
    + split; reflexivity.
    + apply (proj1 (proj2 (proj2 (counts_never_exceed_capacity 2 2 1 2)))
               0%nat Examples.full_geometry).
      * reflexivity.
      * discriminate.
      * discriminate.
      * reflexivity.
      * vm_compute. discriminate.
      * reflexivity.
      * reflexivity.
  - eexists. split; [vm_compute; reflexivity|]. split.
    + eexists. split; vm_compute; reflexivity.
    + apply (proj1 (counts_never_exceed_capacity 2 2 1 2)
               (Some 0%nat) (Some [0; 0; 0; 0; 0; 0; 0; 0; 0]%Q) 3%nat
               (Some "in_Position") 0 Examples.one_node).
      * intros q g Hq. destruct (decide (q = 0%nat)) as [->|Hne].
        -- change (heap Examples.one_node !! 0%nat)
             with (Some (Examples.fresh_geometry 1 None)) in Hq.
           injection Hq as <-. simpl. lia.
        -- unfold Examples.one_node in Hq. cbn [heap] in Hq.
           rewrite lookup_singleton_ne in Hq by done. discriminate.
      * vm_compute. reflexivity.
Defined.

(** ** Pairing of names and buffers *)

Lemma kuhl_geometry_new_Done_inv (p : nat) (prog : Z) (vertexCount : nat) (primitive : Z)
    (w w' : world) :
  kuhl_geometry_new p prog vertexCount primitive w = Done tt w' ->
  exists g', heap w' !! p = Some g'
             /\ attrib_count g' = 0%nat /\ texture_count g' = 0%nat
             /\ forall q, q <> p -> heap w' !! q = heap w !! q.
Proof.
  unfold kuhl_geometry_new. intros H. run.
  destruct (heap w !! p) as [g|] eqn:Hg; [|discriminate]. run.
  match type of H with context [glIsProgram ?d ?x] =>
    destruct (glIsProgram d x) end; run; [|discriminate].
  destruct (vertexCount =? 0)%nat; run; injection H as <-; cbn [heap];
    (eexists; rewrite lookup_insert_eq; split_and!; [reflexivity|reflexivity|reflexivity|]);
    intros q Hq; rewrite !lookup_insert_ne by done; reflexivity.
Qed.

Lemma kuhl_geometry_attrib_paired (MAX_ATTRIBUTES : nat) (geom : option nat)
    (data : option (list Q)) (comps : nat) (name : option string) (warn : Z)
    (w w' : world) :
  (forall q g, heap w !! q = Some g -> slots_paired g) ->
  kuhl_geometry_attrib MAX_ATTRIBUTES geom data comps name warn w = Done tt w' ->
  forall q g, heap w' !! q = Some g -> slots_paired g.
Proof.
  intros Hall H q gq Hq.
  apply kuhl_geometry_attrib_Done_inv in H
    as [[Hh _] | (p & g & nm & k & b & _ & _ & Hg & _ & _ & Hlen & Hb & Hc)].
  { rewrite Hh in Hq. by apply (Hall q). }
  assert (Hstep : forall n, (forall j, (j < n)%nat -> j <> k -> (j < attrib_count g)%nat) ->
                            slots_paired (attrib_written g k nm b n)).
  { intros n Hn j a Hj Ha. unfold attrib_written in *. cbn in Hj, Ha.
    destruct (decide (j = k)) as [->|Hne].
    - rewrite list_lookup_insert_eq in Ha by done. injection Ha as <-. done.
    - rewrite list_lookup_insert_ne in Ha by done.
      apply (Hall p g Hg j a); [by apply Hn|done]. }
  destruct Hc as [(_ & Hk & Hh) | (_ & Hk & Hh)]; rewrite Hh in Hq;
    (destruct (decide (q = p)) as [->|Hne];
     [rewrite lookup_insert_eq in Hq; injection Hq as <-; apply Hstep; intros; lia
     |rewrite lookup_insert_ne in Hq by done; by apply (Hall q)]).
Qed.

Lemma kuhl_geometry_sanity_check_attribute_cases (b : Z) (name : option string) (prog : Z)
    (w : world) :
  if (attrib_active (dev w) prog name && (b =? 0))
     || (negb (attrib_active (dev w) prog name) && glIsBuffer (dev w) b)
  then exists printed, kuhl_geometry_sanity_check_attribute b name prog w = Exit printed
  else kuhl_geometry_sanity_check_attribute b name prog w = Done tt w.
Proof.
  unfold kuhl_geometry_sanity_check_attribute, attrib_active.
  destruct name as [nm|]; run.
  - destruct (glGetAttribLocation (dev w) prog nm =? -1); run.
    + destruct (glIsBuffer (dev w) b); run; [eauto|]. by destruct w.
    + cbn [is_set]. destruct (b =? 0); run; [eauto|]. by destruct w.
  - change (-1 =? -1) with true. run.
    destruct (glIsBuffer (dev w) b); run; [eauto|]. by destruct w.
Qed.

(** C6 (as the code has it).  On a geometry with a valid vertex array,
    a name that is not an active attribute of the program makes
    [kuhl_geometry_attrib] return without touching the device or the
    heap, so no buffer is created; [kuhl_geometry_new] and
    every returning [kuhl_geometry_attrib] leave each attribute slot in use
    with both a name and a buffer; and the sanity check of a slot exits
    exactly when the name is active in the program and the buffer handle
    is 0, or the name is null or inactive and the handle is a live
    buffer. *)
Theorem attribute_slots_paired_and_checked :
  forall MAX_ATTRIBUTES : nat,
    (forall p g data comps nm warn w,
        heap w !! p = Some g ->
        glIsVertexArray (dev w) (vao g) = true ->
        glGetAttribLocation (dev w) (program g) nm = -1 ->
        exists printed,
          kuhl_geometry_attrib MAX_ATTRIBUTES (Some p) data comps (Some nm) warn w
          = Done tt (World (dev w) (heap w) printed))
    /\ (forall p prog vertexCount primitive w w',
        kuhl_geometry_new p prog vertexCount primitive w = Done tt w' ->
        exists g', heap w' !! p = Some g' /\ slots_paired g'
                   /\ forall q, q <> p -> heap w' !! q = heap w !! q)
    /\ (forall geom data comps name warn w w',
        (forall q g, heap w !! q = Some g -> slots_paired g) ->
        kuhl_geometry_attrib MAX_ATTRIBUTES geom data comps name warn w = Done tt w' ->
        forall q g, heap w' !! q = Some g -> slots_paired g)
    /\ (forall b name prog w,
        if (attrib_active (dev w) prog name && (b =? 0))
           || (negb (attrib_active (dev w) prog name) && glIsBuffer (dev w) b)
        then exists printed,
            kuhl_geometry_sanity_check_attribute b name prog w = Exit printed
        else kuhl_geometry_sanity_check_attribute b name prog w = Done tt w).
Proof.
  intros MA. split_and!.
  - apply kuhl_geometry_attrib_inactive.
  - intros p prog vc prim w w' H.
    apply kuhl_geometry_new_Done_inv in H as (g' & Hg' & Hc & _ & Hframe).
    exists g'. split_and!; try done. intros k a Hk. lia.
  - apply kuhl_geometry_attrib_paired.
  - apply kuhl_geometry_sanity_check_attribute_cases.
Qed.

(** The theorem at a fresh geometry and the attribute "in_Normal", which
    the program does not have. *)
Lemma attribute_slots_paired_and_checked_witness :
  (Examples.one_node.(heap) !! 0%nat = Some (Examples.fresh_geometry 1 None)
   /\ glIsVertexArray (dev Examples.one_node) 1 = true
   /\ glGetAttribLocation (dev Examples.one_node) 7 "in_Normal" = -1)
  /\ exists printed,
      kuhl_geometry_attrib 2 (Some 0%nat) (Some [0; 0; 0; 0; 0; 0; 0; 0; 0]%Q) 3
                           (Some "in_Normal") 1 Examples.one_node
      = Done tt (World (dev Examples.one_node) (heap Examples.one_node) printed).
Proof.
  split.
  - split_and!; reflexivity.
  - apply (proj1 (attribute_slots_paired_and_checked 2)
             0%nat (Examples.fresh_geometry 1 None)).
    + reflexivity.
    + reflexivity.
    + reflexivity.
Defined.

(** C6 as stated fails: a slot with a name and no buffer is a mismatch,
    yet the sanity check lets it pass when the name is not an attribute of
    the program. *)
Lemma sanity_check_accepts_name_without_buffer :
  ~ (forall (b : Z) (name : option string) (prog : Z) (w : world),
        is_set name <> negb (b =? 0) ->
        exists printed, kuhl_geometry_sanity_check_attribute b name prog w = Exit printed).
Proof.
  intros H.
  destruct (H 0 (Some "in_Normal") 7 Examples.one_node) as [printed Hp].
  - discriminate.
  - vm_compute in Hp. discriminate Hp.
Qed.

(** ** Index lists *)

Lemma report_loop (vc : nat) (idx : list nat) : forall (n i : nat) (w : world),
  (forall k, (k < n)%nat -> is_Some (idx !! (i + k)%nat)) ->
  for_each (seq i n) (fun i =>
        match idx !! i with
        | None => undefined
        | Some v =>
            when (vc <=? v)%nat
                 (msg STDERR "indices[i] is asking for a vertex that does not exist"
                      [Z.of_nat vc; Z.of_nat i; Z.of_nat v])
        end) w
  = Done tt (World (dev w) (heap w)
                   (output w ++ index_reports vc i (take n (drop i idx)))).
Proof.
  induction n as [|n IH]; intros i w Hin.
  - simpl. unfold ret. destruct w; simpl. rewrite ?take_0. simpl.
    rewrite app_nil_r. done.
  - simpl. destruct (Hin 0%nat ltac:(lia)) as [v Hv]. rewrite Nat.add_0_r in Hv.
    rewrite (drop_S _ _ _ Hv). simpl.
    unfold bind at 1. rewrite Hv.
    destruct (vc <=? v)%nat eqn:E; simpl.
    + unfold msg at 1. rewrite IH.
      * simpl. rewrite <- app_assoc. done.
      * intros k Hk. replace (S i + k)%nat with (i + S k)%nat by lia. apply Hin. lia.
    + rewrite IH.
      * done.
      * intros k Hk. replace (S i + k)%nat with (i + S k)%nat by lia. apply Hin. lia.
Qed.

(** C8.  [kuhl_geometry_indices] prints a warning and does nothing else
    when the array is null or the count is 0; it exits when the geometry
    has triangles (lines) and the count is not a multiple of 3 (2); in
    every other case it returns, having printed one line per index that is
    not below the vertex count, and having stored and uploaded the indices
    as they were given. *)
Theorem kuhl_geometry_indices_policy :
  forall (p : nat) (g : kuhl_geometry) (idx : list nat) (n : nat) (w : world),
    heap w !! p = Some g ->
    kuhl_geometry_indices p None n w = Done tt (say index_warning w)
    /\ kuhl_geometry_indices p (Some idx) 0 w = Done tt (say index_warning w)
    /\ (n <> 0%nat -> primitive_type g = GL_TRIANGLES -> (n mod 3 <> 0)%nat ->
        exists printed, kuhl_geometry_indices p (Some idx) n w = Exit printed)
    /\ (n <> 0%nat -> primitive_type g = GL_LINES -> (n mod 2 <> 0)%nat ->
        exists printed, kuhl_geometry_indices p (Some idx) n w = Exit printed)
    /\ (n <> 0%nat -> (n <= length idx)%nat ->
        (primitive_type g = GL_TRIANGLES -> (n mod 3 = 0)%nat) ->
        (primitive_type g = GL_LINES -> (n mod 2 = 0)%nat) ->
        exists w' g',
          kuhl_geometry_indices p (Some idx) n w = Done tt w'
          /\ output w' = output w ++ index_reports (vertex_count g) 0 (take n idx)
          /\ heap w' !! p = Some g'
          /\ indices g' = Some idx
          /\ indices_len g' = n
          /\ last (commands (dev w'))
             = Some (BufferDataIndices (indices_bufferobject g') (take n idx))).
Proof.
  intros p g idx n w Hg. repeat split.
  - intros Hn Ht Hm. unfold kuhl_geometry_indices.
    destruct (n =? 0)%nat eqn:E0; [apply Nat.eqb_eq in E0; lia|].
    unfold bind at 1, load. rewrite Hg. rewrite Ht.
    destruct (n mod 3 =? 0)%nat eqn:E3; [apply Nat.eqb_eq in E3; lia|].
    cbn. eauto.
  - intros Hn Ht Hm. unfold kuhl_geometry_indices.
    destruct (n =? 0)%nat eqn:E0; [apply Nat.eqb_eq in E0; lia|].
    unfold bind at 1, load. rewrite Hg. rewrite Ht.
    destruct (n mod 2 =? 0)%nat eqn:E3; [apply Nat.eqb_eq in E3; lia|].
    cbn. eauto.
  - intros Hn Hlen H3 H2. unfold kuhl_geometry_indices.
    destruct (n =? 0)%nat eqn:E0; [apply Nat.eqb_eq in E0; lia|].
    unfold bind at 1, load. rewrite Hg.
    assert (Ha : (primitive_type g =? GL_TRIANGLES) && negb (n mod 3 =? 0)%nat = false).
    { destruct (primitive_type g =? GL_TRIANGLES) eqn:E; [|done].
      apply Z.eqb_eq in E. rewrite (H3 E). done. }
    assert (Hb : (primitive_type g =? GL_LINES) && negb (n mod 2 =? 0)%nat = false).
    { destruct (primitive_type g =? GL_LINES) eqn:E; [|done].
      apply Z.eqb_eq in E. rewrite (H2 E). done. }
    rewrite Ha, Hb.
    unfold bind at 1, modify. unfold bind at 1, load. rewrite Hg.
    unfold store at 1. cbn [heap dev output].
    unfold bind at 1.
    rewrite (report_loop (vertex_count g) idx n 0).
    2:{ intros k Hk. apply lookup_lt_is_Some. simpl. lia. }
    cbn [heap dev output]. rewrite drop_0.
    unfold bind, gl_do, gl, modify, load, store. cbn.
    rewrite lookup_insert_eq. cbn.
    eexists _, _. split; [reflexivity|]. cbn.
    rewrite lookup_insert_eq.
    repeat split.
    rewrite last_snoc. reflexivity.
Qed.

(** The theorem at a geometry with three vertices and the triangle
    (0, 1, 5), whose last index does not exist. *)
Lemma kuhl_geometry_indices_policy_witness :
  Examples.one_node.(heap) !! 0%nat = Some (Examples.fresh_geometry 1 None)
  /\ exists w' g',
      kuhl_geometry_indices 0 (Some [0; 1; 5]%nat) 3 Examples.one_node = Done tt w'
      /\ output w' = index_reports 3 0 [0; 1; 5]%nat
      /\ heap w' !! 0%nat = Some g'
      /\ indices g' = Some [0; 1; 5]%nat
      /\ indices_len g' = 3%nat
      /\ last (commands (dev w'))
         = Some (BufferDataIndices (indices_bufferobject g') [0; 1; 5]%nat).
Proof.
  split.
  - reflexivity.
  - apply (kuhl_geometry_indices_policy 0 (Examples.fresh_geometry 1 None)
             [0; 1; 5]%nat 3 Examples.one_node).
    + reflexivity.
    + lia.
    + simpl. lia.
    + intros _. reflexivity.
    + intros H. vm_compute in H. discriminate H.
Defined.

(** ** Drawing *)

Lemma double_0_00001_rounded : double_0_00001 = Float.to_double (1 # 100000).
Proof. vm_compute. reflexivity. Qed.

Lemma keeps_heap_ret {A} (a : A) : keeps_heap (ret a).
Proof. intros w. by exists a, w. Qed.

Lemma keeps_heap_gl {A} (q : device -> A) : keeps_heap (gl q).
Proof. intros w. by exists (q (dev w)), w. Qed.

Lemma keeps_heap_gl_do (f : device -> device) : keeps_heap (gl_do f).
Proof. intros w. eexists _, _. split; reflexivity. Qed.

Lemma keeps_heap_msg (l : level) (text : string) (args : list Z) :
  keeps_heap (msg l text args).
Proof. intros w. eexists _, _. split; reflexivity. Qed.

Lemma keeps_heap_bind {A B} (m : M A) (k : A -> M B) :
  keeps_heap m -> (forall a, keeps_heap (k a)) -> keeps_heap (bind m k).
Proof.
  intros Hm Hk w. destruct (Hm w) as (a & w1 & E1 & H1).
  destruct (Hk a w1) as (b & w2 & E2 & H2).
  exists b, w2. unfold bind. rewrite E1. split; [done|congruence].
Qed.

Lemma keeps_heap_when (b : bool) (m : M unit) : keeps_heap m -> keeps_heap (when b m).
Proof. intros Hm. destruct b; [done|apply keeps_heap_ret]. Qed.

Lemma keeps_heap_if {A} (b : bool) (m1 m2 : M A) :
  keeps_heap m1 -> keeps_heap m2 -> keeps_heap (if b then m1 else m2).
Proof. by destruct b. Qed.

Lemma keeps_heap_for_each {A} (l : list A) (body : A -> M unit) :
  (forall x, x ∈ l -> keeps_heap (body x)) -> keeps_heap (for_each l body).
Proof.
  induction l as [|x l IH]; intros Hbody; [apply keeps_heap_ret|].
  simpl. apply keeps_heap_bind.
  - apply Hbody. left.
  - intros _. apply IH. intros y Hy. apply Hbody. by right.
Qed.

Lemma keeps_heap_bind_textures (g : kuhl_geometry) :
  forall (slots : list nat) (hasTex : Z),
    (forall i, i ∈ slots ->
               exists t, textures g !! i = Some t /\ is_set (texture_name t) = true) ->
    keeps_heap (bind_textures g slots hasTex).
Proof.
  induction slots as [|i slots IH]; intros hasTex Hs; [apply keeps_heap_ret|].
  simpl. destruct (Hs i ltac:(left)) as (t & -> & Hn).
  assert (Hrest : forall h, keeps_heap (bind_textures g slots h)).
  { intros h. apply IH. intros j Hj. apply Hs. by right. }
  apply keeps_heap_bind; [apply keeps_heap_gl|]. intros live.
  apply keeps_heap_if; [done|].
  destruct (texture_name t) as [nm|]; [|discriminate].
  apply keeps_heap_bind; [apply keeps_heap_gl|]. intros loc.
  apply keeps_heap_if; [done|].
  repeat (apply keeps_heap_bind; [apply keeps_heap_gl_do|]; intros _).
  done.
Qed.

Lemma keeps_heap_unmap_attribs (g : kuhl_geometry) :
  (attrib_count g <= length (attribs g))%nat -> keeps_heap (unmap_attribs g).
Proof.
  intros Hlen. unfold unmap_attribs. apply keeps_heap_for_each. intros i Hi.
  apply elem_of_seq in Hi.
  destruct (lookup_lt_is_Some_2 (attribs g) i ltac:(lia)) as [a ->].
  apply keeps_heap_bind; [apply keeps_heap_gl_do|]. intros _.
  apply keeps_heap_bind; [apply keeps_heap_gl|]. intros mapped.
  apply keeps_heap_bind; [apply keeps_heap_when, keeps_heap_gl_do|]. intros _.
  apply keeps_heap_gl_do.
Qed.

Lemma keeps_heap_unbind_textures (g : kuhl_geometry) : keeps_heap (unbind_textures g).
Proof.
  unfold unbind_textures. apply keeps_heap_for_each. intros i _.
  apply keeps_heap_bind; [apply keeps_heap_gl_do|]. intros _. apply keeps_heap_gl_do.
Qed.

(** One step of a computation whose first part keeps the heap. *)
Lemma step_Done {A} (m : M A) (k : A -> M unit) (w : world) (h : gmap nat kuhl_geometry) :
  keeps_heap m -> heap w = h ->
  (forall a w1, heap w1 = h -> exists w', k a w1 = Done tt w') ->
  exists w', bind m k w = Done tt w'.
Proof.
  intros Hm Hw Hk. destruct (Hm w) as (a & w1 & E & Hh).
  unfold bind. rewrite E. apply Hk. congruence.
Qed.

(** The four restoring calls at the end of [kuhl_geometry_draw]. *)
Lemma restore_bindings (d : device) (a b p v : Z) :
  saved_bindings
    (glBindVertexArray v (glUseProgram p (glBindTexture_2d b (glActiveTexture a d))))
  = (p, a, b, v).
Proof.
  unfold saved_bindings, get_texture_binding_2d, glBindVertexArray.
  destruct (v =? 0); cbn; rewrite lookup_insert_eq; reflexivity.
Qed.

Section Draw.

Variable MAX_BONES : nat.

Lemma draw_body_restores (draw_next : option nat -> M unit) (p : nat) (w w' : world) :
  (forall nxt w1 w2, draw_next nxt w1 = Done tt w2 ->
                     saved_bindings (dev w2) = saved_bindings (dev w1)) ->
  draw_body MAX_BONES draw_next p w = Done tt w' ->
  saved_bindings (dev w') = saved_bindings (dev w).
Proof.
  intros Hnext H. unfold draw_body in H.
  do 4 (apply bind_Done_inv in H as (? & ? & E & H); unfold gl in E;
        injection E as <- <-; cbv beta in H).
  apply bind_Done_inv in H as (g & w1 & E & H). unfold load in E.
  destruct (heap w !! p) as [g0|]; [|discriminate]. injection E as <- <-.
  do 2 (apply bind_Done_inv in H as (? & ? & E & H); unfold gl in E;
        injection E as <- <-; cbv beta in H).
  destruct (negb (glIsProgram (dev w) (program g0))
            || negb (glIsVertexArray (dev w) (vao g0))).
  { unfold msg in H. injection H as <-. reflexivity. }
  do 16 (apply bind_Done_inv in H as (? & ? & _ & H); cbv beta in H).
  do 4 (apply bind_Done_inv in H as ([] & ? & E & H); unfold gl_do in E;
        injection E as <-; cbv beta in H).
  apply Hnext in H. rewrite H. cbn [dev]. apply restore_bindings.
Qed.

(** Whenever [kuhl_geometry_draw] returns, the program in use, the
    active texture unit, the 2D texture bound to it and the bound
    vertex array are what they were at the call. *)
Lemma kuhl_geometry_draw_restores : forall (fuel : nat) (geom : option nat) (w w' : world),
  kuhl_geometry_draw MAX_BONES fuel geom w = Done tt w' ->
  saved_bindings (dev w') = saved_bindings (dev w).
Proof.
  induction fuel as [|fuel IH]; intros geom w w' H; [discriminate|].
  cbn [kuhl_geometry_draw] in H. destruct geom as [p|].
  - apply (draw_body_restores (kuhl_geometry_draw MAX_BONES fuel) p); [|done].
    intros nxt w1 w2. apply IH.
  - unfold ret in H. by injection H as <-.
Qed.

Lemma draw_body_Done (draw_next : option nat -> M unit) (p : nat) (w : world)
    (g : kuhl_geometry) :
  heap w !! p = Some g -> drawable g ->
  (forall w1, heap w1 = <[p := with_has_been_drawn 1 g]> (heap w) ->
              exists w', draw_next (next g) w1 = Done tt w') ->
  exists w', draw_body MAX_BONES draw_next p w = Done tt w'.
Proof.
  intros Hg (Htex & Hatt & Hnames) Hnext. unfold draw_body.
  assert (Hslots : forall i, i ∈ seq 0 (texture_count g) ->
             exists t, textures g !! i = Some t /\ is_set (texture_name t) = true).
  { intros i Hi. apply elem_of_seq in Hi.
    destruct (lookup_lt_is_Some_2 (textures g) i ltac:(lia)) as [t Ht].
    exists t. split; [done|]. apply (Hnames i); [lia|done]. }
  do 4 (eapply (step_Done _ _ _ (heap w));
        [apply keeps_heap_gl | eassumption || reflexivity | intros ? ? ?]).
  unfold bind at 1, load at 1.
  match goal with Hh : heap ?w1 = heap w |- _ => rewrite Hh, Hg end.
  do 2 (eapply (step_Done _ _ _ (heap w));
        [apply keeps_heap_gl | eassumption || reflexivity | intros ? ? ?]).
  match goal with |- context [if ?c then _ else _] => destruct c end.
  { eexists. reflexivity. }
  do 15 (eapply (step_Done _ _ _ (heap w));
         [ solve [ repeat first
                     [ apply keeps_heap_gl | apply keeps_heap_gl_do
                     | apply keeps_heap_ret | apply keeps_heap_msg
                     | apply keeps_heap_when | apply keeps_heap_if
                     | apply keeps_heap_unbind_textures
                     | apply keeps_heap_unmap_attribs; exact Hatt
                     | apply keeps_heap_bind_textures; exact Hslots
                     | match goal with
                       | |- keeps_heap (match ?x with _ => _ end) => destruct x
                       end
                     | apply keeps_heap_bind; [|intros ?] ] ]
         | eassumption || reflexivity | intros ? ? ?]).
  unfold bind at 1, modify, bind at 1, load at 1.
  match goal with Hh : heap ?w1 = heap w |- context [heap ?w1 !! p] =>
    rewrite Hh, Hg end.
  unfold store at 1.
  do 4 (eapply (step_Done _ _ _ (<[p := with_has_been_drawn 1 g]> (heap w)));
        [apply keeps_heap_gl_do
        | first [eassumption | cbn [heap]; congruence]
        | intros ? ? ?]).
  by apply Hnext.
Qed.

Lemma chain_insert (h : gmap nat kuhl_geometry) (p : nat) (g g' : kuhl_geometry) :
  h !! p = Some g -> next g' = next g ->
  forall (ps : list nat) (first : option nat),
    chain h first ps -> chain (<[p := g']> h) first ps.
Proof.
  intros Hp Hn. induction ps as [|q ps IH]; intros first Hc; [done|].
  destruct Hc as (-> & gq & Hq & Hrest). split; [done|].
  destruct (decide (q = p)) as [->|Hne].
  - exists g'. rewrite lookup_insert_eq. split; [done|].
    rewrite Hn. apply IH. congruence.
  - exists gq. rewrite lookup_insert_ne by done. split; [done|]. by apply IH.
Qed.

(** On a null-terminated list of drawable geometries
    [kuhl_geometry_draw] returns. *)
Lemma kuhl_geometry_draw_Done : forall (ps : list nat) (first : option nat) (w : world),
  chain (heap w) first ps ->
  (forall p g, p ∈ ps -> heap w !! p = Some g -> drawable g) ->
  exists w', kuhl_geometry_draw MAX_BONES (S (length ps)) first w = Done tt w'.
Proof.
  induction ps as [|p ps IH]; intros first w Hc Hd.
  - simpl in Hc. subst first. by eexists.
  - destruct Hc as (-> & g & Hg & Hrest).
    cbn [length kuhl_geometry_draw].
    apply (draw_body_Done _ p w g); [done|apply (Hd p); [left|done]|].
    intros w1 Hh. apply IH.
    + rewrite Hh. by apply (chain_insert _ _ g).
    + intros q gq Hq Hgq. rewrite Hh in Hgq.
      destruct (decide (q = p)) as [->|Hne].
      * rewrite lookup_insert_eq in Hgq. injection Hgq as <-.
        apply (Hd p g); [left|done].
      * rewrite lookup_insert_ne in Hgq by done. apply (Hd q); [by right|done].
Qed.

End Draw.

(** C9 (as the code has it).  Whenever [kuhl_geometry_draw] returns, the
    program in use, the active texture unit, the 2D texture bound to that
    unit and the bound vertex array are what they were at the call; and on
    a null-terminated list of geometries whose slots in use lie inside
    their arrays and whose textures are named, it does return. *)
Theorem kuhl_geometry_draw_restores_saved_bindings :
  forall (MAX_BONES : nat),
    (forall fuel geom w w',
        kuhl_geometry_draw MAX_BONES fuel geom w = Done tt w' ->
        saved_bindings (dev w') = saved_bindings (dev w))
    /\ (forall ps first w,
        chain (heap w) first ps ->
        (forall p g, p ∈ ps -> heap w !! p = Some g -> drawable g) ->
        exists w',
          kuhl_geometry_draw MAX_BONES (S (length ps)) first w = Done tt w'
          /\ saved_bindings (dev w') = saved_bindings (dev w)).
Proof.
  intros MB. split.
  - apply kuhl_geometry_draw_restores.
  - intros ps first w Hc Hd.
    destruct (kuhl_geometry_draw_Done MB ps first w Hc Hd) as [w' Hw'].
    exists w'. split; [done|]. by apply (kuhl_geometry_draw_restores MB _ _ _ _ Hw').
Qed.

(** The theorem at one textured geometry, drawn while another texture
    unit is active. *)
Lemma kuhl_geometry_draw_restores_saved_bindings_witness :
  chain (heap Examples.busy_world) (Some 0%nat) [0%nat]
  /\ exists w',
      kuhl_geometry_draw 4 2 (Some 0%nat) Examples.busy_world = Done tt w'
      /\ saved_bindings (dev w') = saved_bindings (dev Examples.busy_world).
Proof.
  assert (Hc : chain (heap Examples.busy_world) (Some 0%nat) [0%nat]).
  { split; [reflexivity|]. exists Examples.textured_geometry. split; reflexivity. }
  split; [exact Hc|].
  apply (proj2 (kuhl_geometry_draw_restores_saved_bindings 4) [0%nat] (Some 0%nat)
               Examples.busy_world Hc).
  intros p g Hp Hg. apply list_elem_of_singleton in Hp. subst p.
  change (heap Examples.busy_world !! 0%nat) with (Some Examples.textured_geometry) in Hg.
  injection Hg as <-. split_and!.
  - simpl. lia.
  - simpl. lia.
  - intros [|[|i]] t Hi Ht; simpl in Hi; try lia. injection Ht as <-. reflexivity.
Defined.

(** Drawing the geometry of [Examples.busy_world]: texture unit 0, which
    had texture 8 bound, and the array target, which had buffer 5 bound,
    are both left with nothing bound. *)
Lemma kuhl_geometry_draw_busy_world :
  exists w',
    kuhl_geometry_draw 4 2 (Some 0%nat) Examples.busy_world = Done tt w'
    /\ texture_binding_2d (dev Examples.busy_world) !! GL_TEXTURE0 = Some 8
    /\ texture_binding_2d (dev w') !! GL_TEXTURE0 = Some 0
    /\ array_buffer_binding (dev Examples.busy_world) = 5
    /\ array_buffer_binding (dev w') = 0.
Proof.
  eexists. split; [vm_compute; reflexivity|]. cbn [dev].
  split_and!; vm_compute; reflexivity.
Qed.

(** C9 as stated fails: drawing is not free of effects on the binding
    state of the device.  After drawing one geometry with one attribute
    and one texture, the array target no longer has buffer 5 bound and
    texture unit 0 no longer has texture 8 bound. *)
Lemma kuhl_geometry_draw_changes_other_bindings :
  ~ (forall (MAX_BONES fuel : nat) (geom : option nat) (w w' : world),
        kuhl_geometry_draw MAX_BONES fuel geom w = Done tt w' ->
        all_bindings (dev w') = all_bindings (dev w)).
Proof.
  intros H.
  destruct kuhl_geometry_draw_busy_world as (w' & Hw' & _ & _ & Hb & Hb').
  specialize (H 4%nat 2%nat (Some 0%nat) Examples.busy_world w' Hw').
  apply (f_equal snd) in H. cbn [all_bindings snd] in H. congruence.
Qed.

(** ** Evaluating the hierarchy *)

Lemma for_each_elsewhere {A} (p : nat) (body : A -> M unit) :
  (forall x w w', body x w = Done tt w' ->
                  forall q, q <> p -> heap w' !! q = heap w !! q) ->
  forall (l : list A) (w w' : world),
    for_each l body w = Done tt w' ->
    forall q, q <> p -> heap w' !! q = heap w !! q.
Proof.
  intros Hbody. induction l as [|x l IH]; intros w w' H q Hq.
  - unfold for_each, ret in H. by injection H as <-.
  - simpl in H. apply bind_Done_inv in H as ([] & w1 & H1 & H2).
    rewrite (IH _ _ H2 q Hq). by apply (Hbody x w w1).
Qed.

Section Update.

Variable quatf_slerp_new : list Q -> list Q -> Q -> list Q.
Variable mat4f_rotateQuatVec_new : list Q -> list Q.

Lemma update_bone_elsewhere (p : nat) (scene : aiScene) (animationNum : nat) (t : Q)
    (b : nat) (w w' : world) :
  update_bone quatf_slerp_new mat4f_rotateQuatVec_new p scene animationNum t b w
  = Done tt w' ->
  forall q, q <> p -> heap w' !! q = heap w !! q.
Proof.
  unfold update_bone. intros H q Hq. run.
  destruct (heap w !! p) as [g|]; [|discriminate].
  destruct (bones g) as [bm|]; [|discriminate].
  destruct (boneList bm !! b) as [bone|]; [|discriminate].
  destruct (kuhl_assimp_find_node (bone_mName bone) (mRootNode scene)) as [node|];
    [|discriminate].
  destruct (walk_up _ _ _ _ _ _ _ _) as [m|]; [|discriminate].
  destruct (matrices bm !! b); [|discriminate].
  injection H as <-. cbn [heap]. by rewrite lookup_insert_ne.
Qed.

(** The loop body changes no geometry but the one it is run for, and
    not even that one when it is not animated. *)
Lemma update_geometry_frame (p : nat) (animationNum : nat) (t : Q) (w w' : world) :
  update_geometry quatf_slerp_new mat4f_rotateQuatVec_new p animationNum t w
  = Done tt w' ->
  (forall q, q <> p -> heap w' !! q = heap w !! q)
  /\ (forall g, heap w !! p = Some g -> not_animated g -> w' = w).
Proof.
  unfold update_geometry. intros H.
  apply bind_Done_inv in H as (g & w1 & E & H). unfold load in E.
  destruct (heap w !! p) as [g0|] eqn:Hg; [|discriminate]. injection E as <- <-.
  destruct (assimp_scene g0) as [scene|] eqn:Hs.
  2:{ unfold ret in H. injection H as <-. split; [done|]. intros; done. }
  destruct (mNumAnimations scene =? 0)%nat eqn:Hn.
  { unfold ret in H. injection H as <-. split; [done|]. intros; done. }
  apply Nat.eqb_neq in Hn.
  destruct (assimp_node g0) as [node|] eqn:Hnode.
  2:{ unfold ret in H. injection H as <-. split; [done|]. intros; done. }
  assert (Hanim : forall g, Some g0 = Some g -> not_animated g -> w' = w).
  { intros g [= <-] [Hc | [(sc & Hc & Hz) | Hc]]; [congruence| |congruence].
    assert (sc = scene) by congruence. subst sc. done. }
  split; [|exact Hanim].
  destruct (bones g0) as [bm|].
  - apply (for_each_elsewhere p _ (update_bone_elsewhere p scene animationNum t) _ _ _ H).
  - destruct (walk_up _ _ _ _ _ _ _ _) as [m|]; [|discriminate].
    unfold store in H. injection H as <-. intros q Hq. cbn [heap].
    by rewrite lookup_insert_ne.
Qed.

Lemma update_geometry_not_animated (p : nat) (animationNum : nat) (t : Q) (w : world)
    (g : kuhl_geometry) :
  heap w !! p = Some g -> not_animated g ->
  update_geometry quatf_slerp_new mat4f_rotateQuatVec_new p animationNum t w = Done tt w.
Proof.
  intros Hg Hna. unfold update_geometry. unfold bind, load. rewrite Hg.
  destruct Hna as [-> | [(sc & -> & ->) | Hn]]; [done|done|].
  destruct (assimp_scene g) as [scene|]; [|done].
  destruct (mNumAnimations scene =? 0)%nat; [done|]. by rewrite Hn.
Qed.

Lemma kuhl_update_model_keeps_static : forall (fuel : nat) (first_geom : option nat)
    (animationNum : nat) (time : Q) (w w' : world),
  kuhl_update_model quatf_slerp_new mat4f_rotateQuatVec_new fuel first_geom
                    animationNum time w = Done tt w' ->
  forall q g, heap w !! q = Some g -> not_animated g -> heap w' !! q = Some g.
Proof.
  induction fuel as [|fuel IH]; intros first a t w w' H q g Hq Hna; [discriminate|].
  cbn [kuhl_update_model] in H. destruct first as [p|].
  2:{ unfold ret in H. by injection H as <-. }
  apply bind_Done_inv in H as ([] & w1 & H1 & H).
  apply bind_Done_inv in H as (g1 & w2 & E & H). unfold load in E.
  destruct (heap w1 !! p) as [gp|]; [|discriminate]. injection E as <- <-.
  apply (IH _ _ _ _ _ H q g); [|done].
  apply update_geometry_frame in H1 as [Hframe Hsame].
  destruct (decide (q = p)) as [->|Hne].
  - by rewrite (Hsame g Hq Hna).
  - by rewrite (Hframe q Hne).
Qed.

Lemma kuhl_update_model_static_list : forall (ps : list nat) (first_geom : option nat)
    (animationNum : nat) (time : Q) (w : world),
  chain (heap w) first_geom ps ->
  (forall p g, p ∈ ps -> heap w !! p = Some g -> not_animated g) ->
  kuhl_update_model quatf_slerp_new mat4f_rotateQuatVec_new (S (length ps)) first_geom
                    animationNum time w = Done tt w.
Proof.
  induction ps as [|p ps IH]; intros first a t w Hc Hall.
  - simpl in Hc. by subst first.
  - destruct Hc as (-> & g & Hg & Hrest).
    cbn [length kuhl_update_model]. unfold bind at 1.
    rewrite (update_geometry_not_animated p a t w g Hg); [|apply (Hall p); [left|done]].
    unfold bind, load. rewrite Hg. apply IH; [done|].
    intros q gq Hq. apply Hall. by right.
Qed.

End Update.

(** C10.  [kuhl_update_model] leaves every geometry whose scene is null,
    whose scene has no animations or whose node is null exactly as it was
    (its matrix and its bone matrices among the rest), for every animation
    number and time; and on a list that holds only such geometries it
    returns without changing anything. *)
Theorem kuhl_update_model_skips_static_geometry :
  forall (slerp : list Q -> list Q -> Q -> list Q) (rot : list Q -> list Q),
    (forall fuel first_geom animationNum time w w',
        kuhl_update_model slerp rot fuel first_geom animationNum time w = Done tt w' ->
        forall q g, heap w !! q = Some g -> not_animated g ->
                    exists g', heap w' !! q = Some g'
                               /\ matrix g' = matrix g /\ bones g' = bones g)
    /\ (forall ps first_geom animationNum time w,
        chain (heap w) first_geom ps ->
        (forall p g, p ∈ ps -> heap w !! p = Some g -> not_animated g) ->
        kuhl_update_model slerp rot (S (length ps)) first_geom animationNum time w
        = Done tt w).
Proof.
  intros slerp rot. split.
  - intros fuel first a t w w' H q g Hq Hna. exists g.
    split; [|done]. by apply (kuhl_update_model_keeps_static slerp rot _ _ _ _ _ _ H).
  - apply kuhl_update_model_static_list.
Qed.

(** The theorem at a list of two geometries, evaluated at half a second
    of animation 0: the first belongs to an animated scene and gets a new
    matrix, the second belongs to a scene without animations and is left
    as it was. *)
Lemma kuhl_update_model_skips_static_geometry_witness :
  (exists w',
      kuhl_update_model Examples.first_of Examples.no_rotation 3 (Some 0%nat) 0 (1 # 2)
                        Examples.mixed_world = Done tt w'
      /\ (exists g0, heap w' !! 0%nat = Some g0
                     /\ ~ (mat_get (matrix g0) 12 == 0)%Q)
      /\ exists g', heap w' !! 1%nat = Some g'
                    /\ matrix g' = matrix Examples.static_geometry
                    /\ bones g' = bones Examples.static_geometry)
  /\ kuhl_update_model Examples.first_of Examples.no_rotation 2 (Some 0%nat) 0 1
                       Examples.static_world
     = Done tt Examples.static_world.
Proof.
  assert (Hn : not_animated Examples.static_geometry).
  { right. left. eexists. split; reflexivity. }
  split.
  - eexists. split; [vm_compute; reflexivity|]. split.
    + eexists. split; [vm_compute; reflexivity|]. vm_compute. discriminate.
    + apply (proj1 (kuhl_update_model_skips_static_geometry Examples.first_of
                      Examples.no_rotation)
                   3%nat (Some 0%nat) 0%nat (1 # 2)%Q Examples.mixed_world _
                   ltac:(vm_compute; reflexivity) 1%nat Examples.static_geometry).
      * reflexivity.
      * exact Hn.
  - assert (Hc : chain (heap Examples.static_world) (Some 0%nat) [0%nat]).
    { split; [reflexivity|]. exists Examples.static_geometry. split; reflexivity. }
    apply (proj2 (kuhl_update_model_skips_static_geometry Examples.first_of
                    Examples.no_rotation) [0%nat] (Some 0%nat) 0%nat 1%Q
                 Examples.static_world Hc).
    intros p g Hp Hg. apply list_elem_of_singleton in Hp. subst p.
    change (heap Examples.static_world !! 0%nat) with (Some Examples.static_geometry) in Hg.
    by injection Hg as <-.
Defined.

(** ** Lists of geometries: counting and appending *)

Import GeometryList.

Lemma count_loop_chain (w : world) :
  forall (rest : list nat) (p : nat) (c : Z) (fuel : nat),
    chain (heap w) (Some p) (p :: rest) ->
    (length rest < fuel)%nat ->
    0 <= c -> c + Z.of_nat (length rest) <= UINT_MAX ->
    count_loop fuel p c w = Done (c + Z.of_nat (length rest)) w.
Proof.
  induction rest as [|q rest IH]; intros p c fuel (_ & g & Hg & Hrest) Hfuel Hc Hmax;
    (destruct fuel as [|fuel]; [simpl in Hfuel; lia|]); simpl in *; run; rewrite Hg; run.
  - rewrite Hrest. unfold ret. f_equal. lia.
  - destruct Hrest as (Hn & Hq). rewrite Hn.
    assert (Hincr : incr c = c + 1).
    { unfold incr. apply Z.mod_small. unfold UINT_MAX in *. lia. }
    rewrite Hincr, (IH q (c + 1) fuel).
    + f_equal. lia.
    + split; [done|exact Hq].
    + lia.
    + lia.
    + lia.
Qed.

Lemma last_node_chain (w : world) :
  forall (rest : list nat) (p : nat) (fuel : nat),
    chain (heap w) (Some p) (p :: rest) ->
    (length rest < fuel)%nat ->
    exists l g, last (p :: rest) = Some l /\ heap w !! l = Some g /\ next g = None
                /\ last_node fuel p w = Done l w.
Proof.
  induction rest as [|q rest IH]; intros p fuel (_ & g & Hg & Hrest) Hfuel;
    (destruct fuel as [|fuel]; [simpl in Hfuel; lia|]); simpl in Hrest; cbn [last_node];
    run; rewrite Hg; run.
  - rewrite Hrest. by exists p, g.
  - destruct Hrest as (Hn & Hq). rewrite Hn.
    destruct (IH q fuel) as (l & gl & Hl & Hgl & Hnl & Hrun).
    + split; [done|exact Hq].
    + simpl in Hfuel. lia.
    + exists l, gl. split_and!; try done.
Qed.

(** Redirecting the [next] pointer of the last node of one list to the
    head of a second list that shares no node with the first gives the
    concatenation. *)
Lemma chain_link (h : gmap nat kuhl_geometry) (b : option nat) (qs : list nat) :
  forall (rest : list nat) (p l : nat) (gl : kuhl_geometry),
    chain h (Some p) (p :: rest) -> chain h b qs ->
    (forall x, x ∈ p :: rest -> x ∉ qs) ->
    last (p :: rest) = Some l -> h !! l = Some gl ->
    chain (<[l := with_next b gl]> h) (Some p) (p :: rest ++ qs).
Proof.
  induction rest as [|q rest IH]; intros p l gl Hc Hb Hdis Hl Hgl.
  - simpl in Hl. injection Hl as <-. split; [done|].
    exists (with_next b gl). rewrite lookup_insert_eq. split; [done|].
    cbn [next with_next app]. apply chain_insert_fresh; [|done].
    apply Hdis. left.
  - pose proof (chain_NoDup _ _ _ Hc) as Hnd.
    destruct Hc as (_ & g & Hg & Hrest).
    assert (Hlq : last (q :: rest) = Some l) by exact Hl.
    assert (Hne : p <> l).
    { intros ->. apply NoDup_cons in Hnd as [Hnotin _]. apply Hnotin.
      apply last_Some in Hlq as (l' & Hl'). rewrite Hl'. set_solver. }
    split; [done|]. exists g. rewrite lookup_insert_ne by done. split; [done|].
    destruct Hrest as (Hn & Hq). rewrite Hn.
    apply (IH q l gl); try done.
    intros x Hx. apply Hdis. by right.
Qed.

Lemma count_of_chain :
  forall (ps : list nat) (first : option nat) (fuel : nat) (w : world),
    chain (heap w) first ps ->
    (length ps <= fuel)%nat ->
    Z.of_nat (length ps) <= UINT_MAX ->
    kuhl_geometry_count fuel first w = Done (Z.of_nat (length ps)) w.
Proof.
  intros [|p rest] first fuel w Hc Hfuel Hmax.
  - simpl in Hc. subst first. reflexivity.
  - assert (Hf : first = Some p) by (destruct Hc; done). subst first.
    unfold kuhl_geometry_count. simpl in Hfuel, Hmax.
    rewrite (count_loop_chain w rest p 1 fuel Hc); [f_equal|..]; simpl; lia.
Qed.


Lemma append_of_chains :
  forall (ps qs : list nat) (a b : option nat) (fuel : nat) (w : world),
    chain (heap w) a ps -> chain (heap w) b qs ->
    (forall x, x ∈ ps -> x ∉ qs) ->
    (length ps <= fuel)%nat ->
    exists w',
      kuhl_geometry_append fuel a b w = Done (head_ptr (ps ++ qs)) w'
      /\ head_ptr (ps ++ qs) = match a with None => b | Some _ => a end
      /\ chain (heap w') (head_ptr (ps ++ qs)) (ps ++ qs)
      /\ dev w' = dev w /\ output w' = output w
      /\ (ps = [] \/ qs = [] -> w' = w)
      /\ (forall (l : nat) (g : kuhl_geometry),
             last ps = Some l -> heap w !! l = Some g -> qs <> [] ->
             heap w' = <[l := with_next b g]> (heap w)).
Proof.
  intros ps qs a b fuel w Ha Hb Hdis Hfuel.
  destruct ps as [|p rest].
  - simpl in Ha. subst a. exists w. cbn [app].
    assert (Hb' : b = head_ptr qs).
    { destruct qs; simpl in Hb; [done|]. by destruct Hb. }
    split_and!; try done.
    + rewrite <- Hb'. unfold kuhl_geometry_append. by destruct b.
    + by rewrite <- Hb'.
  - assert (Hf : a = Some p) by (destruct Ha; done). subst a.
    destruct qs as [|q qs'].
    + simpl in Hb. subst b. exists w. rewrite app_nil_r. split_and!; try done.
    + assert (Hf : b = Some q) by (destruct Hb; done). subst b.
      destruct (last_node_chain w rest p fuel Ha ltac:(simpl in Hfuel; lia))
        as (l & gl & Hl & Hgl & Hnl & Hrun).
      eexists. unfold kuhl_geometry_append. rewrite (bind_Done _ _ _ _ _ Hrun).
      run. rewrite Hgl. run. split; [reflexivity|]. cbn [dev heap output].
      split_and!; try done.
      * change ((p :: rest) ++ q :: qs') with (p :: rest ++ q :: qs').
        by apply chain_link.
      * intros [?|?]; discriminate.
      * intros l' g' Hl' Hg' _. rewrite Hl in Hl'. injection Hl' as <-.
        rewrite Hgl in Hg'. by injection Hg' as <-.
Qed.

(** Every node of a null-terminated list is allocated; it is the last
    one, or its [next] pointer leads to another node of the list. *)
Lemma chain_step (h : gmap nat kuhl_geometry) :
  forall (ps : list nat) (first : option nat) (x : nat),
    chain h first ps -> x ∈ ps ->
    exists g, h !! x = Some g
              /\ ((next g = None /\ last ps = Some x)
                  \/ exists y, next g = Some y /\ y ∈ ps).
Proof.
  induction ps as [|p ps IH]; intros first x Hc Hx; [by apply elem_of_nil in Hx|].
  destruct Hc as (-> & g & Hg & Hrest).
  apply elem_of_cons in Hx as [->|Hx].
  - exists g. split; [done|]. destruct ps as [|q ps].
    + left. simpl in Hrest. done.
    + right. destruct Hrest as (Hn & _). exists q. split; [done|]. set_solver.
  - destruct (IH _ x Hrest Hx) as (gx & Hgx & [[Hn Hl] | (y & Hy & Hin)]).
    + exists gx. split; [done|]. left. split; [done|].
      destruct ps; [by apply elem_of_nil in Hx|exact Hl].
    + exists gx. split; [done|]. right. exists y. split; [done|]. by right.
Qed.

(** In a heap where the [next] pointers of the nodes [ps] all lead back
    into [ps], the counting loop never ends. *)
Lemma count_loop_diverges (w : world) (ps : list nat) :
  (forall x, x ∈ ps -> exists g y, heap w !! x = Some g /\ next g = Some y /\ y ∈ ps) ->
  forall (fuel : nat) (x : nat) (c : Z), x ∈ ps -> count_loop fuel x c w = OutOfFuel.
Proof.
  intros Hclosed. induction fuel as [|fuel IH]; intros x c Hx; [reflexivity|].
  destruct (Hclosed x Hx) as (g & y & Hg & Hn & Hy).
  cbn [count_loop]. run. rewrite Hg. run. rewrite Hn. by apply IH.
Qed.

(** X1.  On a null-terminated list [kuhl_geometry_count] returns the
    number of nodes and changes nothing; a null pointer counts as the
    empty list. *)
Theorem kuhl_geometry_count_is_length :
  forall (ps : list nat) (first : option nat) (fuel : nat) (w : world),
    chain (heap w) first ps ->
    (length ps <= fuel)%nat ->
    Z.of_nat (length ps) <= UINT_MAX ->
    kuhl_geometry_count fuel first w = Done (Z.of_nat (length ps)) w.
Proof. exact count_of_chain. Qed.

(** The theorem for the two geometries of [Examples.two_nodes]. *)
Lemma kuhl_geometry_count_is_length_witness :
  kuhl_geometry_count 2 (Some 0%nat) Examples.two_nodes = Done 2 Examples.two_nodes.
Proof.
  apply (kuhl_geometry_count_is_length [0%nat; 1%nat] (Some 0%nat) 2 Examples.two_nodes).
  - split; [reflexivity|]. eexists. split; [reflexivity|].
    split; [reflexivity|]. eexists. split; reflexivity.
  - simpl. lia.
  - vm_compute. discriminate.
Defined.

(** X2.  [kuhl_geometry_append(a, b)] on two null-terminated lists that
    share no node returns the head of their concatenation, which is [b]
    when [a] is null and [a] otherwise; the only change to the program
    state is the [next] pointer of the last node of [a], and nothing
    changes at all when either list is empty. *)
Theorem kuhl_geometry_append_concatenates :
  forall (ps qs : list nat) (a b : option nat) (fuel : nat) (w : world),
    chain (heap w) a ps -> chain (heap w) b qs ->
    (forall x, x ∈ ps -> x ∉ qs) ->
    (length ps <= fuel)%nat ->
    exists w',
      kuhl_geometry_append fuel a b w = Done (head_ptr (ps ++ qs)) w'
      /\ head_ptr (ps ++ qs) = match a with None => b | Some _ => a end
      /\ chain (heap w') (head_ptr (ps ++ qs)) (ps ++ qs)
      /\ dev w' = dev w /\ output w' = output w
      /\ (ps = [] \/ qs = [] -> w' = w)
      /\ (forall (l : nat) (g : kuhl_geometry),
             last ps = Some l -> heap w !! l = Some g -> qs <> [] ->
             heap w' = <[l := with_next b g]> (heap w)).
Proof. exact append_of_chains. Qed.

(** The theorem for the two single geometries of
    [MoreExamples.two_lists]. *)
Lemma kuhl_geometry_append_concatenates_witness :
  exists w',
    kuhl_geometry_append 1 (Some 0%nat) (Some 1%nat) MoreExamples.two_lists
    = Done (Some 0%nat) w'
    /\ chain (heap w') (Some 0%nat) [0%nat; 1%nat].
Proof.
  destruct (kuhl_geometry_append_concatenates [0%nat] [1%nat] (Some 0%nat) (Some 1%nat) 1
              MoreExamples.two_lists) as (w' & Hrun & _ & Hc & _).
  - split; [reflexivity|]. eexists. split; reflexivity.
  - split; [reflexivity|]. eexists. split; reflexivity.
  - intros x Hx Hx'. apply list_elem_of_singleton in Hx, Hx'. lia.
  - simpl. lia.
  - exists w'. split; [exact Hrun|exact Hc].
Defined.

(** X3.  The length of an appended list is the sum of the lengths of its
    two parts: [kuhl_geometry_count] of the pointer returned by
    [kuhl_geometry_append(a, b)] is the sum of the counts of [a] and of
    [b] taken before the call. *)
Theorem kuhl_geometry_count_append :
  forall (ps qs : list nat) (a b : option nat) (w : world),
    chain (heap w) a ps -> chain (heap w) b qs ->
    (forall x, x ∈ ps -> x ∉ qs) ->
    Z.of_nat (length ps + length qs) <= UINT_MAX ->
    exists (na nb : Z) (r : option nat) (w' : world),
      kuhl_geometry_count (length ps) a w = Done na w
      /\ kuhl_geometry_count (length qs) b w = Done nb w
      /\ kuhl_geometry_append (length ps) a b w = Done r w'
      /\ kuhl_geometry_count (length ps + length qs) r w' = Done (na + nb) w'.
Proof.
  intros ps qs a b w Ha Hb Hdis Hmax.
  destruct (append_of_chains ps qs a b (length ps) w Ha Hb Hdis ltac:(lia))
    as (w' & Hrun & _ & Hc & _).
  exists (Z.of_nat (length ps)), (Z.of_nat (length qs)), (head_ptr (ps ++ qs)), w'.
  split_and!.
  - apply count_of_chain; [done|lia|lia].
  - apply count_of_chain; [done|lia|lia].
  - exact Hrun.
  - rewrite <- Nat2Z.inj_add, <- length_app.
    apply count_of_chain; [done|rewrite length_app; lia|rewrite length_app; lia].
Qed.

(** The theorem for a list of two geometries appended to a single
    geometry. *)
Lemma kuhl_geometry_count_append_witness :
  exists (r : option nat) (w' : world),
    kuhl_geometry_append 1 (Some 2%nat) (Some 0%nat) MoreExamples.three_nodes = Done r w'
    /\ kuhl_geometry_count 3 r w' = Done 3 w'.
Proof.
  destruct (kuhl_geometry_count_append [2%nat] [0%nat; 1%nat] (Some 2%nat) (Some 0%nat)
              MoreExamples.three_nodes) as (na & nb & r & w' & Ha & Hb & Hrun & Hc).
  - split; [reflexivity|]. eexists. split; reflexivity.
  - split; [reflexivity|]. eexists. split; [reflexivity|].
    split; [reflexivity|]. eexists. split; reflexivity.
  - intros x Hx Hx'. apply list_elem_of_singleton in Hx. subst x.
    apply elem_of_cons in Hx' as [Hx'|Hx']; [lia|].
    apply list_elem_of_singleton in Hx'. lia.
  - vm_compute. discriminate.
  - exists r, w'. split; [exact Hrun|].
    vm_compute in Ha. vm_compute in Hb.
    injection Ha as <-. injection Hb as <-. exact Hc.
Defined.

(** X4.  [kuhl_geometry_append] does not check that its arguments are
    different lists: appending a non-empty list to itself makes the
    last node point back to the first, after which
    [kuhl_geometry_count] never returns. *)
Theorem kuhl_geometry_append_to_itself_cycles :
  forall (ps : list nat) (a : option nat) (fuel : nat) (w : world),
    chain (heap w) a ps -> ps <> [] ->
    (length ps <= fuel)%nat ->
    exists w',
      kuhl_geometry_append fuel a a w = Done a w'
      /\ forall fuel', kuhl_geometry_count fuel' a w' = OutOfFuel.
Proof.
  intros [|p rest] a fuel w Hc Hne Hfuel; [done|].
  assert (Hf : a = Some p) by (destruct Hc; done). subst a.
  destruct (last_node_chain w rest p fuel Hc ltac:(simpl in Hfuel; lia))
    as (l & gl & Hl & Hgl & Hnl & Hrun).
  eexists. unfold kuhl_geometry_append. rewrite (bind_Done _ _ _ _ _ Hrun).
  run. rewrite Hgl. run. split; [reflexivity|].
  intros fuel'. unfold kuhl_geometry_count.
  apply (count_loop_diverges _ (p :: rest)); [|left].
  intros x Hx. cbn [heap].
  destruct (decide (x = l)) as [->|Hxl].
  - exists (with_next (Some p) gl), p. rewrite lookup_insert_eq.
    split_and!; [done|done|left].
  - destruct (chain_step _ _ _ x Hc Hx) as (g & Hg & [[_ Hlast] | (y & Hy & Hin)]).
    + congruence.
    + exists g, y. rewrite lookup_insert_ne by done. done.
Qed.

(** The theorem for the single geometry of [Examples.one_node]. *)
Lemma kuhl_geometry_append_to_itself_cycles_witness :
  exists w',
    kuhl_geometry_append 1 (Some 0%nat) (Some 0%nat) Examples.one_node
    = Done (Some 0%nat) w'
    /\ forall fuel', kuhl_geometry_count fuel' (Some 0%nat) w' = OutOfFuel.
Proof.
  apply (kuhl_geometry_append_to_itself_cycles [0%nat] (Some 0%nat) 1 Examples.one_node).
  - split; [reflexivity|]. eexists. split; reflexivity.
  - discriminate.
  - simpl. lia.
Defined.

(** ** Looking attributes up by name *)

Import DeviceData.

(** The search of [kuhl_geometry_attrib_index] over named slots ends,
    and it finds the first slot that carries the name. *)
Lemma attrib_scan_first (nm : string) :
  forall (slots : list kuhl_attrib) (n i : nat),
    (n <= length slots)%nat ->
    (forall k a, (k < n)%nat -> slots !! k = Some a -> is_set (attrib_name a) = true) ->
    exists r, attrib_scan slots n i nm = Some r
      /\ ((r = -1
           /\ forall k a, (k < n)%nat -> slots !! k = Some a -> attrib_name a <> Some nm)
          \/ exists k a, r = Z.of_nat (i + k) /\ (k < n)%nat /\ slots !! k = Some a
                         /\ attrib_name a = Some nm
                         /\ forall j b, (j < k)%nat -> slots !! j = Some b ->
                                        attrib_name b <> Some nm).
Proof.
  induction slots as [|s slots IH]; intros n i Hlen Hnames.
  - simpl in Hlen. assert (n = 0%nat) as -> by lia. exists (-1). split; [done|].
    left. split; [done|]. intros; lia.
  - destruct n as [|n]; simpl.
    { exists (-1). split; [done|]. left. split; [done|]. intros; lia. }
    pose proof (Hnames 0%nat s ltac:(lia) eq_refl) as Hs.
    destruct (attrib_name s) as [sn|] eqn:Es; [|discriminate].
    destruct (String.eqb nm sn) eqn:E.
    + apply String.eqb_eq in E. subst sn. exists (Z.of_nat i). split; [done|].
      right. exists 0%nat, s. split_and!; try done; [f_equal; lia|lia|intros; lia].
    + apply String.eqb_neq in E.
      destruct (IH n (S i)) as (r & Hr & Hcase).
      * simpl in Hlen. lia.
      * intros k a Hk Ha. apply (Hnames (S k)); [lia|done].
      * exists r. split; [done|].
        destruct Hcase as [[-> Hno] | (k & a & -> & Hk & Ha & Hnm & Hfirst)].
        -- left. split; [done|]. intros [|k] a Hk Ha; simpl in Ha.
           ++ injection Ha as <-. congruence.
           ++ apply (Hno k); [lia|done].
        -- right. exists (S k), a. split_and!; try done; [f_equal; lia|lia|].
           intros [|j] b Hj Hb; simpl in Hb.
           ++ injection Hb as <-. congruence.
           ++ apply (Hfirst j); [lia|done].
Qed.

(** Writing the name into the slot that the search found does not
    change what the search finds. *)
Lemma attrib_scan_insert_found (nm : string) (b : Z) :
  forall (slots : list kuhl_attrib) (n i k : nat),
    attrib_scan slots n i nm = Some (Z.of_nat (i + k)) ->
    attrib_scan (<[k := Attrib (Some nm) b]> slots) n i nm = Some (Z.of_nat (i + k)).
Proof.
  induction slots as [|s slots IH]; intros n i k H; [done|].
  destruct n as [|n]; [simpl in H; injection H; lia|].
  simpl in H. destruct (attrib_name s) as [sn|] eqn:Es; [|discriminate].
  destruct (String.eqb nm sn) eqn:E.
  - injection H as H. assert (k = 0%nat) as -> by lia.
    simpl. rewrite String.eqb_refl. f_equal. f_equal. lia.
  - destruct (attrib_scan_found _ _ _ _ _ H) as [[Hr _] | (k' & a & Hr & _)]; [lia|].
    assert (k = S k') as -> by lia.
    simpl. rewrite Es, E. replace (i + S k')%nat with (S i + k')%nat in * by lia.
    by apply IH.
Qed.

(** Writing a new name into the first free slot makes the search find
    it there. *)
Lemma attrib_scan_insert_new (nm : string) (b : Z) :
  forall (slots : list kuhl_attrib) (n i : nat),
    attrib_scan slots n i nm = Some (-1) ->
    (n < length slots)%nat ->
    attrib_scan (<[n := Attrib (Some nm) b]> slots) (S n) i nm = Some (Z.of_nat (i + n)).
Proof.
  induction slots as [|s slots IH]; intros n i H Hlen; [simpl in Hlen; lia|].
  destruct n as [|n].
  - simpl. rewrite String.eqb_refl. f_equal. f_equal. lia.
  - simpl in H. destruct (attrib_name s) as [sn|] eqn:Es; [|discriminate].
    destruct (String.eqb nm sn) eqn:E; [injection H; lia|].
    cbn [list_insert attrib_scan]. change (<[S n:=?x]> (s :: slots)) with (s :: <[n:=x]> slots).
    cbn [attrib_scan]. rewrite Es, E.
    replace (i + S n)%nat with (S i + n)%nat by lia.
    apply IH; [done|simpl in Hlen; lia].
Qed.

Lemma glGenBuffers_bound (c : command) (v : Z) (d : device) :
  glGenBuffers (issue c (glBindVertexArray v d)) = glGenBuffers d.
Proof. unfold glGenBuffers, glBindVertexArray. by destruct (v =? 0). Qed.

(** A call of [kuhl_geometry_attrib] with usable arguments that returns
    has stored the attribute: in a new slot at the end when the name was
    not there, in the slot of that name otherwise, after deleting the
    buffer that the slot held. *)
Lemma kuhl_geometry_attrib_stores (MAX_ATTRIBUTES : nat) (p : nat) (g : kuhl_geometry)
    (floats : list Q) (comps : nat) (nm : string) (warn : Z) (w w' : world) :
  heap w !! p = Some g ->
  nm <> EmptyString -> comps <> 0%nat ->
  glIsVertexArray (dev w) (vao g) = true ->
  glGetAttribLocation (dev w) (program g) nm <> -1 ->
  kuhl_geometry_attrib MAX_ATTRIBUTES (Some p) (Some floats) comps (Some nm) warn w
  = Done tt w' ->
  exists (k : nat) (d0 : device),
    output w' = output w
    /\ dev w' = attrib_upload (vao g) (glGetAttribLocation (dev w) (program g) nm)
                              (glGenBuffers d0) (take (vertex_count g * comps) floats)
                              comps d0
    /\ k <> MAX_ATTRIBUTES /\ (k < length (attribs g))%nat
    /\ ((attrib_scan (attribs g) (attrib_count g) 0 nm = Some (-1)
         /\ k = attrib_count g /\ d0 = dev w
         /\ heap w' = <[p := attrib_written g k nm (glGenBuffers d0) (S k)]> (heap w))
        \/ (exists old,
              attrib_scan (attribs g) (attrib_count g) 0 nm = Some (Z.of_nat k)
              /\ (k < attrib_count g)%nat /\ attribs g !! k = Some old
              /\ d0 = (if glIsBuffer (dev w) (bufferobject old)
                       then glDeleteBuffers (bufferobject old) (dev w) else dev w)
              /\ heap w' = <[p := attrib_written g k nm (glGenBuffers d0) (attrib_count g)]>
                             (heap w))).
Proof.
  intros Hg Hnm Hc Hv Hloc H. unfold kuhl_geometry_attrib in H.
  apply String.eqb_neq in Hnm. rewrite Hnm in H.
  apply Nat.eqb_neq in Hc. rewrite Hc in H.
  run. rewrite Hg in H. run. rewrite Hv in H. run.
  apply Z.eqb_neq in Hloc. rewrite Hloc in H.
  unfold kuhl_geometry_attrib_index in H. run. rewrite Hg in H. run.
  destruct (attrib_scan (attribs g) (attrib_count g) 0 nm) as [found|] eqn:Escan;
    [|discriminate].
  destruct (attrib_scan_found _ _ _ _ _ Escan)
    as [[-> Hno] | (k & a & -> & Hk & Ha & Hname)].
  - change (-1 <? 0) with true in H. run. rewrite Hg in H. run.
    destruct (attrib_count g =? MAX_ATTRIBUTES)%nat eqn:Emax; [discriminate|].
    apply Nat.eqb_neq in Emax.
    unfold set_attrib_slot in H. run.
    cbn [attribs attrib_count with_attribs with_attrib_count] in H.
    destruct (attribs g !! attrib_count g) as [slot|] eqn:Eslot; [|discriminate].
    run. cbn [attribs attrib_count with_attribs with_attrib_count] in H.
    apply lookup_lt_Some in Eslot as Hlt.
    rewrite list_lookup_insert_eq in H by done. run.
    rewrite !glGenBuffers_bound in H.
    injection H as <-. exists (attrib_count g), (dev w). cbn [dev heap output].
    split_and!; try done. left. split_and!; try done.
    rewrite insert_insert_eq, insert_insert_eq.
    f_equal. unfold attrib_written.
    cbn [attribs attrib_count with_attribs with_attrib_count attrib_name bufferobject].
    rewrite list_insert_insert_eq. reflexivity.
  - cbn [Nat.add] in H.
    assert (Hge : (Z.of_nat k <? 0) = false) by (apply Z.ltb_ge; lia).
    rewrite Hge, Nat2Z.id, Ha in H.
    apply lookup_lt_Some in Ha as Hlt.
    exists k.
    destruct (glIsBuffer (dev w) (bufferobject a)) eqn:Elive; run;
      (destruct (k =? MAX_ATTRIBUTES)%nat eqn:Emax; [discriminate|]);
      apply Nat.eqb_neq in Emax;
      unfold set_attrib_slot in H; run; rewrite Hg in H; run;
      rewrite Ha in H; run;
      cbn [attribs attrib_count with_attribs with_attrib_count] in H;
      rewrite list_lookup_insert_eq in H by done; run;
      rewrite !glGenBuffers_bound in H;
      injection H as <-; eexists; cbn [dev heap output];
      (split; [done|]); (split; [reflexivity|]); (split; [done|]); (split; [done|]);
      right; exists a; (split_and!; try done; [by rewrite Elive|]);
      rewrite insert_insert_eq;
      f_equal; unfold attrib_written;
      cbn [attribs attrib_count with_attribs with_attrib_count attrib_name bufferobject];
      rewrite list_insert_insert_eq; destruct g; reflexivity.
Qed.

(** ** Attributes: lookup after insertion *)

Lemma unused_name_fresh (used : gset Z) : unused_name used ∉ used.
Proof.
  unfold unused_name.
  assert (H : forall x, x ∈ used -> x <= set_fold Z.max 0 used).
  { apply (set_fold_ind_L (fun r X => forall x, x ∈ X -> x <= r)); [set_solver|].
    intros y X r Hy IH x Hx. apply elem_of_union in Hx as [Hx|Hx].
    - apply elem_of_singleton in Hx. lia.
    - specialize (IH x Hx). lia. }
  intros Hin. specialize (H _ Hin). lia.
Qed.

(** What [attrib_upload] leaves behind in the device. *)
Lemma attrib_upload_facts (v loc b : Z) (data : list Q) (components : nat) (d0 : device) :
  b <> 0 ->
  buffers (attrib_upload v loc b data components d0) = {[b]} ∪ buffers d0
  /\ mapped_buffers (attrib_upload v loc b data components d0) = mapped_buffers d0
  /\ programs (attrib_upload v loc b data components d0) = programs d0
  /\ vertex_array_binding (attrib_upload v loc b data components d0) = 0
  /\ array_buffer_binding (attrib_upload v loc b data components d0) = 0
  /\ buffer_floats (attrib_upload v loc b data components d0) b = length data
  /\ (v ∈ vertex_arrays d0 ->
      vertex_arrays (attrib_upload v loc b data components d0) = vertex_arrays d0).
Proof.
  intros Hb. apply Z.eqb_neq in Hb.
  split_and!;
    unfold attrib_upload, glBindVertexArray, glBindBuffer_array, glVertexAttribPointer;
    change (0 =? 0) with true; cbv iota.
  - cbn. rewrite Hb. by destruct (v =? 0).
  - cbn. rewrite Hb. by destruct (v =? 0).
  - cbn. rewrite Hb. by destruct (v =? 0).
  - reflexivity.
  - reflexivity.
  - unfold buffer_floats. cbn [commands set_vertex_array_binding set_array_buffer_binding].
    rewrite Hb. cbn [commands issue set_array_buffer_binding set_buffers].
    rewrite !fold_left_app. cbn [fold_left]. by rewrite Z.eqb_refl.
  - intros Hv. cbn. rewrite Hb. destruct (v =? 0); cbn; [done|]. set_solver.
Qed.

(** The state after a call of [kuhl_geometry_attrib] with usable
    arguments that returns. *)
Lemma kuhl_geometry_attrib_post (MAX_ATTRIBUTES : nat) (p : nat) (g : kuhl_geometry)
    (floats : list Q) (comps : nat) (nm : string) (warn : Z) (w w' : world) :
  heap w !! p = Some g ->
  nm <> EmptyString -> comps <> 0%nat ->
  glIsVertexArray (dev w) (vao g) = true ->
  glGetAttribLocation (dev w) (program g) nm <> -1 ->
  kuhl_geometry_attrib MAX_ATTRIBUTES (Some p) (Some floats) comps (Some nm) warn w
  = Done tt w' ->
  exists (k n : nat) (b : Z),
    heap w' = <[p := attrib_written g k nm b n]> (heap w)
    /\ attrib_scan (<[k := Attrib (Some nm) b]> (attribs g)) n 0 nm = Some (Z.of_nat k)
    /\ (k < n)%nat /\ (k < length (attribs g))%nat
    /\ ((k = attrib_count g /\ n = S k) \/ n = attrib_count g)
    /\ b <> 0 /\ b ∈ buffers (dev w')
    /\ vao g ∈ vertex_arrays (dev w')
    /\ buffer_floats (dev w') b = length (take (vertex_count g * comps) floats)
    /\ vertex_array_binding (dev w') = 0 /\ array_buffer_binding (dev w') = 0
    /\ mapped_buffers (dev w') ⊆ mapped_buffers (dev w)
    /\ programs (dev w') = programs (dev w).
Proof.
  intros Hg Hnm Hc Hv Hloc H.
  destruct (kuhl_geometry_attrib_stores _ _ _ _ _ _ _ _ _ Hg Hnm Hc Hv Hloc H)
    as (k & d0 & _ & Hdev & _ & Hlen & Hcase).
  assert (Hb : glGenBuffers d0 <> 0).
  { pose proof (unused_name_pos (buffers d0)). unfold glGenBuffers. lia. }
  destruct (attrib_upload_facts (vao g) (glGetAttribLocation (dev w) (program g) nm)
              (glGenBuffers d0) (take (vertex_count g * comps) floats) comps d0 Hb)
    as (Hbufs & Hmapped & Hprogs & Hvb & Hab & Hfloats & Hvaos).
  rewrite <- Hdev in *. apply glIsVertexArray_true in Hv.
  assert (Hd0 : vertex_arrays d0 = vertex_arrays (dev w)
                /\ mapped_buffers d0 ⊆ mapped_buffers (dev w)
                /\ programs d0 = programs (dev w)).
  { destruct Hcase as [(_ & _ & -> & _) | (old & _ & _ & _ & -> & _)]; [done|].
    destruct (glIsBuffer (dev w) (bufferobject old)); [|done].
    cbn. split_and!; [done|set_solver|done]. }
  destruct Hd0 as (Hva0 & Hm0 & Hp0).
  destruct Hcase as [(Hscan & -> & _ & Hheap) | (old & Hscan & Hk & _ & _ & Hheap)].
  - exists (attrib_count g), (S (attrib_count g)), (glGenBuffers d0).
    split_and!; try done; try lia.
    + by apply (attrib_scan_insert_new nm _ (attribs g) (attrib_count g) 0%nat).
    + rewrite Hbufs. set_solver.
    + rewrite Hvaos; by rewrite Hva0.
    + by rewrite Hmapped.
    + congruence.
  - exists k, (attrib_count g), (glGenBuffers d0).
    split_and!; try done; try lia.
    + by apply (attrib_scan_insert_found nm _ (attribs g) (attrib_count g) 0%nat k).
    + rewrite Hbufs. set_solver.
    + rewrite Hvaos; by rewrite Hva0.
    + by rewrite Hmapped.
    + congruence.
Qed.

(** X5.  On a geometry whose slots in use all carry a name,
    [kuhl_geometry_attrib_index] changes nothing and returns -1 exactly
    when no slot in use carries the name; otherwise it returns the index
    of the first slot in use that does. *)
Theorem kuhl_geometry_attrib_index_first_match :
  forall (p : nat) (g : kuhl_geometry) (nm : string) (w : world),
    heap w !! p = Some g ->
    (attrib_count g <= length (attribs g))%nat ->
    (forall k a, (k < attrib_count g)%nat -> attribs g !! k = Some a ->
                 is_set (attrib_name a) = true) ->
    exists r,
      kuhl_geometry_attrib_index (Some p) (Some nm) w = Done r w
      /\ ((r = -1
           /\ forall k a, (k < attrib_count g)%nat -> attribs g !! k = Some a ->
                          attrib_name a <> Some nm)
          \/ exists k a,
               r = Z.of_nat k /\ (k < attrib_count g)%nat /\ attribs g !! k = Some a
               /\ attrib_name a = Some nm
               /\ forall j b, (j < k)%nat -> attribs g !! j = Some b ->
                              attrib_name b <> Some nm).
Proof.
  intros p g nm w Hg Hlen Hnames.
  destruct (attrib_scan_first nm (attribs g) (attrib_count g) 0 Hlen Hnames)
    as (r & Hr & Hcase).
  exists r. split; [|exact Hcase].
  unfold kuhl_geometry_attrib_index. run. rewrite Hg. run. by rewrite Hr.
Qed.

(** The theorem for the second of the two attributes of
    [Examples.full_geometry]. *)
Lemma kuhl_geometry_attrib_index_first_match_witness :
  exists r,
    kuhl_geometry_attrib_index (Some 0%nat) (Some "in_Color"%string) Examples.full_node
    = Done r Examples.full_node
    /\ ((r = -1
         /\ forall k a, (k < 2)%nat -> attribs Examples.full_geometry !! k = Some a ->
                        attrib_name a <> Some "in_Color"%string)
        \/ exists k a,
             r = Z.of_nat k /\ (k < 2)%nat /\ attribs Examples.full_geometry !! k = Some a
             /\ attrib_name a = Some "in_Color"%string
             /\ forall j b, (j < k)%nat -> attribs Examples.full_geometry !! j = Some b ->
                            attrib_name b <> Some "in_Color"%string).
Proof.
  apply (kuhl_geometry_attrib_index_first_match 0 Examples.full_geometry "in_Color"
           Examples.full_node).
  - reflexivity.
  - simpl. lia.
  - intros [|[|k]] a Hk Ha; simpl in Hk; try lia; injection Ha as <-; reflexivity.
Defined.

(** X6.  Insert then look up: after a call of [kuhl_geometry_attrib]
    with a non-empty name that is active in the program, at least one
    component and a live vertex array has returned,
    [kuhl_geometry_attrib_index] finds the name in a slot in use, and
    that slot holds a live, non-zero buffer. *)
Theorem kuhl_geometry_attrib_then_index :
  forall (MAX_ATTRIBUTES : nat) (p : nat) (g : kuhl_geometry) (floats : list Q)
         (comps : nat) (nm : string) (warn : Z) (w w' : world),
    heap w !! p = Some g ->
    nm <> EmptyString -> comps <> 0%nat ->
    glIsVertexArray (dev w) (vao g) = true ->
    glGetAttribLocation (dev w) (program g) nm <> -1 ->
    kuhl_geometry_attrib MAX_ATTRIBUTES (Some p) (Some floats) comps (Some nm) warn w
    = Done tt w' ->
    exists (k : nat) (g' : kuhl_geometry) (a : kuhl_attrib),
      kuhl_geometry_attrib_index (Some p) (Some nm) w' = Done (Z.of_nat k) w'
      /\ heap w' !! p = Some g' /\ (k < attrib_count g')%nat
      /\ attribs g' !! k = Some a /\ attrib_name a = Some nm
      /\ bufferobject a <> 0 /\ glIsBuffer (dev w') (bufferobject a) = true.
Proof.
  intros MAX p g floats comps nm warn w w' Hg Hnm Hc Hv Hloc H.
  destruct (kuhl_geometry_attrib_post _ _ _ _ _ _ _ _ _ Hg Hnm Hc Hv Hloc H)
    as (k & n & b & Hheap & Hscan & Hk & Hlen & _ & Hb & Hlive & _).
  exists k, (attrib_written g k nm b n), (Attrib (Some nm) b).
  assert (Hg' : heap w' !! p = Some (attrib_written g k nm b n)).
  { rewrite Hheap. apply lookup_insert_eq. }
  split_and!; try done.
  - unfold kuhl_geometry_attrib_index. run. rewrite Hg'. run.
    unfold attrib_written. cbn [attribs attrib_count with_attribs with_attrib_count].
    by rewrite Hscan.
  - unfold attrib_written. cbn [attribs with_attribs].
    by apply list_lookup_insert_eq.
  - by apply glIsBuffer_true.
Qed.

(** The theorem for a position attribute added to the fresh geometry
    of [Examples.one_node]. *)
Lemma kuhl_geometry_attrib_then_index_witness :
  exists (w' : world) (k : nat),
    kuhl_geometry_attrib 2 (Some 0%nat) (Some MoreExamples.nine_floats) 3
                         (Some "in_Position"%string) 0 Examples.one_node = Done tt w'
    /\ kuhl_geometry_attrib_index (Some 0%nat) (Some "in_Position"%string) w'
       = Done (Z.of_nat k) w'.
Proof.
  eexists.
  assert (Hrun : kuhl_geometry_attrib 2 (Some 0%nat) (Some MoreExamples.nine_floats) 3
                   (Some "in_Position"%string) 0 Examples.one_node = Done tt _)
    by (vm_compute; reflexivity).
  destruct (kuhl_geometry_attrib_then_index 2 0 (Examples.fresh_geometry 1 None)
              MoreExamples.nine_floats 3 "in_Position" 0 Examples.one_node _
              eq_refl ltac:(discriminate) ltac:(discriminate) eq_refl
              ltac:(vm_compute; discriminate) Hrun)
    as (k & g' & a & Hidx & _).
  exists k. split; [exact Hrun|exact Hidx].
Defined.

(** X7.  A call of [kuhl_geometry_attrib] that stores an attribute
    creates exactly one buffer, whose name was not in use, and when the
    name was already present it deletes the buffer that the slot of that
    name held before: replacing an attribute does not leave the old
    buffer behind.  Both the array target and the vertex array binding
    are left at 0. *)
Theorem kuhl_geometry_attrib_replaces_buffer :
  forall (MAX_ATTRIBUTES : nat) (p : nat) (g : kuhl_geometry) (floats : list Q)
         (comps : nat) (nm : string) (warn : Z) (w w' : world),
    heap w !! p = Some g ->
    nm <> EmptyString -> comps <> 0%nat ->
    glIsVertexArray (dev w) (vao g) = true ->
    glGetAttribLocation (dev w) (program g) nm <> -1 ->
    kuhl_geometry_attrib MAX_ATTRIBUTES (Some p) (Some floats) comps (Some nm) warn w
    = Done tt w' ->
    exists (k : nat) (b : Z) (g' : kuhl_geometry),
      heap w' !! p = Some g' /\ attribs g' !! k = Some (Attrib (Some nm) b)
      /\ b <> 0
      /\ array_buffer_binding (dev w') = 0 /\ vertex_array_binding (dev w') = 0
      /\ ((attrib_scan (attribs g) (attrib_count g) 0 nm = Some (-1)
           /\ (b ∉ buffers (dev w))
           /\ buffers (dev w') = {[b]} ∪ buffers (dev w))
          \/ (exists old,
                attrib_scan (attribs g) (attrib_count g) 0 nm = Some (Z.of_nat k)
                /\ attribs g !! k = Some old
                /\ (b ∉ buffers (dev w) ∖ {[bufferobject old]})
                /\ buffers (dev w') = {[b]} ∪ (buffers (dev w) ∖ {[bufferobject old]}))).
Proof.
  intros MAX p g floats comps nm warn w w' Hg Hnm Hc Hv Hloc H.
  destruct (kuhl_geometry_attrib_stores _ _ _ _ _ _ _ _ _ Hg Hnm Hc Hv Hloc H)
    as (k & d0 & _ & Hdev & _ & Hlen & Hcase).
  assert (Hb : glGenBuffers d0 <> 0).
  { pose proof (unused_name_pos (buffers d0)). unfold glGenBuffers. lia. }
  pose proof (unused_name_fresh (buffers d0)) as Hfresh.
  change (unused_name (buffers d0)) with (glGenBuffers d0) in Hfresh.
  destruct (attrib_upload_facts (vao g) (glGetAttribLocation (dev w) (program g) nm)
              (glGenBuffers d0) (take (vertex_count g * comps) floats) comps d0 Hb)
    as (Hbufs & _ & _ & Hvb & Hab & _).
  rewrite <- Hdev in *.
  exists k, (glGenBuffers d0).
  destruct Hcase as [(Hscan & -> & -> & Hheap) | (old & Hscan & Hk & Hold & Hd0 & Hheap)].
  - eexists. rewrite Hheap, lookup_insert_eq. split; [reflexivity|].
    split_and!; try done.
    + unfold attrib_written. cbn [attribs with_attribs]. by apply list_lookup_insert_eq.
    + left. done.
  - eexists. rewrite Hheap, lookup_insert_eq. split; [reflexivity|].
    split_and!; try done.
    + unfold attrib_written. cbn [attribs with_attribs]. by apply list_lookup_insert_eq.
    + right. exists old.
      assert (Hbuf0 : buffers d0 = buffers (dev w) ∖ {[bufferobject old]}).
      { rewrite Hd0. destruct (glIsBuffer (dev w) (bufferobject old)) eqn:Elive.
        - reflexivity.
        - apply glIsBuffer_false in Elive. clear - Elive. set_solver. }
      split_and!; try done.
      * by rewrite <- Hbuf0.
      * by rewrite <- Hbuf0.
Qed.

(** The theorem for the position attribute of
    [MoreExamples.positioned_node], whose buffer 6 is replaced. *)
Lemma kuhl_geometry_attrib_replaces_buffer_witness :
  exists (w' : world) (b : Z),
    kuhl_geometry_attrib 2 (Some 0%nat) (Some MoreExamples.nine_floats) 3
                         (Some "in_Position"%string) 0 MoreExamples.positioned_node
    = Done tt w'
    /\ b <> 0
    /\ buffers (dev w') = {[b]} ∪ (buffers (dev MoreExamples.positioned_node) ∖ {[6]}).
Proof.
  eexists.
  assert (Hrun : kuhl_geometry_attrib 2 (Some 0%nat) (Some MoreExamples.nine_floats) 3
                   (Some "in_Position"%string) 0 MoreExamples.positioned_node = Done tt _)
    by (vm_compute; reflexivity).
  destruct (kuhl_geometry_attrib_replaces_buffer 2 0 Examples.textured_geometry
              MoreExamples.nine_floats 3 "in_Position" 0 MoreExamples.positioned_node _
              eq_refl ltac:(discriminate) ltac:(discriminate) eq_refl
              ltac:(vm_compute; discriminate) Hrun)
    as (k & b & g' & _ & _ & Hb & _ & _ & [(Hscan & _) | (old & Hscan & Hold & _ & Hbufs)]).
  - vm_compute in Hscan. discriminate.
  - exists b. split; [exact Hrun|]. split; [exact Hb|].
    assert (Hs : attrib_scan (attribs Examples.textured_geometry)
                   (attrib_count Examples.textured_geometry) 0 "in_Position" = Some 0)
      by reflexivity.
    rewrite Hs in Hscan. injection Hscan as Hk.
    assert (k = 0%nat) as -> by lia.
    change (attribs Examples.textured_geometry !! 0%nat)
      with (Some (Attrib (Some "in_Position"%string) 6)) in Hold.
    injection Hold as <-. exact Hbufs.
Defined.

(** ** Reading attribute data back *)

Import AttribData.

Lemma buffer_floats_bound (b v : Z) (d : device) (x : Z) :
  buffer_floats (glBindBuffer_array b (glBindVertexArray v d)) x = buffer_floats d x.
Proof.
  unfold buffer_floats, glBindBuffer_array, glBindVertexArray.
  by destruct (b =? 0), (v =? 0).
Qed.

Lemma is_mapped_true (d : device) (b : Z) : is_mapped d b = true <-> b ∈ mapped_buffers d.
Proof. unfold is_mapped. apply bool_decide_eq_true. Qed.

(** The device after [kuhl_geometry_attrib_get] has mapped the buffer
    [b] of the vertex array [v]. *)
Lemma attrib_get_device (b v : Z) (d : device) :
  b <> 0 ->
  let d1 := glBindBuffer_array b (glBindVertexArray v d) in
  let d2 := if negb (is_set (map_pointer d1)) then glMapBuffer_array d1 else d1 in
  map_pointer d2 = Some b
  /\ mapped_buffers d2 = {[b]} ∪ mapped_buffers d
  /\ commands d2 = commands d.
Proof.
  intros Hb d1 d2. apply Z.eqb_neq in Hb.
  assert (Hbind : array_buffer_binding d1 = b) by reflexivity.
  assert (Hm1 : mapped_buffers d1 = mapped_buffers d).
  { unfold d1, glBindBuffer_array, glBindVertexArray. rewrite Hb. by destruct (v =? 0). }
  assert (Hc1 : commands d1 = commands d).
  { unfold d1, glBindBuffer_array, glBindVertexArray. rewrite Hb. by destruct (v =? 0). }
  unfold d2, map_pointer. clearbody d1. clear d2. rewrite Hbind.
  destruct (is_mapped d1 b) eqn:E; cbn [is_set negb].
  - rewrite Hbind, E. apply is_mapped_true in E. split_and!; [done| |done].
    rewrite Hm1 in *. clear - E. set_solver.
  - unfold glMapBuffer_array. rewrite Hbind, Hb. cbn [array_buffer_binding set_mapped_buffers].
    rewrite Hbind.
    assert (Hin : is_mapped (set_mapped_buffers (fun s => {[b]} ∪ s) d1) b = true).
    { apply is_mapped_true. cbn. set_solver. }
    rewrite Hin. split_and!; [done| |done].
    cbn [mapped_buffers set_mapped_buffers]. by rewrite Hm1.
Qed.

(** X8.  Round trip of attribute data: after [kuhl_geometry_attrib] has
    stored an attribute from an array that holds at least
    [vertex_count * components] floats, [kuhl_geometry_attrib_get] for
    the same name returns a pointer into the buffer of that attribute
    and reports [vertex_count * components] floats.  The buffer is left
    mapped, both bindings are left at 0 and no geometry changes. *)
Theorem kuhl_geometry_attrib_get_after_attrib :
  forall (MAX_ATTRIBUTES : nat) (p : nat) (g : kuhl_geometry) (floats : list Q)
         (comps : nat) (nm : string) (warn : Z) (w w' : world),
    heap w !! p = Some g ->
    nm <> EmptyString -> comps <> 0%nat ->
    glIsVertexArray (dev w) (vao g) = true ->
    glGetAttribLocation (dev w) (program g) nm <> -1 ->
    (vertex_count g * comps <= length floats)%nat ->
    kuhl_geometry_attrib MAX_ATTRIBUTES (Some p) (Some floats) comps (Some nm) warn w
    = Done tt w' ->
    exists (k : nat) (b : Z) (g' : kuhl_geometry) (w'' : world),
      heap w' !! p = Some g' /\ attribs g' !! k = Some (Attrib (Some nm) b)
      /\ kuhl_geometry_attrib_get (Some p) (Some nm) true w'
         = Done (Some b, Z.of_nat (vertex_count g * comps)) w''
      /\ mapped_buffers (dev w'') = {[b]} ∪ mapped_buffers (dev w')
      /\ array_buffer_binding (dev w'') = 0 /\ vertex_array_binding (dev w'') = 0
      /\ heap w'' = heap w' /\ output w'' = output w'.
Proof.
  intros MAX p g floats comps nm warn w w' Hg Hnm Hc Hv Hloc Hdata H.
  destruct (kuhl_geometry_attrib_post _ _ _ _ _ _ _ _ _ Hg Hnm Hc Hv Hloc H)
    as (k & n & b & Hheap & Hscan & Hk & Hlen & _ & Hb & Hlive & Hvao & Hfloats & _).
  assert (Hg' : heap w' !! p = Some (attrib_written g k nm b n)).
  { rewrite Hheap. apply lookup_insert_eq. }
  assert (Hslot : attribs (attrib_written g k nm b n) !! k = Some (Attrib (Some nm) b)).
  { unfold attrib_written. cbn [attribs with_attribs]. by apply list_lookup_insert_eq. }
  rewrite length_take, Nat.min_l in Hfloats by done.
  destruct (attrib_get_device b (vao g) (dev w') Hb) as (Hptr & Hmapped & Hcmds).
  apply glIsBuffer_true in Hlive. apply glIsVertexArray_true in Hvao.
  assert (Hge : (Z.of_nat k <? 0) = false) by (apply Z.ltb_ge; lia).
  exists k, b, (attrib_written g k nm b n).
  destruct (negb (is_set (map_pointer
              (glBindBuffer_array b (glBindVertexArray (vao g) (dev w')))))) eqn:E;
    eexists; (split; [exact Hg'|]); (split; [exact Hslot|]);
    unfold kuhl_geometry_attrib_get, kuhl_geometry_attrib_index;
    run; rewrite Hg'; run;
    unfold attrib_written at 1 2;
    cbn [attribs attrib_count with_attribs with_attrib_count];
    rewrite Hscan; run;
    rewrite Hge, Hg'; run; rewrite Nat2Z.id, Hslot; run;
    change (vao (attrib_written g k nm b n)) with (vao g);
    cbn [bufferobject]; rewrite Hlive, Hvao; run;
    rewrite buffer_floats_bound;
    change (array_buffer_binding
              (glBindBuffer_array b (glBindVertexArray (vao g) (dev w')))) with b;
    rewrite Hfloats, E; run; rewrite Hptr; run;
    (split; [reflexivity|]); cbn [dev heap output]; split_and!; done.
Qed.

(** The theorem for the three vertices of [MoreExamples.nine_floats],
    stored as the position attribute of the geometry of
    [Examples.one_node]. *)
Lemma kuhl_geometry_attrib_get_after_attrib_witness :
  exists (w' w'' : world) (b : Z),
    kuhl_geometry_attrib 2 (Some 0%nat) (Some MoreExamples.nine_floats) 3
                         (Some "in_Position"%string) 0 Examples.one_node = Done tt w'
    /\ kuhl_geometry_attrib_get (Some 0%nat) (Some "in_Position"%string) true w'
       = Done (Some b, 9) w''.
Proof.
  eexists.
  assert (Hrun : kuhl_geometry_attrib 2 (Some 0%nat) (Some MoreExamples.nine_floats) 3
                   (Some "in_Position"%string) 0 Examples.one_node = Done tt _)
    by (vm_compute; reflexivity).
  destruct (kuhl_geometry_attrib_get_after_attrib 2 0 (Examples.fresh_geometry 1 None)
              MoreExamples.nine_floats 3 "in_Position" 0 Examples.one_node _
              eq_refl ltac:(discriminate) ltac:(discriminate) eq_refl
              ltac:(vm_compute; discriminate) ltac:(simpl; lia) Hrun)
    as (k & b & g' & w'' & _ & _ & Hget & _).
  exists w'', b. split; [exact Hrun|exact Hget].
Defined.

(** X9.  Asking [kuhl_geometry_attrib_get] for a name that no slot in
    use carries returns [NULL] with [*size] set to 0 and changes
    nothing. *)
Theorem kuhl_geometry_attrib_get_unknown_name :
  forall (p : nat) (g : kuhl_geometry) (nm : string) (size : bool) (w : world),
    heap w !! p = Some g ->
    (attrib_count g <= length (attribs g))%nat ->
    (forall k a, (k < attrib_count g)%nat -> attribs g !! k = Some a ->
                 is_set (attrib_name a) = true /\ attrib_name a <> Some nm) ->
    kuhl_geometry_attrib_get (Some p) (Some nm) size w = Done (None, 0) w.
Proof.
  intros p g nm size w Hg Hlen Hnames.
  destruct size; [|reflexivity].
  destruct (attrib_scan_first nm (attribs g) (attrib_count g) 0 Hlen
              (fun k a Hk Ha => proj1 (Hnames k a Hk Ha)))
    as (r & Hr & [[-> _] | (k & a & _ & Hk & Ha & Hnm & _)]).
  - unfold kuhl_geometry_attrib_get, kuhl_geometry_attrib_index.
    run. rewrite Hg. run. rewrite Hr. reflexivity.
  - by destruct (proj2 (Hnames k a Hk Ha)).
Qed.

(** The theorem for a name that [Examples.full_geometry] does not
    have. *)
Lemma kuhl_geometry_attrib_get_unknown_name_witness :
  kuhl_geometry_attrib_get (Some 0%nat) (Some "in_Position"%string) true Examples.full_node
  = Done (None, 0) Examples.full_node.
Proof.
  apply (kuhl_geometry_attrib_get_unknown_name 0 Examples.full_geometry).
  - reflexivity.
  - simpl. lia.
  - intros [|[|k]] a Hk Ha; simpl in Hk; try lia; injection Ha as <-;
      (split; [reflexivity|discriminate]).
Defined.

(** ** Drawing unmaps attribute buffers *)

Lemma maps_nothing_ret {A} (a : A) : maps_nothing (ret a).
Proof. intros w a' w' H. unfold ret in H. by injection H as _ <-. Qed.

Lemma maps_nothing_gl {A} (q : device -> A) : maps_nothing (gl q).
Proof. intros w a' w' H. unfold gl in H. by injection H as _ <-. Qed.

Lemma maps_nothing_msg (l : level) (text : string) (args : list Z) :
  maps_nothing (msg l text args).
Proof. intros w a' w' H. unfold msg in H. by injection H as _ <-. Qed.

Lemma maps_nothing_load (p : nat) : maps_nothing (load p).
Proof.
  intros w a' w' H. unfold load in H. destruct (heap w !! p); [|discriminate].
  by injection H as _ <-.
Qed.

Lemma maps_nothing_store (p : nat) (g : kuhl_geometry) : maps_nothing (store p g).
Proof. intros w a' w' H. unfold store in H. by injection H as _ <-. Qed.

Lemma maps_nothing_gl_do (f : device -> device) :
  (forall d, mapped_buffers (f d) ⊆ mapped_buffers d) -> maps_nothing (gl_do f).
Proof. intros Hf w a' w' H. unfold gl_do in H. injection H as _ <-. apply Hf. Qed.

Lemma maps_nothing_bind {A B} (m : M A) (k : A -> M B) :
  maps_nothing m -> (forall a, maps_nothing (k a)) -> maps_nothing (bind m k).
Proof.
  intros Hm Hk w b w' H. apply bind_Done_inv in H as (a & w1 & E1 & E2).
  specialize (Hm _ _ _ E1). specialize (Hk _ _ _ _ E2). set_solver.
Qed.

Lemma maps_nothing_when (b : bool) (m : M unit) : maps_nothing m -> maps_nothing (when b m).
Proof. intros Hm. destruct b; [done|apply maps_nothing_ret]. Qed.

Lemma maps_nothing_if {A} (b : bool) (m1 m2 : M A) :
  maps_nothing m1 -> maps_nothing m2 -> maps_nothing (if b then m1 else m2).
Proof. by destruct b. Qed.

Lemma maps_nothing_undefined {A} : maps_nothing (@undefined A).
Proof. intros w a w' H. discriminate. Qed.

Lemma maps_nothing_for_each {A} (l : list A) (body : A -> M unit) :
  (forall x, maps_nothing (body x)) -> maps_nothing (for_each l body).
Proof.
  intros Hbody. induction l as [|x l IH]; [apply maps_nothing_ret|].
  simpl. apply maps_nothing_bind; [apply Hbody|]. intros _. exact IH.
Qed.

(** The device calls of [kuhl_geometry_draw] map no buffer. *)
Ltac device_call_shrinks :=
  intros ?d;
  unfold glUseProgram, glActiveTexture, glBindTexture_2d, glBindVertexArray,
         glBindBuffer_array, glUnmapBuffer_array;
  repeat match goal with |- context [if ?c then _ else _] => destruct c end;
  cbn; set_solver.

Ltac maps_nothing_step :=
  first
    [ apply maps_nothing_ret | apply maps_nothing_gl | apply maps_nothing_msg
    | apply maps_nothing_load | apply maps_nothing_store | apply maps_nothing_undefined
    | apply maps_nothing_gl_do; device_call_shrinks
    | apply maps_nothing_when | apply maps_nothing_if
    | apply maps_nothing_for_each; intros ?
    | match goal with
      | |- maps_nothing (match ?x with _ => _ end) => destruct x
      end
    | apply maps_nothing_bind; [|intros ?] ].

Lemma maps_nothing_modify (p : nat) (f : kuhl_geometry -> kuhl_geometry) :
  maps_nothing (modify p f).
Proof. unfold modify. repeat maps_nothing_step. Qed.

Lemma maps_nothing_bind_textures (g : kuhl_geometry) :
  forall (slots : list nat) (hasTex : Z), maps_nothing (bind_textures g slots hasTex).
Proof.
  induction slots as [|i slots IH]; intros hasTex; [apply maps_nothing_ret|].
  simpl. destruct (textures g !! i) as [tex|]; [|apply maps_nothing_undefined].
  apply maps_nothing_bind; [apply maps_nothing_gl|]. intros live.
  apply maps_nothing_if; [apply IH|].
  destruct (texture_name tex) as [nm|]; [|apply maps_nothing_undefined].
  apply maps_nothing_bind; [apply maps_nothing_gl|]. intros loc.
  apply maps_nothing_if; [apply IH|].
  repeat (apply maps_nothing_bind; [apply maps_nothing_gl_do; device_call_shrinks|];
          intros _).
  apply IH.
Qed.

Lemma maps_nothing_unmap_attribs (g : kuhl_geometry) : maps_nothing (unmap_attribs g).
Proof. unfold unmap_attribs. repeat maps_nothing_step. Qed.

Lemma maps_nothing_unbind_textures (g : kuhl_geometry) : maps_nothing (unbind_textures g).
Proof. unfold unbind_textures. repeat maps_nothing_step. Qed.

Lemma maps_nothing_unmap_attribs_tail (g : kuhl_geometry) (l : list nat) :
  maps_nothing
    (for_each l (fun i =>
      match attribs g !! i with
      | None => undefined
      | Some a =>
          gl_do (glBindBuffer_array (bufferobject a)) ;;
          do bufferIsMapped <- gl (fun d => is_mapped d (array_buffer_binding d));
          when bufferIsMapped (gl_do glUnmapBuffer_array) ;;
          gl_do (glBindBuffer_array 0)
      end)).
Proof. repeat maps_nothing_step. Qed.

(** After the loop of [unmap_attribs] no buffer of a visited slot is
    mapped. *)
Lemma unmap_attribs_loop (g : kuhl_geometry) :
  forall (l : list nat) (w w' : world),
    for_each l (fun i =>
      match attribs g !! i with
      | None => undefined
      | Some a =>
          gl_do (glBindBuffer_array (bufferobject a)) ;;
          do bufferIsMapped <- gl (fun d => is_mapped d (array_buffer_binding d));
          when bufferIsMapped (gl_do glUnmapBuffer_array) ;;
          gl_do (glBindBuffer_array 0)
      end) w = Done tt w' ->
    forall i a, i ∈ l -> attribs g !! i = Some a -> bufferobject a ∉ mapped_buffers (dev w').
Proof.
  induction l as [|j l IH]; intros w w' H i a Hi Ha; [by apply elem_of_nil in Hi|].
  cbn [for_each] in H. apply bind_Done_inv in H as ([] & w1 & E1 & E2).
  apply elem_of_cons in Hi as [->|Hi]; [|by apply (IH w1 w' E2 i a)].
  assert (Hrest : mapped_buffers (dev w') ⊆ mapped_buffers (dev w1)).
  { revert E2. apply (maps_nothing_unmap_attribs_tail g l). }
  rewrite Ha in E1. run.
  assert (Hbind : forall d, array_buffer_binding (glBindBuffer_array (bufferobject a) d)
                            = bufferobject a) by reflexivity.
  rewrite Hbind in E1.
  destruct (is_mapped (glBindBuffer_array (bufferobject a) (dev w)) (bufferobject a))
    eqn:Em; run; injection E1 as <-; cbn [dev] in Hrest.
  - intros Hin. apply Hrest in Hin. revert Hin.
    unfold glUnmapBuffer_array, glBindBuffer_array.
    change (0 =? 0) with true. cbv iota.
    destruct (bufferobject a =? 0); cbn; set_solver.
  - intros Hin. apply Hrest in Hin. revert Hin.
    apply bool_decide_eq_false in Em. revert Em.
    unfold glBindBuffer_array. change (0 =? 0) with true. cbv iota.
    destruct (bufferobject a =? 0); cbn; set_solver.
Qed.

Ltac maps_nothing_draw_step :=
  first
    [ apply maps_nothing_bind_textures | apply maps_nothing_unmap_attribs
    | apply maps_nothing_unbind_textures | apply maps_nothing_modify
    | maps_nothing_step ].

Lemma maps_nothing_draw_body (MAX_BONES : nat) (draw_next : option nat -> M unit)
    (p : nat) :
  (forall nxt, maps_nothing (draw_next nxt)) ->
  maps_nothing (draw_body MAX_BONES draw_next p).
Proof.
  intros Hnext. unfold draw_body.
  repeat first [apply Hnext | maps_nothing_draw_step].
Qed.

Lemma maps_nothing_kuhl_geometry_draw (MAX_BONES : nat) :
  forall (fuel : nat) (geom : option nat),
    maps_nothing (kuhl_geometry_draw MAX_BONES fuel geom).
Proof.
  induction fuel as [|fuel IH]; intros geom; [intros w a w' H; discriminate|].
  cbn [kuhl_geometry_draw]. destruct geom as [p|]; [|apply maps_nothing_ret].
  apply maps_nothing_draw_body. apply IH.
Qed.

(** When [draw_body] finds a valid program and vertex array and
    returns, no attribute buffer of the geometry is mapped any more. *)
Lemma draw_body_unmaps (MAX_BONES : nat) (draw_next : option nat -> M unit) (p : nat)
    (g : kuhl_geometry) (w w' : world) :
  (forall nxt, maps_nothing (draw_next nxt)) ->
  heap w !! p = Some g ->
  glIsProgram (dev w) (program g) = true ->
  glIsVertexArray (dev w) (vao g) = true ->
  draw_body MAX_BONES draw_next p w = Done tt w' ->
  forall k a, (k < attrib_count g)%nat -> attribs g !! k = Some a ->
              bufferobject a ∉ mapped_buffers (dev w').
Proof.
  intros Hnext Hg Hprog Hvao H k a Hk Ha. unfold draw_body in H.
  do 4 (apply bind_Done_inv in H as (? & ? & E & H); unfold gl in E;
        injection E as <- <-; cbv beta in H).
  apply bind_Done_inv in H as (g0 & w1 & E & H). unfold load in E.
  rewrite Hg in E. injection E as <- <-.
  do 2 (apply bind_Done_inv in H as (? & ? & E & H); unfold gl in E;
        injection E as <- <-; cbv beta in H).
  rewrite Hprog, Hvao in H. cbn [negb orb] in H.
  do 11 (apply bind_Done_inv in H as (? & ? & _ & H); cbv beta in H).
  apply bind_Done_inv in H as ([] & wu & E & H).
  unfold unmap_attribs in E.
  pose proof (unmap_attribs_loop g _ _ _ E k a) as Hun.
  assert (Hrest : mapped_buffers (dev w') ⊆ mapped_buffers (dev wu)).
  { revert H. generalize wu tt w'. change (maps_nothing ?m) with (maps_nothing m).
    match goal with |- forall w0 u w1, ?m w0 = Done u w1 -> _ =>
      change (maps_nothing m) end.
    repeat first [apply Hnext | maps_nothing_draw_step]. }
  intros Hin. apply Hrest in Hin. revert Hin. apply Hun; [|done].
  apply elem_of_seq. lia.
Qed.

(** X10.  [kuhl_geometry_draw] never maps a buffer, and when the first
    geometry has a valid program and a valid vertex array, none of its
    attribute buffers is mapped any more when the call returns: a
    pointer obtained from [kuhl_geometry_attrib_get] does not survive a
    draw. *)
Theorem kuhl_geometry_draw_unmaps_attributes :
  forall (MAX_BONES : nat) (fuel : nat) (p : nat) (g : kuhl_geometry) (w w' : world),
    heap w !! p = Some g ->
    glIsProgram (dev w) (program g) = true ->
    glIsVertexArray (dev w) (vao g) = true ->
    kuhl_geometry_draw MAX_BONES fuel (Some p) w = Done tt w' ->
    mapped_buffers (dev w') ⊆ mapped_buffers (dev w)
    /\ forall k a, (k < attrib_count g)%nat -> attribs g !! k = Some a ->
                   bufferobject a ∉ mapped_buffers (dev w').
Proof.
  intros MB fuel p g w w' Hg Hprog Hvao H. split.
  - by apply (maps_nothing_kuhl_geometry_draw MB fuel (Some p) w tt w').
  - destruct fuel as [|fuel]; [discriminate|]. cbn [kuhl_geometry_draw] in H.
    apply (draw_body_unmaps MB (kuhl_geometry_draw MB fuel) p g w w'); try done.
    apply maps_nothing_kuhl_geometry_draw.
Qed.

(** The theorem for the geometry of [MoreExamples.mapped_node], whose
    position buffer 6 is mapped before the draw. *)
Lemma kuhl_geometry_draw_unmaps_attributes_witness :
  exists w',
    kuhl_geometry_draw 4 2 (Some 0%nat) MoreExamples.mapped_node = Done tt w'
    /\ 6 ∈ mapped_buffers (dev MoreExamples.mapped_node)
    /\ 6 ∉ mapped_buffers (dev w').
Proof.
  eexists.
  assert (Hrun : kuhl_geometry_draw 4 2 (Some 0%nat) MoreExamples.mapped_node = Done tt _)
    by (vm_compute; reflexivity).
  split; [exact Hrun|]. split; [vm_compute; set_solver|].
  apply (proj2 (kuhl_geometry_draw_unmaps_attributes 4 2 0 Examples.textured_geometry
                  MoreExamples.mapped_node _ eq_refl eq_refl eq_refl Hrun)
               0%nat (Attrib (Some "in_Position"%string) 6)).
  - simpl. lia.
  - reflexivity.
Defined.

(** ** Changing the program of a geometry *)

Import Programs.

Section ProgramProofs.

Variable KG_FULL_LIST : Z.
Variable link_status : device -> Z -> bool.

(** With a valid program and a name, [kuhl_get_attribute] returns the
    location and changes nothing but the output. *)
Lemma kuhl_get_attribute_Done (prog : Z) (nm : string) (w : world) :
  glIsProgram (dev w) prog = true ->
  exists printed,
    kuhl_get_attribute link_status prog (Some nm) w
    = Done (glGetAttribLocation (dev w) prog nm) (World (dev w) (heap w) printed).
Proof.
  intros Hvalid. unfold kuhl_get_attribute.
  destruct (String.eqb nm EmptyString); run; rewrite Hvalid; run;
    destruct (negb (link_status (dev w) prog)); run;
    destruct (glGetAttribLocation (dev w) prog nm =? -1); run;
    try (eexists; reflexivity).
  destruct w; eexists; reflexivity.
Qed.

(** One round of the loop on a named slot of a geometry with vertices:
    the attribute is enabled and pointed at the buffer of the slot, which
    the round binds, with as many components as the floats of the buffer
    give per vertex. *)
Lemma program_attrib_Done (g : kuhl_geometry) (i : nat) (a : kuhl_attrib) (nm : string)
    (w : world) :
  attribs g !! i = Some a -> attrib_name a = Some nm ->
  vertex_count g <> 0%nat ->
  glIsProgram (dev w) (program g) = true ->
  exists printed,
    program_attrib link_status g i w
    = Done tt
        (World
           (glVertexAttribPointer
              (glGetAttribLocation (dev w) (program g) nm)
              (buffer_floats (dev w) (bufferobject a) / vertex_count g)
              (issue (EnableVertexAttribArray (glGetAttribLocation (dev w) (program g) nm))
                 (glBindBuffer_array (bufferobject a) (dev w))))
           (heap w) printed).
Proof.
  intros Ha Hnm Hvc Hvalid. unfold program_attrib. rewrite Ha, Hnm.
  apply Nat.eqb_neq in Hvc.
  set (w1 := World (glBindBuffer_array (bufferobject a) (dev w)) (heap w) (output w)).
  assert (Hv1 : glIsProgram (dev w1) (program g) = true).
  { unfold w1, glBindBuffer_array, glIsProgram in *. cbn [dev].
    by destruct (bufferobject a =? 0). }
  destruct (kuhl_get_attribute_Done (program g) nm w1 Hv1) as (printed & Hget).
  exists printed.
  unfold bind at 1. unfold gl_do at 1. fold w1.
  rewrite (bind_Done _ _ _ _ _ Hget). run. rewrite Hvc. run.
  assert (Hloc : glGetAttribLocation (dev w1) (program g) nm
                 = glGetAttribLocation (dev w) (program g) nm).
  { unfold w1, glBindBuffer_array, glGetAttribLocation. cbn [dev].
    by destruct (bufferobject a =? 0). }
  rewrite Hloc. unfold w1. cbn [dev heap].
  assert (Hfl : buffer_floats
                  (issue (EnableVertexAttribArray (glGetAttribLocation (dev w) (program g) nm))
                     (glBindBuffer_array (bufferobject a) (dev w)))
                  (array_buffer_binding
                     (issue (EnableVertexAttribArray
                               (glGetAttribLocation (dev w) (program g) nm))
                        (glBindBuffer_array (bufferobject a) (dev w))))
                = buffer_floats (dev w) (bufferobject a)).
  { unfold buffer_floats, glBindBuffer_array. cbn [array_buffer_binding issue
      set_array_buffer_binding commands].
    destruct (bufferobject a =? 0); cbn [commands set_buffers];
      rewrite fold_left_app; reflexivity. }
  rewrite Hfl. reflexivity.
Qed.

Lemma programs_glBindBuffer_array (b : Z) (d : device) :
  programs (glBindBuffer_array b d) = programs d.
Proof. unfold glBindBuffer_array. by destruct (b =? 0). Qed.

Lemma programs_glBindVertexArray (v : Z) (d : device) :
  programs (glBindVertexArray v d) = programs d.
Proof. unfold glBindVertexArray. by destruct (v =? 0). Qed.

Lemma glIsProgram_programs (d d' : device) (prog : Z) :
  programs d' = programs d -> glIsProgram d' prog = glIsProgram d prog.
Proof. unfold glIsProgram. by intros ->. Qed.

Lemma rebind_commands_same (d d' : device) (g : kuhl_geometry) (a : kuhl_attrib) :
  programs d' = programs d -> (forall b, buffer_floats d' b = buffer_floats d b) ->
  rebind_commands d' g a = rebind_commands d g a.
Proof.
  intros Hp Hf. unfold rebind_commands, glGetAttribLocation. by rewrite Hp, Hf.
Qed.

Lemma buffer_floats_rebind (d d' : device) (g : kuhl_geometry) (a : kuhl_attrib) (b : Z) :
  commands d' = commands d ++ rebind_commands d g a ->
  buffer_floats d' b = buffer_floats d b.
Proof.
  intros H. unfold buffer_floats. rewrite H, fold_left_app.
  unfold rebind_commands. by destruct (attrib_name a).
Qed.

(** The commands that the loop over the attribute slots issues. *)
Lemma program_loop_commands (g : kuhl_geometry) :
  attribs_named g ->
  forall (l : list nat) (w : world),
    (forall i, i ∈ l -> (i < attrib_count g)%nat) ->
    glIsProgram (dev w) (program g) = true ->
    vertex_array_binding (dev w) = vao g ->
    exists w',
      for_each l (program_attrib link_status g) w = Done tt w'
      /\ heap w' = heap w /\ programs (dev w') = programs (dev w)
      /\ (forall b, buffer_floats (dev w') b = buffer_floats (dev w) b)
      /\ commands (dev w')
         = commands (dev w)
           ++ flat_map (fun i => from_option (rebind_commands (dev w) g) [] (attribs g !! i)) l.
Proof.
  intros (Hlen & Hnames & Hvc). induction l as [|i l IH]; intros w Hl Hvalid Hbound.
  - exists w. split_and!; try done. by rewrite app_nil_r.
  - assert (Hi : (i < attrib_count g)%nat) by (apply Hl; left).
    destruct (lookup_lt_is_Some_2 (attribs g) i ltac:(lia)) as [a Ha].
    pose proof (Hnames i a Hi Ha) as Hset.
    destruct (attrib_name a) as [nm|] eqn:Hnm; [|discriminate].
    destruct (program_attrib_Done g i a nm w Ha Hnm ltac:(lia) Hvalid) as (printed & Hrun).
    cbn [for_each]. rewrite (bind_Done _ _ _ _ _ Hrun).
    match goal with |- context [for_each l _ ?w1] =>
      assert (Hp1 : programs (dev w1) = programs (dev w))
        by (unfold glVertexAttribPointer; cbn [dev programs issue];
            apply programs_glBindBuffer_array);
      assert (Hb1 : vertex_array_binding (dev w1) = vao g)
        by (rewrite <- Hbound; unfold glVertexAttribPointer, glBindBuffer_array;
            by destruct (bufferobject a =? 0));
      assert (Hc1 : commands (dev w1)
                    = commands (dev w) ++ rebind_commands (dev w) g a)
        by (unfold rebind_commands, glVertexAttribPointer;
            rewrite Hnm, <- Hbound;
            cbn [dev commands issue vertex_array_binding array_buffer_binding];
            unfold glBindBuffer_array; destruct (bufferobject a =? 0);
            cbn [commands set_array_buffer_binding set_buffers vertex_array_binding
                 array_buffer_binding];
            rewrite <- app_assoc; reflexivity);
      assert (Hf1 : forall b, buffer_floats (dev w1) b = buffer_floats (dev w) b)
        by (intros b; apply (buffer_floats_rebind _ _ g a), Hc1);
      destruct (IH w1) as (w' & Hrest & Hheap & Hprogs & Hfloats & Hcmds) end.
    + intros j Hj. apply Hl. by right.
    + rewrite <- Hvalid. by apply glIsProgram_programs.
    + exact Hb1.
    + exists w'. split; [exact Hrest|]. split; [exact Hheap|].
      split; [congruence|]. split; [intros b; by rewrite Hfloats, Hf1|].
      rewrite Hcmds, Hc1. cbn [flat_map]. rewrite Ha. cbn [from_option].
      rewrite <- app_assoc. f_equal. f_equal.
      apply flat_map_ext. intros j. destruct (attribs g !! j) as [aj|]; [|done].
      cbn [from_option]. by apply rebind_commands_same.
Qed.

(** The part of [kuhl_geometry_program] that follows the recursive
    call, on a well-formed geometry and with a valid program. *)
Lemma program_node_Done (p : nat) (g : kuhl_geometry) (prog : Z) (w : world) :
  heap w !! p = Some g -> attribs_named g ->
  glIsProgram (dev w) prog = true ->
  exists w',
    (do valid <- gl (fun d => glIsProgram d prog);
     when (negb valid) (msg WARNING "GLSL program is not a valid program." [prog]) ;;
     modify p (with_program prog) ;;
     do g' <- load p;
     gl_do (glBindVertexArray (vao g')) ;;
     for_each (seq 0 (attrib_count g')) (program_attrib link_status g') ;;
     gl_do (glBindBuffer_array 0) ;;
     gl_do (glBindVertexArray 0)) w = Done tt w'
    /\ heap w' = <[p := with_program prog g]> (heap w)
    /\ programs (dev w') = programs (dev w)
    /\ array_buffer_binding (dev w') = 0 /\ vertex_array_binding (dev w') = 0
    /\ commands (dev w')
       = commands (dev w)
         ++ flat_map (fun i => from_option (rebind_commands (dev w) (with_program prog g)) []
                                           (attribs g !! i))
                     (seq 0 (attrib_count g)).
Proof.
  intros Hg Hnamed Hvalid. run. rewrite Hvalid. run. rewrite Hg. run.
  match goal with |- context [for_each _ _ ?w1] =>
    destruct (program_loop_commands (with_program prog g) Hnamed
                (seq 0 (attrib_count (with_program prog g))) w1)
      as (w' & Hrun & Hheap & Hprogs & _ & Hcmds) end.
  - intros i Hi. apply elem_of_seq in Hi. lia.
  - cbn [dev program with_program]. rewrite <- Hvalid.
    apply glIsProgram_programs, programs_glBindVertexArray.
  - reflexivity.
  - rewrite Hrun. eexists. split; [reflexivity|]. cbn [dev heap].
    split_and!; [done| |reflexivity|reflexivity|].
    + rewrite programs_glBindVertexArray, programs_glBindBuffer_array, Hprogs.
      cbn [dev]. apply programs_glBindVertexArray.
    + assert (Hc0 : forall d, commands (glBindVertexArray 0 (glBindBuffer_array 0 d))
                              = commands d) by reflexivity.
      rewrite Hc0, Hcmds. cbn [dev vao attribs attrib_count with_program].
      assert (Hcv : commands (glBindVertexArray (vao g) (dev w)) = commands (dev w)).
      { unfold glBindVertexArray. by destruct (vao g =? 0). }
      rewrite Hcv. f_equal. apply flat_map_ext. intros i.
      destruct (attribs g !! i) as [a|]; [|done]. cbn [from_option].
      apply rebind_commands_same; [apply programs_glBindVertexArray|].
      intros b. unfold buffer_floats. by rewrite Hcv.
Qed.

Lemma kuhl_geometry_program_S (fuel : nat) (p : nat) (prog opts : Z) :
  kuhl_geometry_program KG_FULL_LIST link_status (S fuel) (Some p) prog opts
  = ((if negb (Z.land opts KG_FULL_LIST =? 0) then
        do g0 <- load p;
        kuhl_geometry_program KG_FULL_LIST link_status fuel (next g0) prog opts
      else ret tt) ;;
     do valid <- gl (fun d => glIsProgram d prog);
     when (negb valid) (msg WARNING "GLSL program is not a valid program." [prog]) ;;
     modify p (with_program prog) ;;
     do g <- load p;
     gl_do (glBindVertexArray (vao g)) ;;
     for_each (seq 0 (attrib_count g)) (program_attrib link_status g) ;;
     gl_do (glBindBuffer_array 0) ;;
     gl_do (glBindVertexArray 0)).
Proof. reflexivity. Qed.

(** [kuhl_geometry_program] with [KG_FULL_LIST] on a null-terminated
    list of well-formed geometries. *)
Lemma kuhl_geometry_program_full_list (prog : Z) (opts : Z) :
  Z.land opts KG_FULL_LIST <> 0 ->
  forall (ps : list nat) (first : option nat) (w : world),
    chain (heap w) first ps ->
    (forall q g, q ∈ ps -> heap w !! q = Some g -> attribs_named g) ->
    glIsProgram (dev w) prog = true ->
    exists w',
      kuhl_geometry_program KG_FULL_LIST link_status (S (length ps)) first prog opts w
      = Done tt w'
      /\ (forall q, heap w' !! q
                    = if decide (q ∈ ps) then with_program prog <$> heap w !! q
                      else heap w !! q)
      /\ programs (dev w') = programs (dev w)
      /\ (ps <> [] ->
          array_buffer_binding (dev w') = 0 /\ vertex_array_binding (dev w') = 0).
Proof.
  intros Hbit. apply Z.eqb_neq in Hbit.
  induction ps as [|p ps IH]; intros first w Hc Hwf Hvalid.
  - simpl in Hc. subst first. exists w. split_and!; try done.
  - pose proof (chain_NoDup _ _ _ Hc) as Hnd. apply NoDup_cons in Hnd as [Hnotin _].
    destruct Hc as (-> & g & Hg & Hrest).
    destruct (IH (next g) w Hrest) as (w1 & Hrun1 & Hheap1 & Hprogs1 & _).
    { intros q gq Hq. apply Hwf. by right. }
    { done. }
    assert (Hg1 : heap w1 !! p = Some g).
    { rewrite Hheap1. by rewrite decide_False. }
    destruct (program_node_Done p g prog w1 Hg1) as (w' & Hrun & Hheap & Hprogs & Hab & Hvb & _).
    { apply (Hwf p); [left|done]. }
    { rewrite <- Hvalid. by apply glIsProgram_programs. }
    exists w'. cbn [length]. rewrite kuhl_geometry_program_S, Hbit. cbn [negb].
    assert (Hfirst : (do g0 <- load p;
                      kuhl_geometry_program KG_FULL_LIST link_status (S (length ps))
                                            (next g0) prog opts) w = Done tt w1).
    { unfold bind, load. rewrite Hg. exact Hrun1. }
    rewrite (bind_Done _ _ _ _ _ Hfirst). split; [exact Hrun|]. split_and!.
    + intros q. rewrite Hheap. destruct (decide (q = p)) as [->|Hne].
      * rewrite lookup_insert_eq, decide_True by left. by rewrite Hg.
      * rewrite lookup_insert_ne by done. rewrite Hheap1.
        destruct (decide (q ∈ ps)) as [Hin|Hout].
        -- rewrite decide_True by (by right). done.
        -- rewrite decide_False; [done|]. intros Hin.
           apply elem_of_cons in Hin as [?|?]; done.
    + congruence.
    + done.
Qed.

End ProgramProofs.

(** X11.  On a null-terminated list of well-formed geometries and with
    a valid program, [kuhl_geometry_program] returns; with
    [KG_FULL_LIST] it has set the program of every geometry of the list,
    without that option only of the first one, and it has changed
    nothing else in any geometry. *)
Theorem kuhl_geometry_program_sets_program :
  forall (KG_FULL_LIST : Z) (link_status : device -> Z -> bool) (prog opts : Z)
         (ps : list nat) (first : option nat) (w : world),
    chain (heap w) first ps ->
    (forall q g, q ∈ ps -> heap w !! q = Some g -> attribs_named g) ->
    glIsProgram (dev w) prog = true ->
    exists w',
      kuhl_geometry_program KG_FULL_LIST link_status (S (length ps)) first prog opts w
      = Done tt w'
      /\ forall q,
           heap w' !! q
           = if decide (q ∈ if Z.land opts KG_FULL_LIST =? 0 then take 1 ps else ps)
             then with_program prog <$> heap w !! q
             else heap w !! q.
Proof.
  intros KG link prog opts ps first w Hc Hwf Hvalid.
  destruct (Z.land opts KG =? 0) eqn:Hbit.
  - destruct ps as [|p ps].
    + simpl in Hc. subst first. exists w. split; [reflexivity|]. intros q.
      by rewrite decide_False by apply not_elem_of_nil.
    + destruct Hc as (-> & g & Hg & _).
      destruct (program_node_Done link p g prog w Hg) as (w' & Hrun & Hheap & _).
      { apply (Hwf p); [left|done]. }
      { done. }
      exists w'. rewrite kuhl_geometry_program_S, Hbit. cbn [negb].
      split; [exact Hrun|]. intros q. rewrite Hheap. cbn [take].
      destruct (decide (q = p)) as [->|Hne].
      * rewrite lookup_insert_eq, decide_True by left. by rewrite Hg.
      * rewrite lookup_insert_ne by done. rewrite decide_False; [done|].
        by intros ?%list_elem_of_singleton.
  - apply Z.eqb_neq in Hbit.
    destruct (kuhl_geometry_program_full_list KG link prog opts Hbit ps first w Hc Hwf Hvalid)
      as (w' & Hrun & Hheap & _).
    by exists w'.
Qed.

(** The theorem for the list of [MoreExamples.two_programs], whose two
    geometries move from program 7 to program 8. *)
Lemma kuhl_geometry_program_sets_program_witness :
  exists w',
    kuhl_geometry_program 2 (fun _ _ => true) 3 (Some 0%nat) 8 2 MoreExamples.two_programs
    = Done tt w'
    /\ program <$> heap w' !! 0%nat = Some 8
    /\ program <$> heap w' !! 1%nat = Some 8.
Proof.
  destruct (kuhl_geometry_program_sets_program 2 (fun _ _ => true) 8 2 [0%nat; 1%nat]
              (Some 0%nat) MoreExamples.two_programs) as (w' & Hrun & Hheap).
  - split; [reflexivity|]. eexists. split; [reflexivity|].
    split; [reflexivity|]. eexists. split; reflexivity.
  - intros q g Hq Hg.
    assert (Hfresh : exists v n, g = Examples.fresh_geometry v n).
    { apply elem_of_cons in Hq as [->|Hq]; [|apply list_elem_of_singleton in Hq; subst q];
        vm_compute in Hg; injection Hg as <-; eexists _, _; reflexivity. }
    destruct Hfresh as (v & n & ->). split_and!.
    + simpl. lia.
    + intros k a Hk. simpl in Hk. lia.
    + simpl. discriminate.
  - reflexivity.
  - exists w'. split; [exact Hrun|]. rewrite !Hheap. split; reflexivity.
Defined.

(** X12.  [kuhl_geometry_program] only warns about a program that is
    not valid: on a geometry without attributes it stores the invalid
    program and returns, but as soon as the geometry has an attribute
    the process exits in [kuhl_get_attribute], after the warning. *)
Theorem kuhl_geometry_program_invalid_program :
  forall (KG_FULL_LIST : Z) (link_status : device -> Z -> bool) (fuel : nat) (p : nat)
         (g : kuhl_geometry) (prog opts : Z) (w : world),
    heap w !! p = Some g ->
    next g = None ->
    glIsProgram (dev w) prog = false ->
    (attrib_count g = 0%nat ->
     exists w',
       kuhl_geometry_program KG_FULL_LIST link_status (S (S fuel)) (Some p) prog opts w
       = Done tt w'
       /\ heap w' = <[p := with_program prog g]> (heap w)
       /\ output w' = output w ++ [Msg WARNING "GLSL program is not a valid program." [prog]])
    /\ (forall a nm,
          (0 < attrib_count g)%nat -> attribs g !! 0%nat = Some a ->
          attrib_name a = Some nm ->
          exists printed,
            kuhl_geometry_program KG_FULL_LIST link_status (S (S fuel)) (Some p) prog opts w
            = Exit (output w
                    ++ [Msg WARNING "GLSL program is not a valid program." [prog]]
                    ++ printed
                    ++ [Msg FATAL "Cannot get attribute because the program is not a valid GLSL program."
                            [prog]])).
Proof.
  intros KG link fuel p g prog opts w Hg Hnext Hinvalid.
  assert (Hhead : forall (k : unit -> M unit),
             ((if negb (Z.land opts KG =? 0) then
                 do g0 <- load p;
                 kuhl_geometry_program KG link (S fuel) (next g0) prog opts
               else ret tt) ;; k tt) w = k tt w).
  { intros k. destruct (negb (Z.land opts KG =? 0)); run; [|reflexivity].
    rewrite Hg, Hnext. reflexivity. }
  split.
  - intros Hcount. rewrite kuhl_geometry_program_S.
    rewrite (Hhead (fun _ => _)). run. rewrite Hinvalid. run. rewrite Hg. run.
    cbn [attrib_count with_program]. rewrite Hcount. cbn [seq for_each]. run.
    eexists. split; [reflexivity|]. done.
  - intros a nm Hcount Ha Hnm. rewrite kuhl_geometry_program_S.
    rewrite (Hhead (fun _ => _)). run. rewrite Hinvalid. run. rewrite Hg. run.
    cbn [attrib_count with_program].
    destruct (attrib_count g) as [|n]; [lia|]. cbn [seq for_each].
    unfold program_attrib at 1. cbn [attribs with_program]. rewrite Ha, Hnm.
    unfold kuhl_get_attribute. cbn [program with_program].
    assert (Hinv : forall b v, glIsProgram (glBindBuffer_array b (glBindVertexArray v (dev w)))
                                           prog = false).
    { intros b v. rewrite <- Hinvalid. apply glIsProgram_programs.
      by rewrite programs_glBindBuffer_array, programs_glBindVertexArray. }
    destruct (String.eqb nm EmptyString); run; rewrite Hinv; run.
    + exists [Msg ERROR "You asked for the location of an attribute name, but your name was an empty string or a NULL pointer." [prog]].
      by rewrite <- !app_assoc.
    + exists []. by rewrite <- !app_assoc.
Qed.

(** The theorem for the geometry of [MoreExamples.positioned_node] and
    the unknown program 8. *)
Lemma kuhl_geometry_program_invalid_program_witness :
  exists printed,
    kuhl_geometry_program 2 (fun _ _ => true) 2 (Some 0%nat) 8 0
                          MoreExamples.positioned_node
    = Exit ([] ++ [Msg WARNING "GLSL program is not a valid program." [8]]
            ++ printed
            ++ [Msg FATAL "Cannot get attribute because the program is not a valid GLSL program."
                    [8]]).
Proof.
  apply (proj2 (kuhl_geometry_program_invalid_program 2 (fun _ _ => true) 0 0
                  Examples.textured_geometry 8 0 MoreExamples.positioned_node
                  eq_refl eq_refl eq_refl)
               (Attrib (Some "in_Position"%string) 6) "in_Position"%string).
  - simpl. lia.
  - reflexivity.
  - reflexivity.
Defined.

(** X13.  Changing the program keeps the data and its layout: after
    [kuhl_geometry_attrib] has stored an attribute with [components]
    floats per vertex in a buffer, [kuhl_geometry_program] for a valid
    program enables the location that the name has in the new program
    and points it, in the vertex array of the geometry, at that same
    buffer with the same number of components, which it recovers from
    the size of the buffer. *)
Theorem kuhl_geometry_program_keeps_components :
  forall (MAX_ATTRIBUTES : nat) (KG_FULL_LIST : Z) (link_status : device -> Z -> bool)
         (p : nat) (g : kuhl_geometry) (floats : list Q) (comps : nat) (nm : string)
         (warn prog opts : Z) (w w' : world),
    heap w !! p = Some g ->
    attribs_named g -> vertex_count g <> 0%nat ->
    nm <> EmptyString -> comps <> 0%nat ->
    glIsVertexArray (dev w) (vao g) = true ->
    glGetAttribLocation (dev w) (program g) nm <> -1 ->
    (vertex_count g * comps <= length floats)%nat ->
    kuhl_geometry_attrib MAX_ATTRIBUTES (Some p) (Some floats) comps (Some nm) warn w
    = Done tt w' ->
    glIsProgram (dev w) prog = true ->
    Z.land opts KG_FULL_LIST = 0 ->
    exists (k : nat) (b : Z) (g' : kuhl_geometry) (w'' : world)
           (before after : list command),
      heap w' !! p = Some g' /\ (k < attrib_count g')%nat
      /\ attribs g' !! k = Some (Attrib (Some nm) b)
      /\ buffer_floats (dev w') b = (vertex_count g * comps)%nat
      /\ kuhl_geometry_program KG_FULL_LIST link_status 1 (Some p) prog opts w' = Done tt w''
      /\ commands (dev w'')
         = commands (dev w') ++ before
           ++ [EnableVertexAttribArray (glGetAttribLocation (dev w) prog nm);
               VertexAttribPointer (vao g) b (glGetAttribLocation (dev w) prog nm) comps]
           ++ after.
Proof.
  intros MAX KG link p g floats comps nm warn prog opts w w'
         Hg (Hlen & Hnames & Hvc0) Hvc Hnm Hc Hv Hloc Hdata H Hvalid Hbit.
  destruct (kuhl_geometry_attrib_post _ _ _ _ _ _ _ _ _ Hg Hnm Hc Hv Hloc H)
    as (k & n & b & Hheap & _ & Hk & Hklen & Hn & _ & _ & _ & Hfloats & _ & _ & _ & Hprogs).
  rewrite length_take, Nat.min_l in Hfloats by done.
  set (g' := attrib_written g k nm b n).
  assert (Hg' : heap w' !! p = Some g').
  { rewrite Hheap. apply lookup_insert_eq. }
  assert (Hslot : forall j, attribs g' !! j
                            = if decide (j = k) then Some (Attrib (Some nm) b)
                              else attribs g !! j).
  { intros j. unfold g', attrib_written. cbn [attribs with_attribs].
    destruct (decide (j = k)) as [->|Hne].
    - by apply list_lookup_insert_eq.
    - by apply list_lookup_insert_ne. }
  assert (Hnamed' : attribs_named g').
  { split_and!.
    - unfold g', attrib_written.
      cbn [attribs attrib_count with_attribs with_attrib_count].
      rewrite length_insert. lia.
    - intros j a Hj. rewrite Hslot. destruct (decide (j = k)) as [->|Hne].
      + by intros [= <-].
      + apply Hnames. unfold g', attrib_written in Hj.
        cbn [attrib_count with_attribs with_attrib_count] in Hj. lia.
    - intros Hz. by destruct Hvc. }
  destruct (program_node_Done link p g' prog w' Hg' Hnamed')
    as (w'' & Hrun & _ & _ & _ & _ & Hcmds).
  { rewrite <- Hvalid. by apply glIsProgram_programs. }
  exists k, b, g', w''.
  assert (Hcount : attrib_count g' = n) by reflexivity.
  rewrite Hcount in Hcmds.
  replace n with (k + S (n - S k))%nat in Hcmds at 1 by lia.
  rewrite seq_app, flat_map_app in Hcmds. cbn [seq flat_map Nat.add] in Hcmds.
  rewrite Hslot, decide_True in Hcmds by done. cbn [from_option] in Hcmds.
  eexists _, _. apply Z.eqb_eq in Hbit.
  split; [exact Hg'|]. split; [lia|].
  split; [by rewrite Hslot, decide_True|]. split; [exact Hfloats|].
  rewrite kuhl_geometry_program_S, Hbit. cbn [negb].
  unfold bind at 1. unfold ret at 1. split; [exact Hrun|].
  rewrite Hcmds. do 2 f_equal.
  unfold rebind_commands at 1. cbn [attrib_name bufferobject program with_program].
  change (vertex_count (with_program prog g')) with (vertex_count g).
  change (vao (with_program prog g')) with (vao g).
  rewrite Hfloats, Nat.mul_comm, Nat.div_mul by done.
  unfold glGetAttribLocation. rewrite Hprogs. reflexivity.
Qed.

(** The theorem for a position attribute of three components given to
    the first geometry of [MoreExamples.two_programs], which then moves
    to program 8. *)
Lemma kuhl_geometry_program_keeps_components_witness :
  exists (b : Z) (w' w'' : world) (before after : list command),
    kuhl_geometry_attrib 2 (Some 0%nat) (Some MoreExamples.nine_floats) 3
                         (Some "in_Position"%string) 0 MoreExamples.two_programs
    = Done tt w'
    /\ buffer_floats (dev w') b = 9%nat
    /\ kuhl_geometry_program 2 (fun _ _ => true) 1 (Some 0%nat) 8 0 w' = Done tt w''
    /\ commands (dev w'')
       = commands (dev w') ++ before
         ++ [EnableVertexAttribArray 0; VertexAttribPointer 1 b 0 3] ++ after.
Proof.
  assert (Hrun : exists w', kuhl_geometry_attrib 2 (Some 0%nat)
                   (Some MoreExamples.nine_floats) 3
                   (Some "in_Position"%string) 0 MoreExamples.two_programs = Done tt w')
    by (eexists; vm_compute; reflexivity).
  destruct Hrun as [w' Hrun].
  assert (Hnamed : attribs_named (Examples.fresh_geometry 1 (Some 1%nat))).
  { split_and!; [simpl; lia|intros k a Hk; simpl in Hk; lia|simpl; discriminate]. }
  destruct (kuhl_geometry_program_keeps_components 2 2 (fun _ _ => true) 0
              (Examples.fresh_geometry 1 (Some 1%nat)) MoreExamples.nine_floats 3
              "in_Position" 0 8 0 MoreExamples.two_programs _ eq_refl Hnamed
              ltac:(simpl; discriminate) ltac:(discriminate) ltac:(discriminate)
              eq_refl ltac:(vm_compute; discriminate) ltac:(simpl; lia) Hrun
              eq_refl eq_refl)
    as (k & b & g' & w'' & before & after & _ & _ & _ & Hfloats & Hprog & Hcmds).
  exists b, w', w'', before, after.
  split; [exact Hrun|]. split; [exact Hfloats|]. split; [exact Hprog|exact Hcmds].
Defined.

(** ** Keyframes: interpolation between two keys *)

Import Animation.

(** When the keys up to [j] do not lie after [ticks] and key [j+1]
    does, the search selects the pair [(j, j+1)]. *)
Lemma start_key_between (keys : list aiKey) (ticks : Q) (j : nat) (ke : aiKey) :
  keys !! S j = Some ke ->
  (forall i k, (i <= j)%nat -> keys !! i = Some k -> (mTime k <= ticks)%Q) ->
  (ticks < mTime ke)%Q ->
  start_key keys ticks = Some j /\ end_key keys j = S j.
Proof.
  intros Hke Hbefore Hlt. destruct keys as [|k0 later]; [done|].
  simpl in Hke. unfold start_key.
  destruct (search_keys_first ticks later 0) as (i & k & Hs & Hi & Hlti & Hmin).
  { exists ke. split; [|done]. by apply list_elem_of_lookup_2 in Hke. }
  assert (i = j) as ->.
  { destruct (Nat.lt_trichotomy i j) as [Hij|[->|Hij]]; [|done|].
    - exfalso. apply (Qlt_not_le _ _ Hlti). apply (Hbefore (S i)); [lia|done].
    - exfalso. by apply (Hmin j ke Hij Hke). }
  rewrite Hs. split; [done|]. unfold end_key.
  apply lookup_lt_Some in Hke. cbn [length].
  destruct (S (length later) <=? j + 1)%nat eqn:E; [apply Nat.leb_le in E; lia|lia].
Qed.

Lemma bracket_between (keys : list aiKey) (ticks : Q) (j : nat) (ks ke : aiKey) :
  keys !! j = Some ks -> keys !! S j = Some ke ->
  (forall i k, (i <= j)%nat -> keys !! i = Some k -> (mTime k <= ticks)%Q) ->
  (ticks < mTime ke)%Q ->
  bracket_keys keys ticks
  = Some (Bracket j (S j) (key_factor ks ke ticks) (mValue ks) (mValue ke)).
Proof.
  intros Hks Hke Hbefore Hlt.
  destruct (start_key_between keys ticks j ke Hke Hbefore Hlt) as (Hstart & Hend).
  unfold bracket_keys. by rewrite Hstart, Hend, Hks, Hke.
Qed.

(** At the time of the first key of a pair the factor is 0, whatever
    the difference of the key times rounds to. *)
Lemma key_factor_at_start (ks ke : aiKey) : key_factor ks ke (mTime ks) = 0%Q.
Proof.
  unfold key_factor.
  destruct (negb (Qeq_bool (Float.to_float (Float.to_double (mTime ke - mTime ks))) 0));
    [|reflexivity].
  unfold Float.to_double at 2.
  rewrite (round_zero 53 _ (mTime ks - mTime ks)) by ring.
  unfold Float.to_double at 1. rewrite round_zero; [reflexivity|].
  unfold Qdiv. apply Qmult_0_l.
Qed.



(** X15.  Interpolation passes through the keys: at the time of key
    [j], when the earlier keys are not later than it and the next key
    is, the interpolated vector of a track equals the value of key
    [j]. *)
Theorem lerp_at_key_is_key_value :
  forall (keys : list aiKey) (j : nat) (ks ke : aiKey) (x y z : Q),
    keys !! j = Some ks -> keys !! S j = Some ke ->
    (forall i k, (i <= j)%nat -> keys !! i = Some k -> (mTime k <= mTime ks)%Q) ->
    (mTime ks < mTime ke)%Q ->
    mValue ks = [x; y; z] ->
    exists b,
      bracket_keys keys (mTime ks) = Some b
      /\ Forall2 Qeq (lerp3 b) [x; y; z].
Proof.
  intros keys j ks ke x y z Hks Hke Hbefore Hlt Hval.
  eexists. split; [by apply (bracket_between keys (mTime ks) j ks ke)|].
  unfold lerp3. cbn [valStart valEnd factor]. rewrite Hval, key_factor_at_start.
  assert (H1 : Float.to_float (1 - 0) = 1%Q) by (vm_compute; reflexivity).
  rewrite H1.
  unfold vec3f_add_new, vec3f_scalarMult, mat_get. cbn [map].
  repeat constructor.
  - destruct (mValue ke) as [|? [|? [|? ?]]]; cbn [nth map]; ring.
  - destruct (mValue ke) as [|? [|? [|? ?]]]; cbn [nth map]; ring.
  - destruct (mValue ke) as [|? [|? [|? ?]]]; cbn [nth map]; ring.
Qed.

(** The theorem at the second key of [Examples.keys_move_then_rest]. *)
Lemma lerp_at_key_is_key_value_witness :
  exists b,
    bracket_keys Examples.keys_move_then_rest 1 = Some b
    /\ Forall2 Qeq (lerp3 b) [10; 0; 0]%Q.
Proof.
  apply (lerp_at_key_is_key_value Examples.keys_move_then_rest 1
           (Key 1 [10; 0; 0]%Q) (Key 2 [10; 0; 0]%Q) 10 0 0).
  - reflexivity.
  - reflexivity.
  - intros [|[|i]] k Hi Hk; try lia; injection Hk as <-; vm_compute; discriminate.
  - reflexivity.
  - reflexivity.
Defined.

(** ** The node hierarchy *)

(** Induction over the node tree. *)
Lemma aiNode_tree_ind (P : aiNode -> Prop) :
  (forall nm tr ch, Forall P ch -> P (Node nm tr ch)) -> forall nd, P nd.
Proof.
  intros H. fix IH 1. intros [nm tr ch]. apply H.
  induction ch as [|c ch IHch]; constructor; [apply IH|exact IHch].
Qed.

(** What [kuhl_assimp_find_node] promises for one node. *)
Lemma find_node_children (nodeName : string) (all : list aiNode) :
  forall (l prefix : list aiNode),
    all = prefix ++ l ->
    Forall (fun c =>
              match kuhl_assimp_find_node nodeName c with
              | Some path => exists nd, node_at c path = Some nd /\ mName nd = nodeName
              | None => forall path nd, node_at c path = Some nd -> mName nd <> nodeName
              end) l ->
    match (fix children (l : list aiNode) (i : nat) : option node_ptr :=
             match l with
             | [] => None
             | child :: rest =>
                 match kuhl_assimp_find_node nodeName child with
                 | Some found => Some (i :: found)
                 | None => children rest (S i)
                 end
             end) l (length prefix) with
    | Some path =>
        exists j rest child nd,
          path = j :: rest /\ all !! j = Some child
          /\ node_at child rest = Some nd /\ mName nd = nodeName
    | None =>
        forall j child rest nd,
          (length prefix <= j)%nat -> all !! j = Some child ->
          node_at child rest = Some nd -> mName nd <> nodeName
    end.
Proof.
  induction l as [|c l IH]; intros prefix Hall Hl.
  - intros j child rest nd Hj Hc. apply lookup_lt_Some in Hc.
    rewrite Hall, app_nil_r in Hc. lia.
  - apply Forall_cons in Hl as [Hc Hl].
    destruct (kuhl_assimp_find_node nodeName c) as [found|] eqn:E.
    + destruct Hc as (nd & Hnd & Hnm). exists (length prefix), found, c, nd.
      split_and!; try done. rewrite Hall. by apply list_lookup_middle.
    + specialize (IH (prefix ++ [c])). rewrite length_app in IH. cbn [length] in IH.
      rewrite Nat.add_1_r in IH.
      specialize (IH ltac:(by rewrite <- app_assoc) Hl).
      match goal with |- match ?t with _ => _ end =>
        match type of IH with match ?t' with _ => _ end => change t with t' end end.
      destruct (_ : option node_ptr) as [path|]; [exact IH|].
      intros j child rest nd Hj Hchild Hnode.
      destruct (decide (j = length prefix)) as [->|Hne].
      * rewrite Hall, list_lookup_middle in Hchild by done. injection Hchild as <-.
        by apply (Hc rest nd).
      * apply (IH j child rest nd); [lia|done|done].
Qed.

(** X16.  [kuhl_assimp_find_node] is a correct search of the node
    tree: a result leads to a node of the tree that carries the name,
    and the answer [NULL] means that no node of the tree carries it. *)
Theorem kuhl_assimp_find_node_correct :
  forall (nodeName : string) (root : aiNode),
    match kuhl_assimp_find_node nodeName root with
    | Some path => exists nd, node_at root path = Some nd /\ mName nd = nodeName
    | None => forall path nd, node_at root path = Some nd -> mName nd <> nodeName
    end.
Proof.
  intros nodeName. apply aiNode_tree_ind. intros nm tr ch IH.
  cbn [kuhl_assimp_find_node mName mChildren].
  destruct (String.eqb nm nodeName) eqn:E.
  - apply String.eqb_eq in E. exists (Node nm tr ch). by split.
  - apply String.eqb_neq in E.
    pose proof (find_node_children nodeName ch ch [] eq_refl IH) as Hch.
    cbn [length] in Hch.
    match goal with |- match ?t with _ => _ end =>
      match type of Hch with match ?t' with _ => _ end => change t with t' end end.
    destruct (_ : option node_ptr) as [path|].
    + destruct Hch as (j & rest & child & nd & -> & Hchild & Hnode & Hnm).
      exists nd. split; [|done]. cbn [node_at mChildren]. by rewrite Hchild.
    + intros [|j rest] nd Hnode.
      * injection Hnode as <-. done.
      * cbn [node_at mChildren] in Hnode.
        destruct (ch !! j) as [child|] eqn:Hchild; [|discriminate].
        apply (Hch j child rest nd); [lia|done|done].
Qed.

Section BindPose.

Variable quatf_slerp_new quatf_slerp_new' : list Q -> list Q -> Q -> list Q.
Variable mat4f_rotateQuatVec_new mat4f_rotateQuatVec_new' : list Q -> list Q.

Lemma node_matrix_negative_time (slerp : list Q -> list Q -> Q -> list Q)
    (rot : list Q -> list Q) (scene : aiScene) (nd : aiNode) (n : nat) (t : Q) :
  Qltb t 0 = true ->
  kuhl_private_node_matrix slerp rot scene nd n t
  = Some (mat4f_from_aiMatrix4x4 (mTransformation nd), 0).
Proof.
  intros Ht. unfold kuhl_private_node_matrix. by rewrite Ht, orb_true_r.
Qed.

Lemma node_at_prefix (i : nat) :
  forall (path : node_ptr) (root nd : aiNode),
    node_at root (path ++ [i]) = Some nd -> is_Some (node_at root path).
Proof.
  induction path as [|j path IH]; intros root nd H; [by eexists|].
  cbn [app node_at] in *. destruct (mChildren root !! j) as [child|]; [|discriminate].
  by apply (IH child nd).
Qed.

Lemma mParent_snoc (path : node_ptr) (i : nat) : mParent (path ++ [i]) = Some path.
Proof.
  unfold mParent. rewrite removelast_last. by destruct path.
Qed.

(** At negative times the walk towards the root ends, and its result
    depends on nothing but the authored matrices of the nodes. *)
Lemma walk_up_negative_time (scene scene' : aiScene) (n n' : nat) (t t' : Q) :
  mRootNode scene' = mRootNode scene ->
  Qltb t 0 = true -> Qltb t' 0 = true ->
  forall (path : node_ptr) (acc : list Q),
    is_Some (node_at (mRootNode scene) path) ->
    exists m,
      walk_up quatf_slerp_new mat4f_rotateQuatVec_new (length path) scene path n t acc
      = Some m
      /\ walk_up quatf_slerp_new' mat4f_rotateQuatVec_new' (length path) scene' path n' t'
                 acc = Some m.
Proof.
  intros Hroot Ht Ht'. induction path as [|i path IH] using rev_ind; intros acc [nd Hnd].
  - cbn [length walk_up node_at] in *. rewrite Hroot.
    rewrite !node_matrix_negative_time by done. cbn [mParent]. by eexists.
  - rewrite length_app. cbn [length]. rewrite Nat.add_1_r. cbn [walk_up].
    rewrite Hroot, Hnd, !node_matrix_negative_time by done.
    rewrite mParent_snoc. apply IH. by apply (node_at_prefix i path _ nd).
Qed.

End BindPose.

(** X17.  The bind pose: at a negative time [kuhl_update_model]'s step
    for a geometry without bones whose node is in the scene stores a
    matrix that is the same for every negative time, every animation
    number and whatever the animations of the scene contain. *)
Theorem update_geometry_bind_pose :
  forall (quatf_slerp_new : list Q -> list Q -> Q -> list Q)
         (mat4f_rotateQuatVec_new : list Q -> list Q)
         (p : nat) (g : kuhl_geometry) (scene : aiScene) (path : node_ptr)
         (animationNum : nat) (t : Q) (w : world),
    heap w !! p = Some g ->
    assimp_scene g = Some scene -> mNumAnimations scene <> 0%nat ->
    assimp_node g = Some path -> is_Some (node_at (mRootNode scene) path) ->
    bones g = None ->
    (t < 0)%Q ->
    exists m,
      update_geometry quatf_slerp_new mat4f_rotateQuatVec_new p animationNum t w
      = Done tt (World (dev w) (<[p := with_matrix m g]> (heap w)) (output w))
      /\ forall (slerp' : list Q -> list Q -> Q -> list Q) (rot' : list Q -> list Q)
                (animations' : list aiAnimation) (n' : nat) (t' : Q),
           (t' < 0)%Q ->
           walk_up slerp' rot' (length path) (Scene (mRootNode scene) animations') path
                   n' t' mat4f_identity = Some m.
Proof.
  intros slerp rot p g scene path n t w Hg Hscene Hanims Hnode Hpath Hbones Ht.
  apply Qltb_lt in Ht.
  destruct (walk_up_negative_time slerp slerp rot rot scene scene n n t t eq_refl Ht Ht
              path mat4f_identity Hpath) as (m & Hm & _).
  exists m. split.
  - unfold update_geometry. run. rewrite Hg. run. rewrite Hscene.
    apply Nat.eqb_neq in Hanims. rewrite Hanims, Hnode, Hbones, Hm. reflexivity.
  - intros slerp' rot' animations' n' t' Ht'. apply Qltb_lt in Ht'.
    destruct (walk_up_negative_time slerp slerp' rot rot' scene
                (Scene (mRootNode scene) animations') n n' t t' eq_refl Ht Ht'
                path mat4f_identity Hpath) as (m' & Hm1 & Hm2).
    congruence.
Qed.

(** The theorem for the animated geometry of [Examples.mixed_world] at
    time -1. *)
Lemma update_geometry_bind_pose_witness :
  exists m,
    update_geometry Examples.first_of Examples.no_rotation 0 0 (-1) Examples.mixed_world
    = Done tt (World (dev Examples.mixed_world)
                     (<[0%nat := with_matrix m Examples.animated_geometry]>
                        (heap Examples.mixed_world))
                     (output Examples.mixed_world))
    /\ walk_up Examples.first_of Examples.no_rotation 0
               (Scene Examples.still_node []) [] 0 (-1) mat4f_identity = Some m.
Proof.
  destruct (update_geometry_bind_pose Examples.first_of Examples.no_rotation 0
              Examples.animated_geometry Examples.one_animation [] 0 (-1)
              Examples.mixed_world eq_refl eq_refl ltac:(discriminate) eq_refl
              ltac:(by eexists) eq_refl eq_refl) as (m & Hrun & Hsame).
  exists m. split; [exact Hrun|].
  apply (Hsame Examples.first_of Examples.no_rotation [] 0%nat (-1)%Q). reflexivity.
Defined.

(** ** Destroying a single geometry *)

(** X19.  [kuhl_geometry_delete] on a geometry that is not followed by
    another one returns: its attribute buffers, its index buffer and
    its vertex array are no longer live, no attribute slot is in use,
    and neither a texture nor a program has been released or
    forgotten. *)
Theorem kuhl_geometry_delete_single_geometry :
  forall (fuel : nat) (geom : nat) (g : kuhl_geometry) (w : world),
    heap w !! geom = Some g -> next g = None ->
    (attrib_count g <= length (attribs g))%nat ->
    exists w' g',
      kuhl_geometry_delete (S (S fuel)) geom w = Done tt w'
      /\ heap w' = <[geom := g']> (heap w)
      /\ output w' = output w
      /\ attrib_count g' = 0%nat
      /\ textures g' = textures g /\ texture_count g' = texture_count g
      /\ program g' = program g
      /\ programs (dev w') = programs (dev w)
      /\ texture_objects (dev w') = texture_objects (dev w)
      /\ (forall k a, (k < attrib_count g)%nat -> attribs g !! k = Some a ->
                      bufferobject a ∉ buffers (dev w'))
      /\ (indices_bufferobject g ∉ buffers (dev w'))
      /\ (vao g ∉ vertex_arrays (dev w')).
Proof.
  intros fuel geom g w Hg Hnext Hlen.
  rewrite (kuhl_geometry_delete_single geom w g Hg Hnext Hlen).
  destruct (release_node_Done geom w g Hg Hlen)
    as (w' & g' & Hrun & Hheap & Hout & _ & Hrest).
  exists w', g'. split; [exact Hrun|]. split; [exact Hheap|]. split; [exact Hout|].
  exact Hrest.
Qed.

(** The theorem for the geometry of [Examples.busy_world]. *)
Lemma kuhl_geometry_delete_single_geometry_witness :
  exists w',
    kuhl_geometry_delete 2 0 Examples.busy_world = Done tt w'
    /\ (6 ∉ buffers (dev w')) /\ (1 ∉ vertex_arrays (dev w'))
    /\ texture_objects (dev w') = texture_objects (dev Examples.busy_world).
Proof.
  destruct (kuhl_geometry_delete_single_geometry 0 0 Examples.textured_geometry
              Examples.busy_world eq_refl eq_refl ltac:(simpl; lia))
    as (w' & g' & Hrun & _ & _ & _ & _ & _ & _ & _ & Htex & Hattr & _ & Hvao).
  exists w'. split; [exact Hrun|]. split_and!.
  - apply (Hattr 0%nat (Attrib (Some "in_Position"%string) 6)); [simpl; lia|reflexivity].
  - exact Hvao.
  - exact Htex.
Defined.

(** ** Every geometry is drawn once *)

Import DrawCalls.

Lemma quiet_step_refl (d : device) : quiet_step d d.
Proof. by split_and!. Qed.

Lemma quiet_step_trans (d1 d2 d3 : device) :
  quiet_step d1 d2 -> quiet_step d2 d3 -> quiet_step d1 d3.
Proof.
  intros (Hp & Hv & Hb & Hc) (Hp' & Hv' & Hb' & Hc').
  split_and!; [congruence|set_solver|set_solver|congruence].
Qed.

Lemma quiet_ret {A} (a : A) : quiet (ret a).
Proof. intros w a' w' H. unfold ret in H. injection H as _ <-. apply quiet_step_refl. Qed.

Lemma quiet_gl {A} (q : device -> A) : quiet (gl q).
Proof. intros w a' w' H. unfold gl in H. injection H as _ <-. apply quiet_step_refl. Qed.

Lemma quiet_msg (l : level) (text : string) (args : list Z) : quiet (msg l text args).
Proof. intros w a' w' H. unfold msg in H. injection H as _ <-. apply quiet_step_refl. Qed.

Lemma quiet_gl_do (f : device -> device) :
  (forall d, quiet_step d (f d)) -> quiet (gl_do f).
Proof. intros Hf w a' w' H. unfold gl_do in H. injection H as _ <-. apply Hf. Qed.

Lemma quiet_bind {A B} (m : M A) (k : A -> M B) :
  quiet m -> (forall a, quiet (k a)) -> quiet (bind m k).
Proof.
  intros Hm Hk w b w' H. apply bind_Done_inv in H as (a & w1 & E1 & E2).
  apply (quiet_step_trans _ (dev w1)); [by apply (Hm _ _ _ E1)|by apply (Hk _ _ _ _ E2)].
Qed.

Lemma quiet_when (b : bool) (m : M unit) : quiet m -> quiet (when b m).
Proof. intros Hm. destruct b; [done|apply quiet_ret]. Qed.

Lemma quiet_if {A} (b : bool) (m1 m2 : M A) :
  quiet m1 -> quiet m2 -> quiet (if b then m1 else m2).
Proof. by destruct b. Qed.

Lemma quiet_undefined {A} : quiet (@undefined A).
Proof. intros w a w' H. discriminate. Qed.

Lemma quiet_for_each {A} (l : list A) (body : A -> M unit) :
  (forall x, quiet (body x)) -> quiet (for_each l body).
Proof.
  intros Hbody. induction l as [|x l IH]; [apply quiet_ret|].
  simpl. apply quiet_bind; [apply Hbody|]. intros _. exact IH.
Qed.

(** The device calls of [kuhl_geometry_draw] other than the draw
    command itself. *)
Ltac device_call_quiet :=
  intros ?d;
  unfold glUseProgram, glActiveTexture, glBindTexture_2d, glBindVertexArray,
         glBindBuffer_array, glUnmapBuffer_array;
  repeat match goal with |- context [if ?c then _ else _] => destruct c end;
  (split_and!;
   [ reflexivity
   | cbn; set_solver
   | cbn; set_solver
   | unfold draw_calls; cbn [commands issue set_current_program set_active_texture
                             set_texture_binding_2d set_vertex_array_binding
                             set_array_buffer_binding set_vertex_arrays set_buffers
                             set_mapped_buffers];
     rewrite ?List.filter_app; cbn [List.filter is_draw]; rewrite ?app_nil_r;
     reflexivity ]).

Ltac quiet_step_tac :=
  first
    [ apply quiet_ret | apply quiet_gl | apply quiet_msg | apply quiet_undefined
    | apply quiet_gl_do; device_call_quiet
    | apply quiet_when | apply quiet_if
    | apply quiet_for_each; intros ?
    | match goal with
      | |- quiet (match ?x with _ => _ end) => destruct x
      end
    | apply quiet_bind; [|intros ?] ].

Lemma quiet_bind_textures (g : kuhl_geometry) :
  forall (slots : list nat) (hasTex : Z), quiet (bind_textures g slots hasTex).
Proof.
  induction slots as [|i slots IH]; intros hasTex; [apply quiet_ret|].
  simpl. destruct (textures g !! i) as [tex|]; [|apply quiet_undefined].
  apply quiet_bind; [apply quiet_gl|]. intros live.
  apply quiet_if; [apply IH|].
  destruct (texture_name tex) as [nm|]; [|apply quiet_undefined].
  apply quiet_bind; [apply quiet_gl|]. intros loc.
  apply quiet_if; [apply IH|].
  repeat (apply quiet_bind; [apply quiet_gl_do; device_call_quiet|]; intros _).
  apply IH.
Qed.

Lemma quiet_unmap_attribs (g : kuhl_geometry) : quiet (unmap_attribs g).
Proof. unfold unmap_attribs. repeat quiet_step_tac. Qed.

Lemma quiet_unbind_textures (g : kuhl_geometry) : quiet (unbind_textures g).
Proof. unfold unbind_textures. repeat quiet_step_tac. Qed.

(** Steps of a computation, for a property [P] of its result. *)
Lemma step_gl {A} (q : device -> A) (k : A -> M unit) (w : world)
    (P : result unit -> Prop) :
  P (k (q (dev w)) w) -> P (bind (gl q) k w).
Proof. intros H. exact H. Qed.

Lemma step_load (p : nat) (g : kuhl_geometry) (k : kuhl_geometry -> M unit) (w : world)
    (P : result unit -> Prop) :
  heap w !! p = Some g -> P (k g w) -> P (bind (load p) k w).
Proof. intros Hg H. unfold bind, load. rewrite Hg. exact H. Qed.

Lemma step_then (b : bool) (m1 m2 : M unit) (w : world) (P : result unit -> Prop) :
  b = true -> P (m1 w) -> P ((if b then m1 else m2) w).
Proof. intros -> H. exact H. Qed.

Lemma step_else (b : bool) (m1 m2 : M unit) (w : world) (P : result unit -> Prop) :
  b = false -> P (m2 w) -> P ((if b then m1 else m2) w).
Proof. intros -> H. exact H. Qed.

Lemma step_eq {A} (m m' : M A) (k : A -> M unit) (w : world) (P : result unit -> Prop) :
  m = m' -> P (bind m' k w) -> P (bind m k w).
Proof. intros -> H. exact H. Qed.

(** A first part that returns, keeps the heap and is quiet. *)
Lemma step_quiet {A} (m : M A) (k : A -> M unit) (w : world)
    (h : gmap nat kuhl_geometry) (d0 : device) (cs : list command)
    (P : result unit -> Prop) :
  keeps_heap m -> quiet m -> drawing h d0 cs w ->
  (forall a w1, drawing h d0 cs w1 -> P (k a w1)) ->
  P (bind m k w).
Proof.
  intros Hkeep Hquiet (Hh & Hp & Hv & Hb & Hc) Hk.
  destruct (Hkeep w) as (a & w1 & E & Hh1).
  destruct (Hquiet _ _ _ E) as (Hp1 & Hv1 & Hb1 & Hc1).
  unfold bind. rewrite E. apply Hk.
  split_and!; [congruence|congruence|set_solver|set_solver|congruence].
Qed.

Lemma draw_calls_issue (c : command) (d : device) :
  is_draw c = true -> draw_calls (issue c d) = draw_calls d ++ [c].
Proof.
  intros Hc. unfold draw_calls. cbn [commands issue].
  rewrite List.filter_app. cbn [List.filter]. by rewrite Hc.
Qed.

(** The draw command. *)
Lemma step_draw (c : command) (k : unit -> M unit) (w : world)
    (h : gmap nat kuhl_geometry) (d0 : device) (cs : list command)
    (P : result unit -> Prop) :
  is_draw c = true -> drawing h d0 cs w ->
  (forall w1, drawing h d0 (cs ++ [c]) w1 -> P (k tt w1)) ->
  P (bind (gl_do (issue c)) k w).
Proof.
  intros Hdraw (Hh & Hp & Hv & Hb & Hc) Hk. unfold bind, gl_do. apply Hk.
  split_and!; cbn [dev heap]; [done|done|done|done|].
  rewrite (draw_calls_issue _ _ Hdraw). by rewrite Hc.
Qed.

(** The update of the geometry at [p]. *)
Lemma step_modify (p : nat) (f : kuhl_geometry -> kuhl_geometry) (g : kuhl_geometry)
    (k : unit -> M unit) (w : world)
    (h : gmap nat kuhl_geometry) (d0 : device) (cs : list command)
    (P : result unit -> Prop) :
  h !! p = Some g -> drawing h d0 cs w ->
  (forall w1, drawing (<[p := f g]> h) d0 cs w1 -> P (k tt w1)) ->
  P (bind (modify p f) k w).
Proof.
  intros Hg (Hh & Hp & Hv & Hb & Hc) Hk. unfold bind, modify, bind, load, store.
  rewrite Hh, Hg. apply Hk. split_and!; cbn [dev heap]; [by rewrite Hh|done|done|done|done].
Qed.

Ltac draw_step_solver Hatt Hslots :=
  solve [ repeat first
            [ apply keeps_heap_gl | apply keeps_heap_gl_do
            | apply keeps_heap_ret | apply keeps_heap_msg
            | apply keeps_heap_when | apply keeps_heap_if
            | apply keeps_heap_unbind_textures
            | apply keeps_heap_unmap_attribs; exact Hatt
            | apply keeps_heap_bind_textures; exact Hslots
            | match goal with
              | |- keeps_heap (match ?x with _ => _ end) => destruct x
              end
            | apply keeps_heap_bind; [|intros ?] ] ].

Ltac draw_quiet_solver :=
  solve [ repeat first
            [ apply quiet_bind_textures | apply quiet_unmap_attribs
            | apply quiet_unbind_textures | quiet_step_tac ] ].

Lemma ready_mono (d d' : device) (g : kuhl_geometry) :
  programs d' = programs d -> vertex_arrays d ⊆ vertex_arrays d' ->
  buffers d ⊆ buffers d' -> ready d g -> ready d' g.
Proof.
  intros Hp Hv Hb (Hd & Hprog & Hvao & Hidx). split_and!; [done| | |].
  - rewrite <- Hprog. unfold glIsProgram. by rewrite Hp.
  - apply glIsVertexArray_true. apply glIsVertexArray_true in Hvao. set_solver.
  - destruct Hidx as [?|Hlive]; [by left|right].
    apply glIsBuffer_true. apply glIsBuffer_true in Hlive. set_solver.
Qed.

Lemma ready_drawing (h : gmap nat kuhl_geometry) (d0 : device) (cs : list command)
    (w1 : world) (g : kuhl_geometry) :
  drawing h d0 cs w1 -> ready d0 g -> ready (dev w1) g.
Proof. intros (_ & Hp & Hv & Hb & _). by apply ready_mono. Qed.

Section DrawCallsProofs.

Variable MAX_BONES : nat.

(** Drawing one ready geometry, for a property [P] of the result: up
    to the recursive call, one draw command is issued, the geometry is
    marked as drawn, and no program, vertex array or buffer
    disappears. *)
Lemma draw_body_steps (draw_next : option nat -> M unit) (p : nat) (g : kuhl_geometry)
    (w : world) (P : result unit -> Prop) :
  heap w !! p = Some g -> ready (dev w) g ->
  (forall w1, drawing (<[p := with_has_been_drawn 1 g]> (heap w)) (dev w)
                      (draw_calls (dev w) ++ [draw_call_of g]) w1 ->
              P (draw_next (next g) w1)) ->
  P (draw_body MAX_BONES draw_next p w).
Proof.
  intros Hg Hready Hk.
  pose proof Hready as ((Htex & Hatt & Hnames) & _).
  assert (Hslots : forall i, i ∈ seq 0 (texture_count g) ->
             exists t, textures g !! i = Some t /\ is_set (texture_name t) = true).
  { intros i Hi. apply elem_of_seq in Hi.
    destruct (lookup_lt_is_Some_2 (textures g) i ltac:(lia)) as [t Ht].
    exists t. split; [done|]. apply (Hnames i); [lia|done]. }
  assert (H0 : drawing (heap w) (dev w) (draw_calls (dev w)) w) by (by split_and!).
  unfold draw_body.
  do 4 (eapply (step_quiet _ _ _ (heap w) (dev w) (draw_calls (dev w)));
        [apply keeps_heap_gl | apply quiet_gl | eassumption | intros ? ? ?]).
  match goal with
  | Hd : drawing _ _ _ ?w1 |- P (bind (load p) _ ?w1) =>
      apply (step_load p g); [by rewrite (proj1 Hd)|];
      destruct (ready_drawing _ _ _ _ g Hd Hready) as (_ & Hprog & Hvao & _)
  end.
  do 2 apply step_gl.
  apply step_else; [by rewrite Hprog, Hvao|].
  (* up to the draw command *)
  do 12 (eapply (step_quiet _ _ _ (heap w) (dev w) (draw_calls (dev w)));
         [draw_step_solver Hatt Hslots | draw_quiet_solver | eassumption
         | intros ? ? ?]).
  apply step_gl.
  match goal with
  | Hd : drawing _ _ _ ?w1 |- P (bind _ _ ?w1) =>
      destruct (ready_drawing _ _ _ _ g Hd Hready) as (_ & _ & _ & Hidx)
  end.
  eapply (step_eq _ (gl_do (issue (draw_call_of g)))).
  { unfold draw_call_of. destruct Hidx as [-> | ->]; [reflexivity|].
    rewrite andb_true_r. by destruct (0 <? indices_len g)%nat. }
  eapply (step_draw _ _ _ (heap w) (dev w) (draw_calls (dev w)));
    [unfold draw_call_of; by destruct (0 <? indices_len g)%nat | eassumption | intros ? ?].
  eapply (step_quiet _ _ _ (heap w) (dev w) (draw_calls (dev w) ++ [draw_call_of g]));
    [draw_step_solver Hatt Hslots | draw_quiet_solver | eassumption | intros ? ? ?].
  eapply (step_modify p _ g _ _ (heap w) (dev w)); [exact Hg | eassumption | intros ? ?].
  do 4 (eapply (step_quiet _ _ _ (<[p := with_has_been_drawn 1 g]> (heap w)) (dev w)
                  (draw_calls (dev w) ++ [draw_call_of g]));
        [apply keeps_heap_gl_do | draw_quiet_solver | eassumption | intros ? ? ?]).
  by apply Hk.
Qed.

Lemma draw_body_draws (draw_next : option nat -> M unit) (p : nat) (g : kuhl_geometry)
    (w : world) :
  heap w !! p = Some g -> ready (dev w) g ->
  exists w1,
    heap w1 = <[p := with_has_been_drawn 1 g]> (heap w)
    /\ programs (dev w1) = programs (dev w)
    /\ vertex_arrays (dev w) ⊆ vertex_arrays (dev w1)
    /\ buffers (dev w) ⊆ buffers (dev w1)
    /\ draw_calls (dev w1) = draw_calls (dev w) ++ [draw_call_of g]
    /\ draw_body MAX_BONES draw_next p w = draw_next (next g) w1.
Proof.
  intros Hg Hready.
  apply (draw_body_steps draw_next p g w
           (fun r => exists w1,
              heap w1 = <[p := with_has_been_drawn 1 g]> (heap w)
              /\ programs (dev w1) = programs (dev w)
              /\ vertex_arrays (dev w) ⊆ vertex_arrays (dev w1)
              /\ buffers (dev w) ⊆ buffers (dev w1)
              /\ draw_calls (dev w1) = draw_calls (dev w) ++ [draw_call_of g]
              /\ r = draw_next (next g) w1) Hg Hready).
  intros w1 (Hh & Hp & Hv & Hb & Hc). exists w1. by split_and!.
Qed.

(** A geometry whose program is not valid: the error line is printed
    and [kuhl_geometry_draw] returns at once. *)
Lemma draw_body_invalid_program (draw_next : option nat -> M unit) (p : nat)
    (g : kuhl_geometry) (w : world) :
  heap w !! p = Some g -> glIsProgram (dev w) (program g) = false ->
  draw_body MAX_BONES draw_next p w
  = msg STDERR "Program or vertex array object were invalid" [program g; vao g] w.
Proof.
  intros Hg Hinvalid.
  set (P := fun r : result unit =>
              r = msg STDERR "Program or vertex array object were invalid"
                      [program g; vao g] w).
  change (P (draw_body MAX_BONES draw_next p w)).
  assert (HP : P (msg STDERR "Program or vertex array object were invalid"
                      [program g; vao g] w)) by reflexivity.
  clearbody P. unfold draw_body.
  do 4 apply step_gl. apply (step_load p g); [exact Hg|].
  do 2 apply step_gl. apply step_then; [by rewrite Hinvalid|]. exact HP.
Qed.

Lemma omap_lookup_insert_fresh (h : gmap nat kuhl_geometry) (p : nat) (g : kuhl_geometry)
    (ps : list nat) :
  p ∉ ps -> omap (fun q => <[p := g]> h !! q) ps = omap (fun q => h !! q) ps.
Proof.
  induction ps as [|q ps IH]; intros Hp; [done|].
  cbn [omap list_omap]. rewrite lookup_insert_ne by set_solver.
  rewrite IH by set_solver. done.
Qed.

Lemma chain_head (h : gmap nat kuhl_geometry) (first : option nat) (ps : list nat) :
  chain h first ps -> first = head_ptr ps.
Proof. destruct ps; [done|]. by intros (-> & _). Qed.

(** Drawing the ready geometries [pre] at the head of a list: the draw
    commands issued are those of [pre], in order, and the call goes on
    with the rest of the list. *)
Lemma draw_ready_prefix (rest : list nat) (fuel : nat) :
  forall (pre : list nat) (first : option nat) (w : world),
    chain (heap w) first (pre ++ rest) ->
    (forall q g, q ∈ pre -> heap w !! q = Some g -> ready (dev w) g) ->
    exists w1,
      kuhl_geometry_draw MAX_BONES (length pre + fuel) first w
      = kuhl_geometry_draw MAX_BONES fuel (head_ptr rest) w1
      /\ chain (heap w1) (head_ptr rest) rest
      /\ (forall q, q ∉ pre -> heap w1 !! q = heap w !! q)
      /\ programs (dev w1) = programs (dev w)
      /\ draw_calls (dev w1)
         = draw_calls (dev w) ++ map draw_call_of (omap (fun q => heap w !! q) pre).
Proof.
  induction pre as [|p pre IH]; intros first w Hc Hready.
  - exists w. cbn [app] in Hc. pose proof (chain_head _ _ _ Hc) as ->.
    split_and!; [done|exact Hc|done|done|].
    cbn [omap list_omap map]. by rewrite app_nil_r.
  - pose proof (chain_NoDup _ _ _ Hc) as Hnd. cbn [app] in Hnd.
    apply NoDup_cons in Hnd as [Hnotin _].
    destruct Hc as (-> & g & Hg & Hrest).
    assert (Hrg : ready (dev w) g) by (apply (Hready p); [left|done]).
    destruct (draw_body_draws (kuhl_geometry_draw MAX_BONES (length pre + fuel)) p g w
                Hg Hrg) as (w1 & Hheap1 & Hp1 & Hv1 & Hb1 & Hc1 & Hrun1).
    destruct (IH (next g) w1) as (w2 & Hrun2 & Hchain2 & Hheap2 & Hp2 & Hc2).
    { rewrite Hheap1. by apply chain_insert_fresh. }
    { intros q gq Hq Hgq. rewrite Hheap1, lookup_insert_ne in Hgq.
      - apply (ready_mono (dev w)); try done. apply (Hready q); [by right|done].
      - intros ->. apply Hnotin. apply elem_of_app. by left. }
    exists w2. cbn [length Nat.add kuhl_geometry_draw]. rewrite Hrun1, Hrun2.
    split_and!; try done.
    + intros q Hq. rewrite Hheap2 by set_solver.
      rewrite Hheap1, lookup_insert_ne; [done|]. set_solver.
    + congruence.
    + rewrite Hc2, Hc1, Hheap1. cbn [omap list_omap]. rewrite Hg. cbn [map].
      rewrite omap_lookup_insert_fresh by set_solver.
      by rewrite <- app_assoc.
Qed.

End DrawCallsProofs.

(** X20.  [kuhl_geometry_draw] on a null-terminated list of geometries
    that are ready to be drawn returns and has issued exactly one draw
    command per geometry, in the order of the list: an indexed draw of
    [indices_len] indices for a geometry with indices, a draw of
    [vertex_count] vertices otherwise. *)
Theorem kuhl_geometry_draw_draws_each_once :
  forall (MAX_BONES : nat) (ps : list nat) (first : option nat) (w : world),
    chain (heap w) first ps ->
    (forall q g, q ∈ ps -> heap w !! q = Some g -> ready (dev w) g) ->
    exists w',
      kuhl_geometry_draw MAX_BONES (S (length ps)) first w = Done tt w'
      /\ draw_calls (dev w')
         = draw_calls (dev w) ++ map draw_call_of (omap (fun q => heap w !! q) ps).
Proof.
  intros MB ps first w Hc Hready.
  destruct (draw_ready_prefix MB [] 1 ps first w) as (w1 & Hrun & _ & _ & _ & Hcalls).
  { by rewrite app_nil_r. }
  { done. }
  exists w1. rewrite <- Nat.add_1_r, Hrun. split; [reflexivity|exact Hcalls].
Qed.

(** The theorem for the geometry of [Examples.busy_world], which has no
    indices. *)
Lemma kuhl_geometry_draw_draws_each_once_witness :
  exists w',
    kuhl_geometry_draw 4 2 (Some 0%nat) Examples.busy_world = Done tt w'
    /\ draw_calls (dev w') = [DrawArrays GL_TRIANGLES 0 3].
Proof.
  apply (kuhl_geometry_draw_draws_each_once 4 [0%nat] (Some 0%nat) Examples.busy_world).
  - split; [reflexivity|]. eexists. split; reflexivity.
  - intros q g Hq Hg. apply list_elem_of_singleton in Hq. subst q.
    change (heap Examples.busy_world !! 0%nat) with (Some Examples.textured_geometry) in Hg.
    injection Hg as <-. split_and!.
    + split_and!; [simpl; lia|simpl; lia|].
      intros [|[|i]] t Hi Ht; simpl in Hi; try lia. injection Ht as <-. reflexivity.
    + reflexivity.
    + reflexivity.
    + left. reflexivity.
Defined.

(** X21.  [kuhl_geometry_draw] stops at the first geometry whose
    program is not valid: the ready geometries before it are drawn, the
    error line is printed, and neither that geometry nor any geometry
    after it in the list is drawn. *)
Theorem kuhl_geometry_draw_stops_at_invalid_program :
  forall (MAX_BONES : nat) (pre post : list nat) (p : nat) (g : kuhl_geometry)
         (first : option nat) (w : world),
    chain (heap w) first (pre ++ p :: post) ->
    (forall q gq, q ∈ pre -> heap w !! q = Some gq -> ready (dev w) gq) ->
    heap w !! p = Some g ->
    glIsProgram (dev w) (program g) = false ->
    exists w',
      kuhl_geometry_draw MAX_BONES (S (length pre)) first w = Done tt w'
      /\ draw_calls (dev w')
         = draw_calls (dev w) ++ map draw_call_of (omap (fun q => heap w !! q) pre)
      /\ last (output w')
         = Some (Msg STDERR "Program or vertex array object were invalid"
                     [program g; vao g]).
Proof.
  intros MB pre post p g first w Hc Hready Hg Hinvalid.
  pose proof (chain_NoDup _ _ _ Hc) as Hnd.
  apply NoDup_app in Hnd as (_ & Hdis & _).
  destruct (draw_ready_prefix MB (p :: post) 1 pre first w Hc Hready)
    as (w1 & Hrun & _ & Hheap & Hprogs & Hcalls).
  assert (Hg1 : heap w1 !! p = Some g).
  { rewrite Hheap; [done|]. intros Hin. apply (Hdis p Hin). left. }
  assert (Hinv1 : glIsProgram (dev w1) (program g) = false).
  { rewrite <- Hinvalid. unfold glIsProgram. by rewrite Hprogs. }
  eexists. rewrite <- Nat.add_1_r, Hrun. cbn [head_ptr kuhl_geometry_draw].
  rewrite (draw_body_invalid_program MB _ p g w1 Hg1 Hinv1). unfold msg.
  split; [reflexivity|]. cbn [dev output]. split; [exact Hcalls|].
  apply last_snoc.
Qed.

(** The theorem for a list whose first geometry uses the unknown
    program 8. *)
Lemma kuhl_geometry_draw_stops_at_invalid_program_witness :
  exists w',
    kuhl_geometry_draw 4 1 (Some 0%nat) MoreExamples.stale_program = Done tt w'
    /\ draw_calls (dev w') = []
    /\ last (output w')
       = Some (Msg STDERR "Program or vertex array object were invalid" [8; 1]).
Proof.
  apply (kuhl_geometry_draw_stops_at_invalid_program 4 [] [1%nat] 0
           (Programs.with_program 8 (Examples.fresh_geometry 1 (Some 1%nat)))
           (Some 0%nat) MoreExamples.stale_program).
  - split; [reflexivity|]. eexists. split; [reflexivity|].
    split; [reflexivity|]. eexists. split; reflexivity.
  - intros q gq Hq. by apply elem_of_nil in Hq.
  - reflexivity.
  - reflexivity.
Defined.
(** ** Import of the faces of a mesh *)

Import MeshImport.

Lemma u32_small (n : nat) : Z.of_nat n < 4294967296 -> u32 n = n.
Proof. intros H. unfold u32. rewrite Z.mod_small by lia. apply Nat2Z.id. Qed.

(** The inner loop writes the first [t] indices of the face over the
    [t] cells that follow [pre]. *)
Lemma fill_face_writes (t k : nat) (f pre post : list nat) :
  length pre = (k * t)%nat -> (t <= length f)%nat ->
  Z.of_nat (k * t + t) < 4294967296 ->
  forall old, length old = t ->
    fill_face t (Some (pre ++ old ++ post)) (k, f) = Some (pre ++ take t f ++ post).
Proof.
  intros Hpre Hf Hmax old Hold. unfold fill_face. cbn [fst snd].
  assert (Hgen : forall x, (x <= t)%nat ->
            fold_left (fun (st : option (list nat)) (x : nat) =>
               match st with
               | None => None
               | Some arr =>
                   match f !! x with
                   | None => None
                   | Some v => write_index arr (u32 (k * t + x)) v
                   end
               end) (seq 0 x) (Some (pre ++ old ++ post))
            = Some (pre ++ take x f ++ drop x old ++ post)).
  { induction x as [|x IH]; intros Hx; [by rewrite take_0, drop_0|].
    rewrite seq_S, fold_left_app, IH by lia. cbn [fold_left Nat.add].
    destruct (lookup_lt_is_Some_2 f x ltac:(lia)) as [v Hv]. rewrite Hv.
    rewrite u32_small by lia. unfold write_index.
    destruct (lookup_lt_is_Some_2 old x ltac:(lia)) as [o Ho].
    rewrite (drop_S _ _ _ Ho).
    assert (Hlen : (k * t + x <? length (pre ++ take x f ++ (o :: drop (S x) old) ++ post))%nat
                   = true).
    { apply Nat.ltb_lt. rewrite !length_app, length_take. cbn [length]. lia. }
    rewrite Hlen. f_equal.
    rewrite <- Hpre, insert_app_r.
    replace x with (length (take x f) + 0)%nat at 1 by (rewrite length_take; lia).
    rewrite insert_app_r. cbn [list_insert app].
    rewrite (take_S_r _ _ _ Hv), <- !app_assoc. reflexivity. }
  rewrite (Hgen t (le_n t)). by rewrite drop_ge by lia.
Qed.

(** The outer loop fills the array with the first [t] indices of every
    face, in the order of the faces. *)
Lemma fill_faces_writes (t : nat) :
  forall (todo done : list (list nat)),
    (forall f, f ∈ done ++ todo -> (t <= length f)%nat) ->
    Z.of_nat (length (done ++ todo) * t) < 4294967296 ->
    fold_left (fill_face t) (imap (fun i => pair (length done + i)%nat) todo)
              (Some (flat_map (take t) done ++ replicate (length todo * t) 0%nat))
    = Some (flat_map (take t) (done ++ todo)).
Proof.
  induction todo as [|f todo IH]; intros done Hfaces Hmax.
  - cbn. by rewrite !app_nil_r.
  - cbn [imap fold_left length Nat.mul]. rewrite Nat.add_0_r.
    assert (Hdone : length (flat_map (take t) done) = (length done * t)%nat).
    { clear - Hfaces. induction done as [|d done IHd]; [done|].
      cbn [flat_map length Nat.mul]. rewrite length_app, length_take, IHd.
      - assert (t <= length d)%nat by (apply Hfaces; left). lia.
      - intros f' Hf'. apply Hfaces. by right. }
    rewrite length_app in Hmax. cbn [length] in Hmax.
    rewrite replicate_add.
    rewrite (fill_face_writes t (length done) f (flat_map (take t) done)
               (replicate (length todo * t) 0%nat) Hdone).
    + specialize (IH (done ++ [f])).
      rewrite <- (app_assoc done [f] todo) in IH. cbn [app] in IH.
      rewrite flat_map_app in IH. cbn [flat_map] in IH. rewrite app_nil_r in IH.
      rewrite <- app_assoc in IH.
      rewrite <- IH.
      * f_equal. apply imap_ext. intros i x _. cbn. f_equal.
        rewrite length_app. cbn [length]. lia.
      * done.
      * rewrite length_app. cbn [length]. lia.
    + apply Hfaces. apply elem_of_app. right. left.
    + lia.
    + apply length_replicate.
Qed.

Lemma flat_map_take_length (t : nat) (faces : list (list nat)) :
  (forall f, f ∈ faces -> (t <= length f)%nat) ->
  length (flat_map (take t) faces) = (length faces * t)%nat.
Proof.
  induction faces as [|d faces IH]; intros Hfaces; [done|].
  cbn [flat_map length Nat.mul]. rewrite length_app, length_take, IH.
  - assert (t <= length d)%nat by (apply Hfaces; left). lia.
  - intros f' Hf'. apply Hfaces. by right.
Qed.

(** A call of [kuhl_geometry_indices] with a count that fits the
    primitive type returns and uploads the indices. *)
Lemma kuhl_geometry_indices_Done (p : nat) (g : kuhl_geometry) (idx : list nat) (n : nat)
    (w : world) :
  heap w !! p = Some g ->
  n <> 0%nat -> (n <= length idx)%nat ->
  (primitive_type g = GL_TRIANGLES -> (n mod 3 = 0)%nat) ->
  (primitive_type g = GL_LINES -> (n mod 2 = 0)%nat) ->
  exists w' g',
    kuhl_geometry_indices p (Some idx) n w = Done tt w'
    /\ heap w' !! p = Some g'
    /\ indices_len g' = n
    /\ vertex_count g' = vertex_count g /\ primitive_type g' = primitive_type g
    /\ last (commands (dev w'))
       = Some (BufferDataIndices (indices_bufferobject g') (take n idx)).
Proof.
  intros Hg Hn Hlen H3 H2. unfold kuhl_geometry_indices.
  destruct (n =? 0)%nat eqn:E0; [apply Nat.eqb_eq in E0; lia|].
  unfold bind at 1, load. rewrite Hg.
  assert (Ha : (primitive_type g =? GL_TRIANGLES) && negb (n mod 3 =? 0)%nat = false).
  { destruct (primitive_type g =? GL_TRIANGLES) eqn:E; [|done].
    apply Z.eqb_eq in E. rewrite (H3 E). done. }
  assert (Hb : (primitive_type g =? GL_LINES) && negb (n mod 2 =? 0)%nat = false).
  { destruct (primitive_type g =? GL_LINES) eqn:E; [|done].
    apply Z.eqb_eq in E. rewrite (H2 E). done. }
  rewrite Ha, Hb.
  unfold bind at 1, modify. unfold bind at 1, load. rewrite Hg.
  unfold store at 1. cbn [heap dev output].
  unfold bind at 1.
  rewrite (report_loop (vertex_count g) idx n 0).
  2:{ intros k Hk. apply lookup_lt_is_Some. simpl. lia. }
  cbn [heap dev output]. rewrite drop_0.
  unfold bind, gl_do, gl, modify, load, store. cbn.
  rewrite lookup_insert_eq. cbn.
  eexists _, _. split; [reflexivity|]. cbn.
  rewrite lookup_insert_eq.
  repeat split.
  rewrite last_snoc. reflexivity.
Qed.

(** The pairs that [mesh_primitive] can return. *)
Lemma mesh_primitive_cases (POINT LINE TRIANGLE POLYGON : Z) (v : Z) (t : nat) (gl_ : Z)
    (w w' : world) :
  mesh_primitive POINT LINE TRIANGLE POLYGON v w = Done (Some (t, gl_)) w' ->
  (t = 1%nat /\ gl_ = GL_POINTS) \/ (t = 2%nat /\ gl_ = GL_LINES)
  \/ (t = 3%nat /\ gl_ = GL_TRIANGLES).
Proof.
  unfold mesh_primitive. intros H.
  repeat match type of H with
         | context [if ?c then _ else _] => destruct c
         end; run; try discriminate; injection H as <- <- _; auto.
Qed.

(** X22.  The importer never trips the arity check of
    [kuhl_geometry_indices]: for a mesh that passed the checks on its
    primitive type, whose faces carry at least as many indices as that
    type needs, the block that builds the index list returns, and the
    indices it uploads are the first indices of every face, in the
    order of the faces. *)
Theorem kuhl_private_load_model_indices_accepted :
  forall (POINT LINE TRIANGLE POLYGON : Z) (mPrimitiveTypes : Z) (t : nat) (gl_ : Z)
         (w0 w0' : world) (geom : nat) (g : kuhl_geometry) (mFaces : list (list nat))
         (w : world),
    mesh_primitive POINT LINE TRIANGLE POLYGON mPrimitiveTypes w0
    = Done (Some (t, gl_)) w0' ->
    heap w !! geom = Some g -> primitive_type g = gl_ ->
    mFaces <> [] ->
    (forall f, f ∈ mFaces -> (t <= length f)%nat) ->
    Z.of_nat (length mFaces * t) < 4294967296 ->
    exists w' g',
      kuhl_private_load_model_indices geom mFaces t w = Done tt w'
      /\ heap w' !! geom = Some g'
      /\ indices_len g' = (length mFaces * t)%nat
      /\ last (commands (dev w'))
         = Some (BufferDataIndices (indices_bufferobject g') (flat_map (take t) mFaces)).
Proof.
  intros POINT LINE TRIANGLE POLYGON v t gl_ w0 w0' geom g mFaces w
         Hprim Hg Hgl Hne Hfaces Hmax.
  apply mesh_primitive_cases in Hprim.
  unfold kuhl_private_load_model_indices.
  assert (Hpos : (0 <? length mFaces)%nat = true).
  { apply Nat.ltb_lt. destruct mFaces; [done|simpl; lia]. }
  rewrite Hpos, u32_small by done.
  assert (Hfill : fold_left (fill_face t) (imap pair mFaces)
                    (Some (replicate (length mFaces * t) 0%nat))
                  = Some (flat_map (take t) mFaces))
    by exact (fill_faces_writes t mFaces [] Hfaces Hmax).
  rewrite Hfill.
  pose proof (flat_map_take_length t mFaces Hfaces) as Hlen.
  assert (Hargs : (length mFaces * t)%nat <> 0%nat
                  /\ (primitive_type g = GL_TRIANGLES -> ((length mFaces * t) mod 3 = 0)%nat)
                  /\ (primitive_type g = GL_LINES -> ((length mFaces * t) mod 2 = 0)%nat)).
  { apply Nat.ltb_lt in Hpos. rewrite Hgl.
    destruct Hprim as [[-> ->]|[[-> ->]|[-> ->]]];
      (split_and!; [lia| |]); intros Heq; try discriminate;
      apply Nat.Div0.mod_mul. }
  destruct Hargs as (Hn0 & H3 & H2).
  destruct (kuhl_geometry_indices_Done geom g (flat_map (take t) mFaces)
              (length mFaces * t) w Hg Hn0 ltac:(lia) H3 H2)
    as (w' & g' & Hrun & Hg' & Hn & _ & _ & Hlast).
  exists w', g'. split; [exact Hrun|]. split; [exact Hg'|]. split; [exact Hn|].
  rewrite Hlast. by rewrite take_ge by lia.
Qed.

(** The theorem for a mesh of one triangle, with the bits 1, 2, 4 and 8
    for points, lines, triangles and polygons. *)
Lemma kuhl_private_load_model_indices_accepted_witness :
  exists w' g',
    kuhl_private_load_model_indices 0 [[0; 1; 2]%nat] 3 Examples.one_node = Done tt w'
    /\ heap w' !! 0%nat = Some g'
    /\ indices_len g' = 3%nat
    /\ last (commands (dev w'))
       = Some (BufferDataIndices (indices_bufferobject g') [0; 1; 2]%nat).
Proof.
  apply (kuhl_private_load_model_indices_accepted 1 2 4 8 4 3 GL_TRIANGLES
           Examples.one_node Examples.one_node 0 (Examples.fresh_geometry 1 None)
           [[0; 1; 2]%nat] Examples.one_node).
  - reflexivity.
  - reflexivity.
  - reflexivity.
  - discriminate.
  - intros f Hf. apply list_elem_of_singleton in Hf. subst f. simpl. lia.
  - simpl. lia.
Defined.

